(** * Log summarizer (lab02/summarizer.py): a shallow embedding and its properties

    The development follows the layout of [summarizer.py]:
    - Python text ([str]) as a list of Unicode code points;
    - the part of Python's [re] engine that [LINE_RE] and [datetime.strptime]
      use: a backtracking matcher with named groups;
    - [datetime] values, their ordering, [strptime] and [strftime] for
      [TS_FORMAT];
    - the [Summary] dataclass with [update_time_bounds] and [bump_level];
    - a read-only filesystem snapshot with a trace of the operations made on
      it, [iter_log_files], [parse_line], [summarize_directory] and
      [format_report];
    - [main] of [lab02/__main__.py], from the parsed command line on, with
      what it writes on the two streams.

    What the library functions do is taken from CPython 3.11 on Linux
    ([re], [_strptime], [datetime], [pathlib], [print]) with the
    character tables of Unicode 14.0:
    - [\d] and [int()] take the decimal digits of every script, [\s] and
      the stripping of [int()] every character for which [str.isspace]
      holds;
    - [strptime] matches its own pattern for the format and then builds a
      [datetime], and every failure on the way is a [ValueError];
    - [Path.suffix] is empty for a name whose last dot is its first or its
      last character;
    - [strftime] hands the directives to the C library, which writes the
      year without padding: three digits for the year 999, a text that
      [strptime] does not read back;
    - [Path.exists], [Path.is_dir] and [Path.is_file] answer [False] when
      [stat] finds nothing and let its [PermissionError] through, and
      [Path.iterdir] raises it on a directory that may not be listed;
    - [print] writes the text and then the newline, and raises
      [UnicodeEncodeError] when the standard output cannot encode what it
      is given; the standard error replaces what it cannot encode.

    The filesystem is a snapshot: nothing changes during a scan. A path
    leads to a regular file, to a directory or to something else, or
    nowhere; a directory may be closed to listing, to search or to both,
    and a regular file either yields its lines or cannot be opened. The
    failures of the filesystem are [OSError]s other than the two classes
    [main] catches. Exceptions carry no message, except the two that
    [summarize_directory] raises itself. The two streams take every text
    written to them. *)

From Stdlib Require Import String Ascii.
From Stdlib Require Import List ZArith NArith Lia Bool Permutation Sorted.
Import ListNotations.

Set Implicit Arguments.

(* ================================================================= *)
(** ** Python text *)

(** A Python [str] is a sequence of Unicode code points. *)
Definition char : Type := N.
Definition str : Type := list char.

(** A literal of the source, written in ASCII. *)
Definition lit (s : string) : str :=
  List.map N_of_ascii (list_ascii_of_string s).

Definition NL : char := 10%N.

(** [a == b] on text. *)
Fixpoint str_eqb (a b : str) : bool :=
  match a, b with
  | [], [] => true
  | x :: a', y :: b' => (x =? y)%N && str_eqb a' b'
  | _, _ => false
  end.

(** Code points of the zero digit of every run of ten decimal digits
    (Unicode general category Nd, Unicode 14.0): what [\d] matches in a
    [str] pattern and what [int()] converts. *)
Definition Nd_zero : list char :=
  [ 0x30; 0x660; 0x6f0; 0x7c0; 0x966; 0x9e6; 0xa66; 0xae6; 0xb66; 0xbe6;
    0xc66; 0xce6; 0xd66; 0xde6; 0xe50; 0xed0; 0xf20; 0x1040; 0x1090;
    0x17e0; 0x1810; 0x1946; 0x19d0; 0x1a80; 0x1a90; 0x1b50; 0x1bb0;
    0x1c40; 0x1c50; 0xa620; 0xa8d0; 0xa900; 0xa9d0; 0xa9f0; 0xaa50;
    0xabf0; 0xff10; 0x104a0; 0x10d30; 0x11066; 0x110f0; 0x11136;
    0x111d0; 0x112f0; 0x11450; 0x114d0; 0x11650; 0x116c0; 0x11730;
    0x118e0; 0x11950; 0x11c50; 0x11d50; 0x11da0; 0x16a60; 0x16ac0;
    0x16b50; 0x1d7ce; 0x1d7d8; 0x1d7e2; 0x1d7ec; 0x1d7f6; 0x1e140;
    0x1e2f0; 0x1e950; 0x1fbf0 ]%N.

(** The decimal value of a code point of category Nd. *)
Definition digit_value (c : char) : option N :=
  match find (fun z => (z <=? c)%N && (c <? z + 10)%N) Nd_zero with
  | Some z => Some (c - z)%N
  | None => None
  end.

Definition isdigit (c : char) : bool :=
  match digit_value c with Some _ => true | None => false end.

(** The code points for which [str.isspace] holds: what [\s] matches in a
    [str] pattern and what [int()] strips. *)
Definition whitespace : list char :=
  [ 0x9; 0xa; 0xb; 0xc; 0xd; 0x1c; 0x1d; 0x1e; 0x1f; 0x20; 0x85; 0xa0;
    0x1680; 0x2000; 0x2001; 0x2002; 0x2003; 0x2004; 0x2005; 0x2006;
    0x2007; 0x2008; 0x2009; 0x200a; 0x2028; 0x2029; 0x202f; 0x205f;
    0x3000 ]%N.

Definition isspace (c : char) : bool := existsb (N.eqb c) whitespace.

(** [s.rstrip("\n")]: drop every trailing newline. *)
Fixpoint rstrip_nl (s : str) : str :=
  match s with
  | [] => []
  | c :: s' =>
      match rstrip_nl s' with
      | [] => if (c =? NL)%N then [] else [c]
      | t => c :: t
      end
  end.

(** [s.endswith(suffix)]. *)
Definition endswith (s suffix : str) : bool :=
  str_eqb (skipn (length s - length suffix) s) suffix
  && (length suffix <=? length s).

(* ================================================================= *)
(** ** Regular expressions: the fragment of [re] used by the program *)

(** Character sets. *)
Inductive cset : Type :=
| c_digit                      (* \d *)
| c_space                      (* \s *)
| c_dot                        (* .  : anything but a newline *)
| c_range (lo hi : char).      (* [lo-hi] *)

Definition in_cset (cs : cset) (c : char) : bool :=
  match cs with
  | c_digit => isdigit c
  | c_space => isspace c
  | c_dot => negb (c =? NL)%N
  | c_range lo hi => ((lo <=? c) && (c <=? hi))%N
  end.

Inductive regex : Type :=
| r_bol                                            (* ^ *)
| r_eol                                            (* $ *)
| r_lit (l : str)                                  (* literal text *)
| r_repeat (cs : cset) (lo : nat) (hi : option nat) (* cs{lo,hi}, greedy *)
| r_cat (r1 r2 : regex)
| r_alt (r1 r2 : regex)                            (* r1|r2 *)
| r_group (name : string) (r : regex).             (* (?P<name>r) *)

(** The pieces of pattern syntax that occur in the program. *)
Definition digit : regex := r_repeat c_digit 1 (Some 1).        (* \d *)
Definition digits (n : nat) : regex := r_repeat c_digit n (Some n). (* \d{n} *)
Definition spaces : regex := r_repeat c_space 1 None.           (* \s+ *)
Definition anything : regex := r_repeat c_dot 0 None.           (* .* *)
Definition rng (a b : ascii) : regex :=                         (* [a-b] *)
  r_repeat (c_range (N_of_ascii a) (N_of_ascii b)) 1 (Some 1).
Definition txt (s : string) : regex := r_lit (lit s).

Fixpoint seq (l : list regex) : regex :=
  match l with
  | [] => r_lit []
  | [r] => r
  | r :: l' => r_cat r (seq l')
  end.

Fixpoint alts (r : regex) (l : list regex) : regex :=
  match l with
  | [] => r
  | r' :: l' => r_alt r (alts r' l')
  end.

(** Named groups set so far, most recent first. *)
Definition groups : Type := list (string * str).

Definition group (g : groups) (name : string) : option str :=
  match find (fun e => String.eqb (fst e) name) g with
  | Some e => Some (snd e)
  | None => None
  end.

(** Length of the longest prefix made of characters satisfying [p]. *)
Fixpoint span (p : char -> bool) (s : str) : nat :=
  match s with
  | c :: s' => if p c then S (span p s') else 0
  | [] => 0
  end.

Section Matcher.
Variable A : Type.

(** A continuation receives the position reached, the text left, and
    the groups. *)
Definition cont : Type := nat -> str -> groups -> option A.

(** Greedy repetition: try [lo + extra] characters first, then back off
    one character at a time, down to [lo]. *)
Fixpoint backtrack (lo extra : nat) (f : nat -> option A) : option A :=
  match f (lo + extra) with
  | Some a => Some a
  | None =>
      match extra with
      | 0 => None
      | S e => backtrack lo e f
      end
  end.

Fixpoint match_re (r : regex) (pos : nat) (s : str) (g : groups)
         (k : cont) {struct r} : option A :=
  match r with
  | r_bol => if pos =? 0 then k pos s g else None
  | r_eol =>
      match s with
      | [] => k pos s g
      | [c] => if (c =? NL)%N then k pos s g else None
      | _ => None
      end
  | r_lit l =>
      if str_eqb (firstn (length l) s) l
      then k (pos + length l) (skipn (length l) s) g
      else None
  | r_repeat cs lo hi =>
      let avail := span (in_cset cs) s in
      let n := match hi with Some h => Nat.min h avail | None => avail end in
      if n <? lo then None
      else backtrack lo (n - lo) (fun m => k (pos + m) (skipn m s) g)
  | r_cat r1 r2 =>
      match_re r1 pos s g (fun pos1 s1 g1 => match_re r2 pos1 s1 g1 k)
  | r_alt r1 r2 =>
      match match_re r1 pos s g k with
      | Some a => Some a
      | None => match_re r2 pos s g k
      end
  | r_group name r1 =>
      match_re r1 pos s g
        (fun pos1 s1 g1 => k pos1 s1 ((name, firstn (pos1 - pos) s) :: g1))
  end.
End Matcher.

(** [pattern.match(s)]: the end of the match and its groups. *)
Definition re_match (r : regex) (s : str) : option (nat * groups) :=
  match_re r 0 s [] (fun pos _ g => Some (pos, g)).

Local Open Scope string_scope.
Local Open Scope list_scope.
Local Open Scope nat_scope.

(** [LINE_RE] of the source: start of text, the group ts (a date of 4, 2
    and 2 digits, a space, a time of 2, 2 and 2 digits), whitespace, the
    bracketed group level, whitespace, the group msg (the rest), end of
    text. *)
Definition LINE_RE : regex :=
  seq [ r_bol;
        r_group "ts"
          (seq [ digits 4; txt "-"; digits 2; txt "-"; digits 2; txt " ";
                 digits 2; txt ":"; digits 2; txt ":"; digits 2 ]);
        spaces; txt "[";
        r_group "level" (alts (txt "INFO") [txt "WARNING"; txt "ERROR"]);
        txt "]"; spaces;
        r_group "msg" anything;
        r_eol ].

Definition TS_FORMAT : str := lit "%Y-%m-%d %H:%M:%S".
Definition LEVELS : list str := [lit "INFO"; lit "WARNING"; lit "ERROR"].

(* ================================================================= *)
(** ** Exceptions and results *)

Inductive exn : Type :=
| FileNotFoundError (msg : str)
| NotADirectoryError (msg : str)
| ValueError
| TypeError
| UnicodeEncodeError
| OSError.         (* any other failure of the filesystem: PermissionError *)

Inductive result (A : Type) : Type :=
| Ok (a : A)
| Raise (e : exn).
Arguments Ok {A} a.
Arguments Raise {A} e.

Definition rbind {A B} (x : result A) (f : A -> result B) : result B :=
  match x with
  | Ok a => f a
  | Raise e => Raise e
  end.

Declare Scope result_scope.
Delimit Scope result_scope with result.
Notation "'do' x <- c1 ; c2" := (rbind c1 (fun x => c2))
  (at level 10, x name, c1 at level 100, c2 at level 200) : result_scope.

(* ================================================================= *)
(** ** datetime *)

(** A naive [datetime] at second precision: [strptime] with [TS_FORMAT]
    leaves the microsecond at 0 and sets no time zone. *)
Record datetime : Type := mk_datetime {
  year : Z; month : Z; day : Z; hour : Z; minute : Z; second : Z
}.

Section Lex.
Variable T : Type.
Variable cmp : T -> T -> comparison.

(** Lexicographic comparison, as Python compares sequences. *)
Fixpoint lex_compare (a b : list T) : comparison :=
  match a, b with
  | [], [] => Eq
  | [], _ :: _ => Lt
  | _ :: _, [] => Gt
  | x :: a', y :: b' =>
      match cmp x y with
      | Eq => lex_compare a' b'
      | c => c
      end
  end.
End Lex.

Definition dt_fields (t : datetime) : list Z :=
  [year t; month t; day t; hour t; minute t; second t].

Definition dt_compare (a b : datetime) : comparison :=
  lex_compare Z.compare (dt_fields a) (dt_fields b).

(** [a < b], [a > b] and [a <= b] on datetimes. *)
Definition dt_ltb (a b : datetime) : bool :=
  match dt_compare a b with Lt => true | _ => false end.
Definition dt_gtb (a b : datetime) : bool :=
  match dt_compare a b with Gt => true | _ => false end.
Definition dt_leb (a b : datetime) : bool :=
  match dt_compare a b with Gt => false | _ => true end.

Definition is_leap (y : Z) : bool :=
  (y mod 4 =? 0)%Z && (negb (y mod 100 =? 0)%Z || (y mod 400 =? 0)%Z).

Definition days_in_month (y m : Z) : Z :=
  if (m =? 2)%Z then (if is_leap y then 29 else 28)%Z
  else if ((m =? 4) || (m =? 6) || (m =? 9) || (m =? 11))%Z then 30%Z
  else 31%Z.

(** The checks of the [date] and [datetime] constructors. *)
Definition check_date_fields (y m d : Z) : bool :=
  ((1 <=? y) && (y <=? 9999) && (1 <=? m) && (m <=? 12)
   && (1 <=? d) && (d <=? days_in_month y m))%Z.

Definition check_time_fields (h mi s : Z) : bool :=
  ((0 <=? h) && (h <=? 23) && (0 <=? mi) && (mi <=? 59)
   && (0 <=? s) && (s <=? 59))%Z.

Definition valid_datetime (t : datetime) : bool :=
  check_date_fields (year t) (month t) (day t)
  && check_time_fields (hour t) (minute t) (second t).

(** *** int() on the text of a group *)

Fixpoint lstrip (s : str) : str :=
  match s with
  | c :: s' => if isspace c then lstrip s' else s
  | [] => []
  end.

Definition strip (s : str) : str := rev (lstrip (rev (lstrip s))).

Fixpoint int_digits (acc : Z) (s : str) : option Z :=
  match s with
  | [] => Some acc
  | c :: s' =>
      match digit_value c with
      | Some d => int_digits (10 * acc + Z.of_N d) s'
      | None => None
      end
  end.

(** [int(s)] for the texts the groups of a time pattern can hold:
    decimal digits of any script, with surrounding whitespace ignored. *)
Definition int (s : str) : result Z :=
  match strip s with
  | [] => Raise ValueError
  | t => match int_digits 0 t with
         | Some z => Ok z
         | None => Raise ValueError
         end
  end.

(** *** strptime *)

(** The pattern of each directive ([_strptime.TimeRE]). *)

(** Y: four digits. *)
Definition re_Y : regex := r_group "Y" (seq [digit; digit; digit; digit]).

(** m: [1[0-2]], or [0[1-9]], or [[1-9]]. *)
Definition re_m : regex :=
  r_group "m" (alts (seq [txt "1"; rng "0" "2"])
                    [seq [txt "0"; rng "1" "9"]; rng "1" "9"]).

(** d: [3[0-1]], or [[1-2]] and a digit, or [0[1-9]], or [[1-9]], or a
    space and [[1-9]]. *)
Definition re_d : regex :=
  r_group "d" (alts (seq [txt "3"; rng "0" "1"])
                    [seq [rng "1" "2"; digit];
                     seq [txt "0"; rng "1" "9"];
                     rng "1" "9";
                     seq [txt " "; rng "1" "9"]]).

(** H: [2[0-3]], or [[0-1]] and a digit, or a digit. *)
Definition re_H : regex :=
  r_group "H" (alts (seq [txt "2"; rng "0" "3"])
                    [seq [rng "0" "1"; digit]; digit]).

(** M: [[0-5]] and a digit, or a digit. *)
Definition re_M : regex :=
  r_group "M" (alts (seq [rng "0" "5"; digit]) [digit]).

(** S: [6[0-1]], or [[0-5]] and a digit, or a digit. *)
Definition re_S : regex :=
  r_group "S" (alts (seq [txt "6"; rng "0" "1"])
                    [seq [rng "0" "5"; digit]; digit]).

Definition directive (c : char) : option regex :=
  if (c =? N_of_ascii "Y")%N then Some re_Y
  else if (c =? N_of_ascii "m")%N then Some re_m
  else if (c =? N_of_ascii "d")%N then Some re_d
  else if (c =? N_of_ascii "H")%N then Some re_H
  else if (c =? N_of_ascii "M")%N then Some re_M
  else if (c =? N_of_ascii "S")%N then Some re_S
  else None.

(** [TimeRE.pattern]: a run of whitespace in the format becomes [\s+], a
    directive its pattern, any other character itself. [None] stands for
    a directive the table does not have. *)
Fixpoint pattern (fmt : str) : option (list regex) :=
  match fmt with
  | [] => Some []
  | c :: fmt' =>
      if (c =? N_of_ascii "%")%N then
        match fmt' with
        | d :: fmt'' =>
            match directive d, pattern fmt'' with
            | Some r, Some l => Some (r :: l)
            | _, _ => None
            end
        | [] => None
        end
      else
        match pattern fmt' with
        | Some l =>
            if isspace c then
              match fmt' with
              | c' :: _ => if isspace c' then Some l else Some (spaces :: l)
              | [] => Some (spaces :: l)
              end
            else Some (r_lit [c] :: l)
        | None => None
        end
  end.

(** The value of a directive's group, or its default when the format does
    not have the directive. *)
Definition int_group (g : groups) (name : string) (default : Z) : result Z :=
  match group g name with
  | Some s => int s
  | None => Ok default
  end.

(** [datetime.strptime(data_string, format)]. Every failure is a
    [ValueError]: text that does not match the format, text left over
    after the match, and fields that the [datetime] constructor refuses. *)
Definition strptime (data_string format : str) : result datetime :=
  match pattern format with
  | None => Raise ValueError
  | Some l =>
      match re_match (seq l) data_string with
      | None => Raise ValueError
      | Some (found_end, g) =>
          if negb (Nat.eqb (length data_string) found_end) then Raise ValueError
          else
            (do y <- int_group g "Y" 1900;
             do m <- int_group g "m" 1;
             do d <- int_group g "d" 1;
             do h <- int_group g "H" 0;
             do mi <- int_group g "M" 0;
             do s <- int_group g "S" 0;
             if check_date_fields y m d && check_time_fields h mi s
             then Ok (mk_datetime y m d h mi s)
             else Raise ValueError)%result
      end
  end.

(** *** strftime *)

Fixpoint uint_chars (d : Decimal.uint) : str :=
  match d with
  | Decimal.Nil => []
  | Decimal.D0 d' => 48%N :: uint_chars d'
  | Decimal.D1 d' => 49%N :: uint_chars d'
  | Decimal.D2 d' => 50%N :: uint_chars d'
  | Decimal.D3 d' => 51%N :: uint_chars d'
  | Decimal.D4 d' => 52%N :: uint_chars d'
  | Decimal.D5 d' => 53%N :: uint_chars d'
  | Decimal.D6 d' => 54%N :: uint_chars d'
  | Decimal.D7 d' => 55%N :: uint_chars d'
  | Decimal.D8 d' => 56%N :: uint_chars d'
  | Decimal.D9 d' => 57%N :: uint_chars d'
  end.

(** [str(z)] for an [int]. *)
Definition str_of_int (z : Z) : str :=
  match Z.to_int z with
  | Decimal.Pos d => uint_chars d
  | Decimal.Neg d => N_of_ascii "-" :: uint_chars d
  end.

(** [z] in decimal, padded with zeros on the left to [width] characters. *)
Definition zfill (width : nat) (z : Z) : str :=
  let d := str_of_int z in
  repeat 48%N (width - length d) ++ d.

(** [t.strftime(TS_FORMAT)], as the C library of Linux writes the
    directives: the year as a plain decimal number (three digits for the
    year 999), each of the other fields on two digits. *)
Definition strftime_ts (t : datetime) : str :=
  str_of_int (year t) ++ lit "-" ++ zfill 2 (month t) ++ lit "-"
  ++ zfill 2 (day t) ++ lit " " ++ zfill 2 (hour t) ++ lit ":"
  ++ zfill 2 (minute t) ++ lit ":" ++ zfill 2 (second t).

(* ================================================================= *)
(** ** The Summary dataclass *)

Record Summary : Type := mk_Summary {
  files_processed : Z;
  lines_seen : Z;
  lines_matched : Z;
  lines_skipped : Z;
  info : Z;
  warning : Z;
  error : Z;
  earliest : option datetime;
  latest : option datetime
}.

(** [Summary()]: the defaults of the dataclass. *)
Definition Summary_new : Summary := mk_Summary 0 0 0 0 0 0 0 None None.

(** Field assignments. The methods below take the object before the call
    and return the object after it. *)
Definition set_files_processed (self : Summary) (v : Z) : Summary :=
  mk_Summary v (lines_seen self) (lines_matched self) (lines_skipped self)
    (info self) (warning self) (error self) (earliest self) (latest self).
Definition set_lines_seen (self : Summary) (v : Z) : Summary :=
  mk_Summary (files_processed self) v (lines_matched self)
    (lines_skipped self) (info self) (warning self) (error self)
    (earliest self) (latest self).
Definition set_lines_matched (self : Summary) (v : Z) : Summary :=
  mk_Summary (files_processed self) (lines_seen self) v
    (lines_skipped self) (info self) (warning self) (error self)
    (earliest self) (latest self).
Definition set_lines_skipped (self : Summary) (v : Z) : Summary :=
  mk_Summary (files_processed self) (lines_seen self) (lines_matched self)
    v (info self) (warning self) (error self) (earliest self) (latest self).
Definition set_info (self : Summary) (v : Z) : Summary :=
  mk_Summary (files_processed self) (lines_seen self) (lines_matched self)
    (lines_skipped self) v (warning self) (error self)
    (earliest self) (latest self).
Definition set_warning (self : Summary) (v : Z) : Summary :=
  mk_Summary (files_processed self) (lines_seen self) (lines_matched self)
    (lines_skipped self) (info self) v (error self)
    (earliest self) (latest self).
Definition set_error (self : Summary) (v : Z) : Summary :=
  mk_Summary (files_processed self) (lines_seen self) (lines_matched self)
    (lines_skipped self) (info self) (warning self) v
    (earliest self) (latest self).
Definition set_earliest (self : Summary) (v : option datetime) : Summary :=
  mk_Summary (files_processed self) (lines_seen self) (lines_matched self)
    (lines_skipped self) (info self) (warning self) (error self)
    v (latest self).
Definition set_latest (self : Summary) (v : option datetime) : Summary :=
  mk_Summary (files_processed self) (lines_seen self) (lines_matched self)
    (lines_skipped self) (info self) (warning self) (error self)
    (earliest self) v.

Definition update_time_bounds (self : Summary) (ts : datetime) : Summary :=
  let self :=
    if match earliest self with
       | None => true
       | Some e => dt_ltb ts e
       end
    then set_earliest self (Some ts) else self in
  let self :=
    if match latest self with
       | None => true
       | Some l => dt_gtb ts l
       end
    then set_latest self (Some ts) else self in
  self.

Definition bump_level (self : Summary) (level : str) : Summary :=
  if str_eqb level (lit "INFO") then set_info self (info self + 1)
  else if str_eqb level (lit "WARNING") then
    set_warning self (warning self + 1)
  else if str_eqb level (lit "ERROR") then set_error self (error self + 1)
  else self.

(* ================================================================= *)
(** ** Paths *)

(** A path is the list of its components. *)
Definition Path : Type := list str.

(** [directory / name]. *)
Definition joinpath (directory : Path) (name : str) : Path :=
  directory ++ [name].

(** [p.name]: the final component. *)
Definition name (p : Path) : str := last p [].

(** [s.rfind(c)], [None] for -1. *)
Fixpoint rfind (c : char) (s : str) : option nat :=
  match s with
  | [] => None
  | x :: s' =>
      match rfind c s' with
      | Some i => Some (S i)
      | None => if (x =? c)%N then Some 0 else None
      end
  end.

(** [p.suffix]: the name from its last dot on, when that dot is neither
    the first nor the last character of the name. *)
Definition suffix (p : Path) : str :=
  let name := name p in
  match rfind (N_of_ascii ".") name with
  | Some i =>
      if (0 <? i) && (i + 1 <? length name) then skipn i name else []
  | None => []
  end.

(** Paths compare as the lists of their components, components as
    sequences of code points. *)
Definition str_compare : str -> str -> comparison := lex_compare N.compare.
Definition path_compare : Path -> Path -> comparison :=
  lex_compare str_compare.
Definition path_ltb (a b : Path) : bool :=
  match path_compare a b with Lt => true | _ => false end.

(** [sorted]: a stable sort that only asks whether one element is less
    than another. *)
Fixpoint insert (x : Path) (l : list Path) : list Path :=
  match l with
  | [] => [x]
  | y :: l' => if path_ltb y x then y :: insert x l' else x :: l
  end.

Definition sorted (l : list Path) : list Path := fold_right insert [] l.

(** [str(p)]. *)
Fixpoint path_str (p : Path) : str :=
  match p with
  | [] => []
  | [c] => c
  | c :: p' => c ++ lit "/" ++ path_str p'
  end.

(* ================================================================= *)
(** ** The filesystem: a snapshot, and a trace of the operations on it *)

(** What the process may do with a directory that it may not both list
    and search: list its entries only (read permission alone), reach what
    is below it only (search permission alone), or neither. *)
Inductive access : Type :=
| ListOnly
| SearchOnly
| NoAccess.

(** What a path leads to. A regular file holds the lines that iterating
    over it yields once it is opened as text (undecodable bytes already
    replaced), or [None] when it cannot be opened. A directory that the
    process may list and search is a [Directory], one with a permission
    missing a [Protected] one. *)
Inductive node : Type :=
| RegularFile (content : option (list str))
| Directory (entries : list (str * node))
| Special
| Protected (mode : access) (entries : list (str * node)).

Definition is_directory (n : node) : bool :=
  match n with
  | Directory _ | Protected _ _ => true
  | _ => false
  end.

(** The entries a listing of the node yields, when the node is a
    directory that may be listed. *)
Definition listing (n : node) : option (list (str * node)) :=
  match n with
  | Directory entries | Protected ListOnly entries => Some entries
  | _ => None
  end.

Fixpoint find_entry (nm : str) (entries : list (str * node)) : option node :=
  match entries with
  | [] => None
  | (n, x) :: entries' => if str_eqb n nm then Some x else find_entry nm entries'
  end.

(** [os.stat] on a path, from the root: the node the path leads to,
    [None] when it leads nowhere (a name is missing, or a component on
    the way is not a directory), and a [PermissionError] when a directory
    on the way may not be searched. *)
Fixpoint stat (root : node) (p : Path) : result (option node) :=
  match p with
  | [] => Ok (Some root)
  | c :: p' =>
      match root with
      | Directory entries | Protected SearchOnly entries =>
          match find_entry c entries with
          | Some x => stat x p'
          | None => Ok None
          end
      | Protected _ _ => Raise OSError
      | _ => Ok None
      end
  end.

Inductive event : Type :=
| ev_exists (p : Path)
| ev_is_dir (p : Path)
| ev_is_file (p : Path)
| ev_iterdir (p : Path)
| ev_open (p : Path).

(** Computations that may raise and that record the filesystem
    operations they make. *)
Definition M (A : Type) : Type := list event -> result A * list event.

Definition ret {A} (a : A) : M A := fun tr => (Ok a, tr).
Definition raise {A} (e : exn) : M A := fun tr => (Raise e, tr).
Definition lift {A} (r : result A) : M A := fun tr => (r, tr).
Definition emit (ev : event) : M unit := fun tr => (Ok tt, tr ++ [ev]).
Definition bind {A B} (m : M A) (f : A -> M B) : M B :=
  fun tr =>
    match m tr with
    | (Ok a, tr') => f a tr'
    | (Raise e, tr') => (Raise e, tr')
    end.

Declare Scope io_scope.
Delimit Scope io_scope with io.
Notation "x <- c1 ;; c2" := (bind c1 (fun x => c2))
  (at level 61, c1 at next level, right associativity) : io_scope.
Notation "c1 ;; c2" := (bind c1 (fun _ => c2))
  (at level 61, right associativity) : io_scope.

(** [for x in l: s = body x s]. *)
Fixpoint for_each {A S} (l : list A) (body : A -> S -> M S) (s : S) : M S :=
  match l with
  | [] => ret s
  | x :: l' => (s' <- body x s ;; for_each l' body s')%io
  end.

Fixpoint filterM {A} (p : A -> M bool) (l : list A) : M (list A) :=
  match l with
  | [] => ret []
  | x :: l' =>
      (b <- p x ;;
       rest <- filterM p l' ;;
       ret (if b then x :: rest else rest))%io
  end.

Section Filesystem.
Variable fs : node.

(** [p.exists()], [p.is_dir()] and [p.is_file()] call [stat]: they
    answer [False] when the path leads nowhere and let the
    [PermissionError] of [stat] through. *)
Definition path_exists (p : Path) : M bool :=
  (emit (ev_exists p) ;;
   n <- lift (stat fs p) ;;
   ret (match n with Some _ => true | None => false end))%io.

Definition is_dir (p : Path) : M bool :=
  (emit (ev_is_dir p) ;;
   n <- lift (stat fs p) ;;
   ret (match n with Some x => is_directory x | None => false end))%io.

Definition is_file (p : Path) : M bool :=
  (emit (ev_is_file p) ;;
   n <- lift (stat fs p) ;;
   ret (match n with Some (RegularFile _) => true | _ => false end))%io.

(** The children of a directory, in the order the system lists them;
    a [PermissionError] when the directory may not be listed. (On a path
    that does not lead to a directory the system raises an error of its
    own, written [OSError] here, which no scan meets: [is_dir] has
    answered first.) *)
Definition iterdir (p : Path) : M (list Path) :=
  (emit (ev_iterdir p) ;;
   n <- lift (stat fs p) ;;
   match n with
   | Some x =>
       match listing x with
       | Some entries => ret (List.map (fun e => joinpath p (fst e)) entries)
       | None => raise OSError
       end
   | None => raise OSError
   end)%io.

(** Open a file for reading and iterate over it. *)
Definition open (p : Path) : M (list str) :=
  (emit (ev_open p) ;;
   n <- lift (stat fs p) ;;
   match n with
   | Some (RegularFile (Some lines)) => ret lines
   | _ => raise OSError
   end)%io.

Definition iter_log_files (directory : Path) : M (list Path) :=
  (entries <- iterdir directory ;;
   kept <- filterM
             (fun p =>
                f <- is_file p ;;
                ret (f && str_eqb (suffix p) (lit ".log")))
             entries ;;
   ret (sorted kept))%io.
End Filesystem.

(* ================================================================= *)
(** ** Parsing and aggregation *)

Definition parse_line (line : str) : result (option (datetime * str)) :=
  match re_match LINE_RE (rstrip_nl line) with
  | None => Ok None
  | Some (_, m) =>
      match group m "ts", group m "level" with
      | Some ts_text, Some level =>
          (do ts <- strptime ts_text TS_FORMAT;
           Ok (Some (ts, level)))%result
      | _, _ => Raise TypeError
      end
  end.

(** The body of the loop over the lines of a file. *)
Definition scan_line (line : str) (summary : Summary) : result Summary :=
  let summary := set_lines_seen summary (lines_seen summary + 1) in
  (do parsed <- parse_line line;
   match parsed with
   | None => Ok (set_lines_skipped summary (lines_skipped summary + 1))
   | Some (ts, level) =>
       let summary := set_lines_matched summary (lines_matched summary + 1) in
       let summary := bump_level summary level in
       Ok (update_time_bounds summary ts)
   end)%result.

Fixpoint scan_lines (lines : list str) (summary : Summary) : result Summary :=
  match lines with
  | [] => Ok summary
  | line :: lines' =>
      (do summary' <- scan_line line summary; scan_lines lines' summary')%result
  end.

(** The body of the loop over the files. *)
Definition scan_file (fs : node) (log_path : Path) (summary : Summary)
  : M Summary :=
  let summary := set_files_processed summary (files_processed summary + 1) in
  (lines <- open fs log_path ;;
   lift (scan_lines lines summary))%io.

Definition summarize_directory (fs : node) (directory : Path) : M Summary :=
  (e <- path_exists fs directory ;;
   if negb e then
     raise (FileNotFoundError
              (lit "Directory does not exist: " ++ path_str directory))
   else
     d <- is_dir fs directory ;;
     if negb d then
       raise (NotADirectoryError (lit "Not a directory: " ++ path_str directory))
     else
       files <- iter_log_files fs directory ;;
       for_each files (scan_file fs) Summary_new)%io.

(* ================================================================= *)
(** ** The report *)

Definition nl : str := [NL].

(** [format_report(directory, summary)]: the text, and the summary object
    as the call leaves it. [resolve] is [Path.resolve] of the system. *)
Definition format_report (resolve : Path -> Path) (directory : Path)
           (summary : Summary) : str * Summary :=
  let earliest :=
    match earliest summary with
    | Some t => strftime_ts t
    | None => lit "N/A"
    end in
  let latest :=
    match latest summary with
    | Some t => strftime_ts t
    | None => lit "N/A"
    end in
  (nl
   ++ lit "==================== Log Summary ====================" ++ nl
   ++ lit "Directory:          " ++ path_str (resolve directory) ++ nl
   ++ lit "Files processed:    " ++ str_of_int (files_processed summary) ++ nl
   ++ lit "-----------------------------------------------------" ++ nl
   ++ lit "Lines seen:         " ++ str_of_int (lines_seen summary) ++ nl
   ++ lit "Lines matched:      " ++ str_of_int (lines_matched summary) ++ nl
   ++ lit "Lines skipped:      " ++ str_of_int (lines_skipped summary) ++ nl
   ++ lit "-----------------------------------------------------" ++ nl
   ++ lit "Log Levels:" ++ nl
   ++ lit "  INFO:            " ++ str_of_int (info summary) ++ nl
   ++ lit "  WARNING:         " ++ str_of_int (warning summary) ++ nl
   ++ lit "  ERROR:           " ++ str_of_int (error summary) ++ nl
   ++ lit "-----------------------------------------------------" ++ nl
   ++ lit "Earliest timestamp: " ++ earliest ++ nl
   ++ lit "Latest timestamp:   " ++ latest ++ nl
   ++ lit "=====================================================" ++ nl,
   summary).

(* ================================================================= *)
(** ** The command line (lab02/__main__.py) *)

(** The texts a run has written to its two streams. *)
Record console : Type := mk_console { stdout : str; stderr : str }.

(** [sys.stdout.write(text)]. The stream encodes the text as a whole
    before it takes any of it; [encodes] tells which texts the encoding
    and the error handler of the standard output can encode (with UTF-8
    and the handler [strict]: the texts without a surrogate). *)
Definition write_stdout (encodes : str -> bool) (text : str) (c : console)
  : result unit * console :=
  if encodes text then (Ok tt, mk_console (stdout c ++ text) (stderr c))
  else (Raise UnicodeEncodeError, c).

(** [print(text)]: the text, then the newline, in two writes. *)
Definition print (encodes : str -> bool) (text : str) (c : console)
  : result unit * console :=
  match write_stdout encodes text c with
  | (Ok _, c') => write_stdout encodes nl c'
  | (Raise e, c') => (Raise e, c')
  end.

(** [print(text, file=sys.stderr)]: the error handler of the standard
    error is [backslashreplace], which leaves no text unencoded. *)
Definition print_err (text : str) (c : console) : console :=
  mk_console (stdout c) (stderr c ++ text ++ nl).

(** [main] from the point where [parser.parse_args] has returned, with
    [directory] for [args.directory]: the exit status it returns, or the
    exception its [except] clause does not name, and what it has written
    by then. The [try] block is the scan followed by the [print] of the
    report; the clause takes the two classes it names, whichever of the
    two statements raised them. The [OSError] of the snapshot is a
    [PermissionError], neither of the two. *)
Definition main (encodes : str -> bool) (fs : node) (resolve : Path -> Path)
           (directory : Path) (c : console) (tr : list event)
  : result Z * console * list event :=
  let '(r, c', tr') :=
    match summarize_directory fs directory tr with
    | (Ok summary, tr') =>
        let '(text, _) := format_report resolve directory summary in
        match print encodes text c with
        | (Ok _, c') => (Ok 0%Z, c', tr')
        | (Raise e, c') => (Raise e, c', tr')
        end
    | (Raise e, tr') => (Raise e, c, tr')
    end in
  match r with
  | Raise (FileNotFoundError msg) | Raise (NotADirectoryError msg) =>
      (Ok 2%Z, print_err (lit "Error: " ++ msg) c', tr')
  | _ => (r, c', tr')
  end.

(* ================================================================= *)
(** * The vocabulary of the statements *)

(** [matches r pos s g pos' s' g']: from position [pos], with [s] left to
    read and groups [g], the pattern [r] can consume a prefix of [s] and
    leave [s'] at position [pos'] with groups [g']. *)
Inductive matches :
  regex -> nat -> str -> groups -> nat -> str -> groups -> Prop :=
| m_bol s g : matches r_bol 0 s g 0 s g
| m_eol pos s g : s = [] \/ s = [NL] -> matches r_eol pos s g pos s g
| m_lit l pos s g : matches (r_lit l) pos (l ++ s) g (pos + length l) s g
| m_repeat cs lo hi pos c s g :
    forallb (in_cset cs) c = true ->
    lo <= length c ->
    match hi with Some h => length c <= h | None => True end ->
    matches (r_repeat cs lo hi) pos (c ++ s) g (pos + length c) s g
| m_cat r1 r2 pos s g pos1 s1 g1 pos2 s2 g2 :
    matches r1 pos s g pos1 s1 g1 ->
    matches r2 pos1 s1 g1 pos2 s2 g2 ->
    matches (r_cat r1 r2) pos s g pos2 s2 g2
| m_alt_l r1 r2 pos s g pos1 s1 g1 :
    matches r1 pos s g pos1 s1 g1 ->
    matches (r_alt r1 r2) pos s g pos1 s1 g1
| m_alt_r r1 r2 pos s g pos1 s1 g1 :
    matches r2 pos s g pos1 s1 g1 ->
    matches (r_alt r1 r2) pos s g pos1 s1 g1
| m_group nm r pos s g pos1 s1 g1 :
    matches r pos s g pos1 s1 g1 ->
    matches (r_group nm r) pos s g pos1 s1
            ((nm, firstn (pos1 - pos) s) :: g1).

(** Exactly [n] characters of a set. *)
Definition run (p : char -> bool) (n : nat) (c : str) : Prop :=
  length c = n /\ forallb p c = true.

(** One or more characters of a set. *)
Definition run1 (p : char -> bool) (c : str) : Prop :=
  c <> [] /\ forallb p c = true.

(** The character-level shape of a timestamp: [dddd-dd-dd dd:dd:dd]. *)
Definition ts_shape (ts : str) : Prop :=
  exists Y m d H M S,
    ts = Y ++ lit "-" ++ m ++ lit "-" ++ d ++ lit " "
         ++ H ++ lit ":" ++ M ++ lit ":" ++ S
    /\ run isdigit 4 Y /\ run isdigit 2 m /\ run isdigit 2 d
    /\ run isdigit 2 H /\ run isdigit 2 M /\ run isdigit 2 S.

Definition no_newline (msg : str) : Prop :=
  forallb (fun x => negb (x =? NL)%N) msg = true.

(** The text [LINE_RE] accepts, with the timestamp and the level in it. *)
Definition line_shape (s ts level : str) : Prop :=
  exists w1 w2 msg tail,
    s = ts ++ w1 ++ lit "[" ++ level ++ lit "]" ++ w2 ++ msg ++ tail
    /\ ts_shape ts /\ run1 isspace w1 /\ In level LEVELS
    /\ run1 isspace w2 /\ no_newline msg /\ (tail = [] \/ tail = [NL]).

(** The two equations between the counters. *)
Definition counts_ok (s : Summary) : Prop :=
  (lines_seen s = lines_matched s + lines_skipped s
   /\ lines_matched s = info s + warning s + error s)%Z.

(** No line matched and no bound, or some line matched and two ordered
    bounds. *)
Definition bounds_ok (s : Summary) : Prop :=
  (lines_matched s = 0%Z /\ earliest s = None /\ latest s = None)
  \/ ((0 < lines_matched s)%Z
      /\ exists e l, earliest s = Some e /\ latest s = Some l
                     /\ dt_leb e l = true).

(** [widens s s']: the bounds of [s'] include those of [s]. *)
Definition widens (s s' : Summary) : Prop :=
  (forall e, earliest s = Some e ->
             exists e', earliest s' = Some e' /\ dt_leb e' e = true)
  /\ (forall l, latest s = Some l ->
                exists l', latest s' = Some l' /\ dt_leb l l' = true).

(** What every step of a scan preserves. *)
Definition scan_inv (s : Summary) : Prop := counts_ok s /\ bounds_ok s.

(** A filesystem for the examples: a directory [logs] with two log files,
    an empty log file, a file that is not a log, a file named [.log] and a
    subdirectory whose name ends in [.log]. *)
Definition demo_fs : node :=
  Directory
    [ (lit "logs",
       Directory
         [ (lit "b.log",
            RegularFile
              (Some [ lit "2026-02-06 13:45:01 [INFO] Something happened"
                        ++ nl;
                      lit "not a record" ++ nl;
                      lit "2026-02-05 08:00:00 [WARNING] disk" ]));
           (lit ".log", RegularFile (Some [lit "x"]));
           (lit "a.log",
            RegularFile
              (Some [ lit "2026-02-07 23:59:59 [ERROR] failed" ++ nl ]));
           (lit "empty.log", RegularFile (Some []));
           (lit "notes.txt", RegularFile (Some [lit "hello"]));
           (lit "d.log", Directory []) ]);
      (lit "empty", Directory []);
      (lit "file", RegularFile (Some [])) ].

Definition demo_dir : Path := [lit "logs"].

(** What [iter_log_files] keeps. *)
Definition is_log_file (fs : node) (p : Path) : bool :=
  match stat fs p with Ok (Some (RegularFile _)) => true | _ => false end
  && str_eqb (suffix p) (lit ".log").

(** The paths [iterdir] yields for a directory with these entries. *)
Definition children (directory : Path) (entries : list (str * node))
  : list Path :=
  List.map (fun e => joinpath directory (fst e)) entries.

(** The scenario of a single record. *)
Definition single_line : str :=
  lit "2026-02-06 13:45:01 [INFO] Something happened".

Definition single_fs : node :=
  Directory
    [ (lit "var",
       Directory
         [ (lit "README", RegularFile (Some [lit "logs live here" ++ nl]));
           (lit "app.log", RegularFile (Some [single_line ++ nl])) ]) ].

(** The earlier and the later of two datetimes, computed with the
    comparisons [update_time_bounds] makes. *)
Definition dt_min (a b : datetime) : datetime := if dt_ltb a b then a else b.
Definition dt_max (a b : datetime) : datetime := if dt_gtb a b then a else b.

(** What a matched line and a skipped line do to the Summary. *)
Definition level_bumps (level : str) : Z * Z * Z :=
  if str_eqb level (lit "INFO") then (1, 0, 0)%Z
  else if str_eqb level (lit "WARNING") then (0, 1, 0)%Z
  else if str_eqb level (lit "ERROR") then (0, 0, 1)%Z
  else (0, 0, 0)%Z.

Definition after_match (ts : datetime) (level : str) (s : Summary) : Summary :=
  let '(i, w, e) := level_bumps level in
  mk_Summary (files_processed s) (lines_seen s + 1) (lines_matched s + 1)
    (lines_skipped s) (info s + i) (warning s + w) (error s + e)
    (match earliest s with
     | None => Some ts
     | Some x => Some (dt_min ts x)
     end)
    (match latest s with
     | None => Some ts
     | Some x => Some (dt_max ts x)
     end).

Definition after_skip (s : Summary) : Summary :=
  mk_Summary (files_processed s) (lines_seen s + 1) (lines_matched s)
    (lines_skipped s + 1) (info s) (warning s) (error s)
    (earliest s) (latest s).

(** [same_lines n n']: the filesystem [n'] is [n] with the lines of files
    put in another order. *)
Inductive same_lines : node -> node -> Prop :=
| sl_file lines lines' :
    Permutation lines lines' ->
    same_lines (RegularFile (Some lines)) (RegularFile (Some lines'))
| sl_unreadable : same_lines (RegularFile None) (RegularFile None)
| sl_dir entries entries' :
    Forall2 (fun e e' => fst e = fst e' /\ same_lines (snd e) (snd e'))
            entries entries' ->
    same_lines (Directory entries) (Directory entries')
| sl_special : same_lines Special Special
| sl_protected mode entries entries' :
    Forall2 (fun e e' => fst e = fst e' /\ same_lines (snd e) (snd e'))
            entries entries' ->
    same_lines (Protected mode entries) (Protected mode entries').

(** The same for what a path leads to in each. *)
Definition same_lines_opt (a b : result (option node)) : Prop :=
  match a, b with
  | Ok (Some x), Ok (Some y) => same_lines x y
  | Ok None, Ok None => True
  | Raise e, Raise e' => e = e'
  | _, _ => False
  end.

(** [demo_fs] with the lines of [b.log] in another order. *)
Definition demo_fs_shuffled : node :=
  Directory
    [ (lit "logs",
       Directory
         [ (lit "b.log",
            RegularFile
              (Some [ lit "2026-02-05 08:00:00 [WARNING] disk";
                      lit "2026-02-06 13:45:01 [INFO] Something happened"
                        ++ nl;
                      lit "not a record" ++ nl ]));
           (lit ".log", RegularFile (Some [lit "x"]));
           (lit "a.log",
            RegularFile
              (Some [ lit "2026-02-07 23:59:59 [ERROR] failed" ++ nl ]));
           (lit "empty.log", RegularFile (Some []));
           (lit "notes.txt", RegularFile (Some [lit "hello"]));
           (lit "d.log", Directory []) ]);
      (lit "empty", Directory []);
      (lit "file", RegularFile (Some [])) ].

(** [a <= b] on paths. *)
Definition path_le (a b : Path) : Prop := path_compare a b <> Gt.

(** The claim of the specification: every regular file that is a child of
    the directory and whose name ends in [.log] is listed, the file named
    [.log] included, and nothing else is. *)
Definition lists_names_ending_in_log (fs : node) (directory : Path)
           (entries : list (str * node)) (files : list Path) : Prop :=
  forall p,
    In p files <->
    exists nm, p = joinpath directory nm
               /\ In nm (List.map fst entries)
               /\ (exists content, stat fs p = Ok (Some (RegularFile content)))
               /\ endswith nm (lit ".log") = true.

(** The line of the scenario the specification describes: a valid
    timestamp, whitespace, a bracketed level, and nothing after it. *)
Definition bare_line : str := lit "2026-02-06 13:45:01 [INFO]".

(** One of the ten ASCII digits. *)
Definition ascii_digit (c : char) : Prop := In c (lit "0123456789").

(** The value of an ASCII digit, and of two and four of them. *)
Definition dval (c : char) : Z := Z.of_N c - 48.
Definition num2 (a b : char) : Z := 10 * dval a + dval b.
Definition num4 (a b c d : char) : Z :=
  1000 * dval a + 100 * dval b + 10 * dval c + dval d.

(** What has to follow a group for the shorter alternatives of the group
    to be of no use: something that no text starting with a digit
    matches. *)
Definition stops_at_digit {A : Type} (K : cont A) : Prop :=
  forall pos c s g, ascii_digit c -> K pos (c :: s) g = None.

(** A timestamp written with ASCII digits. *)
Definition ts_text (y1 y2 y3 y4 m1 m2 d1 d2 h1 h2 i1 i2 s1 s2 : char) : str :=
  [ y1; y2; y3; y4; 45; m1; m2; 45; d1; d2; 32;
    h1; h2; 58; i1; i2; 58; s1; s2 ]%N.

(** The text of a datetime with the year on four digits (what
    [isoformat] with a space as separator writes for it). *)
Definition padded_ts (t : datetime) : str :=
  zfill 4 (year t) ++ lit "-" ++ zfill 2 (month t) ++ lit "-"
  ++ zfill 2 (day t) ++ lit " " ++ zfill 2 (hour t) ++ lit ":"
  ++ zfill 2 (minute t) ++ lit ":" ++ zfill 2 (second t).

(** Checks, by computation, that [zfill] writes a number below 100 (below
    10000) as two (four) ASCII digits with that value. *)
Definition is_ascii_digit (c : char) : bool :=
  existsb (N.eqb c) (lit "0123456789").

(** The integers [start], [start + 1], ... ([n] of them). *)
Fixpoint zrange (n : nat) (start : Z) : list Z :=
  match n with
  | O => []
  | S n' => start :: zrange n' (start + 1)
  end.

Definition zfill2_ok (k : Z) : bool :=
  match zfill 2 k with
  | [a; b] => is_ascii_digit a && is_ascii_digit b && (num2 a b =? k)%Z
  | _ => false
  end.

Definition zfill4_ok (k : Z) : bool :=
  match zfill 4 k with
  | [a; b; c; d] =>
      is_ascii_digit a && is_ascii_digit b && is_ascii_digit c
      && is_ascii_digit d && (num4 a b c d =? k)%Z
  | _ => false
  end.

(** The lines of the file a path leads to. *)
Definition lines_of (fs : node) (p : Path) : list str :=
  match stat fs p with
  | Ok (Some (RegularFile (Some lines))) => lines
  | _ => []
  end.

(** The lines of several files, one file after the other. *)
Definition all_lines (fs : node) (files : list Path) : list str :=
  flat_map (lines_of fs) files.

(** The path leads to a regular file that can be opened. *)
Definition readable (fs : node) (p : Path) : Prop :=
  exists lines, stat fs p = Ok (Some (RegularFile (Some lines))).

(** How [parse_line] sorts a line. *)
Definition is_matched (line : str) : bool :=
  match parse_line line with Ok (Some _) => true | _ => false end.
Definition is_skipped (line : str) : bool :=
  match parse_line line with Ok None => true | _ => false end.
Definition has_level (level : str) (line : str) : bool :=
  match parse_line line with
  | Ok (Some (_, l)) => str_eqb l level
  | _ => false
  end.

(** The number of elements of a list that pass a test. *)
Definition count {A : Type} (f : A -> bool) (l : list A) : Z :=
  Z.of_nat (length (filter f l)).

(** The timestamps of the lines that [parse_line] matches. *)
Definition timestamps (lines : list str) : list datetime :=
  flat_map (fun line => match parse_line line with
                        | Ok (Some (ts, _)) => [ts]
                        | _ => []
                        end) lines.

(** [demo_fs] with the entries of [logs] listed in the opposite order. *)
Definition demo_fs_relisted : node :=
  match demo_fs with
  | Directory ((name, Directory entries) :: others) =>
      Directory ((name, Directory (rev entries)) :: others)
  | n => n
  end.

(** The lines of the log files of [demo_fs], spread over three other
    files in another order. *)
Definition demo_fs_regrouped : node :=
  Directory
    [ (lit "logs",
       Directory
         [ (lit "x.log",
            RegularFile
              (Some [ lit "2026-02-05 08:00:00 [WARNING] disk";
                      lit "not a record" ++ nl ]));
           (lit "y.log",
            RegularFile
              (Some [ lit "2026-02-06 13:45:01 [INFO] Something happened"
                        ++ nl ]));
           (lit "z.log",
            RegularFile
              (Some [ lit "2026-02-07 23:59:59 [ERROR] failed" ++ nl ])) ]) ].

(** A filesystem with what ends a scan: a log file with a record dated
    30 February, and a log file that cannot be opened. *)
Definition faulty_fs : node :=
  Directory
    [ (lit "logs",
       Directory
         [ (lit "a.log",
            RegularFile
              (Some [ lit "2026-02-06 13:45:01 [INFO] fine" ++ nl;
                      lit "2026-02-30 10:00:00 [ERROR] x" ++ nl ])) ]);
      (lit "locked",
       Directory [ (lit "a.log", RegularFile None) ]) ].

(** A filesystem with directories that lack a permission: [vault] may
    be neither listed nor searched, [inbox] may be listed but not
    searched, [outbox] may be searched but not listed. *)
Definition guarded_fs : node :=
  Directory
    [ (lit "vault",
       Protected NoAccess
         [ (lit "logs",
            Directory
              [ (lit "a.log",
                 RegularFile
                   (Some [ lit "2026-02-06 13:45:01 [INFO] x" ++ nl ])) ]) ]);
      (lit "inbox",
       Protected ListOnly
         [ (lit "a.log",
            RegularFile
              (Some [ lit "2026-02-06 13:45:01 [INFO] x" ++ nl ])) ]);
      (lit "outbox",
       Protected SearchOnly
         [ (lit "a.log",
            RegularFile
              (Some [ lit "2026-02-06 13:45:01 [INFO] x" ++ nl ])) ]);
      (lit "void", Protected ListOnly []) ].

(** A filesystem whose log file holds a record of the year 999 and a
    record of the year 2026. *)
Definition early_fs : node :=
  Directory
    [ (lit "logs",
       Directory
         [ (lit "a.log",
            RegularFile
              (Some [ lit "0999-12-31 23:59:59 [INFO] old" ++ nl;
                      lit "2026-02-06 13:45:01 [INFO] new" ++ nl ])) ]) ].

(** An encoding of the standard output that encodes a text exactly when
    it encodes each of its characters, and that encodes the ASCII
    characters: UTF-8, Latin-1, ASCII itself. *)
Definition charwise (encodes : str -> bool) : Prop :=
  encodes [] = true
  /\ (forall a b, encodes (a ++ b) = encodes a && encodes b)
  /\ (forall c : char, (c < 128)%N -> encodes [c] = true).

(** What UTF-8 with the handler [strict] encodes: the texts without a
    surrogate. *)
Definition utf8_strict (text : str) : bool :=
  forallb (fun c => negb ((0xD800 <=? c) && (c <=? 0xDFFF))%N) text.

(** A text of ASCII characters. *)
Definition is_ascii (text : str) : bool :=
  forallb (fun c => (c <? 128)%N) text.

(** The number of newline characters of a text. *)
Definition newlines (text : str) : Z :=
  count (fun c : char => (c =? NL)%N) text.

(** A truth value as a number. *)
Definition b2z (b : bool) : Z := if b then 1%Z else 0%Z.

(** [e] is the earliest (latest) datetime of a list. *)
Definition is_min (e : datetime) (l : list datetime) : Prop :=
  In e l /\ forall t, In t l -> dt_leb e t = true.
Definition is_max (e : datetime) (l : list datetime) : Prop :=
  In e l /\ forall t, In t l -> dt_leb t e = true.

(** The extreme of a list, if the list has an element. *)
Definition extreme_is (P : datetime -> list datetime -> Prop)
           (o : option datetime) (l : list datetime) : Prop :=
  match l with
  | [] => o = None
  | _ :: _ => exists e, o = Some e /\ P e l
  end.

(** An optional datetime as a list. *)
Definition opt_list (o : option datetime) : list datetime :=
  match o with Some x => [x] | None => [] end.

(** The directory can be enumerated: it can be listed, with these
    entries, and [stat] answers on each of them. *)
Definition listed (fs : node) (directory : Path)
           (entries : list (str * node)) : Prop :=
  exists n,
    stat fs directory = Ok (Some n) /\ listing n = Some entries
    /\ forall p, In p (children directory entries) ->
                 exists x, stat fs p = Ok x.

(** The filesystem operations of a scan that goes through: the two
    checks, the listing, one test per entry, one opening per log file. *)
Definition scan_trace (directory : Path) (entries : list (str * node))
           (files : list Path) : list event :=
  [ev_exists directory; ev_is_dir directory; ev_iterdir directory]
  ++ List.map ev_is_file (children directory entries)
  ++ List.map ev_open files.

(** The last three lines of a report. *)
Definition report_tail (earliest latest : str) : str :=
  lit "Earliest timestamp: " ++ earliest ++ nl
  ++ lit "Latest timestamp:   " ++ latest ++ nl
  ++ lit "=====================================================" ++ nl.

(* ================================================================= *)
(** * Properties *)

(** ** Lists and text *)

Lemma str_eqb_eq (a b : str) : str_eqb a b = true <-> a = b.
Proof.
  revert b. induction a as [|x a IH]; intros [|y b]; simpl;
    try (split; [discriminate | discriminate]); [tauto|].
  rewrite andb_true_iff, N.eqb_eq, IH. split.
  - now intros [-> ->].
  - now intros [= -> ->].
Qed.

Lemma str_eqb_refl (a : str) : str_eqb a a = true.
Proof. now apply str_eqb_eq. Qed.

Lemma str_eqb_neq (a b : str) : str_eqb a b = false <-> a <> b.
Proof.
  rewrite <- str_eqb_eq. destruct (str_eqb a b); split; congruence.
Qed.

Lemma span_firstn (p : char -> bool) (s : str) (m : nat) :
  m <= span p s -> forallb p (firstn m s) = true /\ length (firstn m s) = m.
Proof.
  revert m. induction s as [|c s IH]; intros m Hm; simpl in *.
  - assert (m = 0) by lia. subst. now simpl.
  - destruct m as [|m]; [now simpl|]. destruct (p c) eqn:Hc; [|lia].
    simpl. rewrite Hc. destruct (IH m) as [H1 H2]; [lia|].
    rewrite H1, H2. now split.
Qed.

Lemma span_app_ge (p : char -> bool) (c s : str) :
  forallb p c = true -> length c <= span p (c ++ s).
Proof.
  induction c as [|x c IH]; simpl; intros H; [lia|].
  apply andb_true_iff in H as [Hx Hc]. rewrite Hx. specialize (IH Hc). lia.
Qed.

Lemma skipn_app_length (A : Type) (c s : list A) : skipn (length c) (c ++ s) = s.
Proof. induction c; simpl; auto. Qed.

Lemma firstn_app_length (A : Type) (c s : list A) : firstn (length c) (c ++ s) = c.
Proof. induction c; simpl; congruence. Qed.

(** ** The matcher against a declarative reading of the patterns *)

Lemma matches_consumes r pos s g pos' s' g' :
  matches r pos s g pos' s' g' ->
  exists c, s = c ++ s' /\ pos' = pos + length c.
Proof.
  induction 1.
  - now exists [].
  - exists []. simpl. split; [reflexivity | lia].
  - now exists l.
  - now exists c.
  - destruct IHmatches1 as (c1 & -> & ->), IHmatches2 as (c2 & -> & ->).
    exists (c1 ++ c2). rewrite length_app, app_assoc. split; [reflexivity | lia].
  - assumption.
  - assumption.
  - assumption.
Qed.

Section MatcherFacts.
Variable A : Type.

Lemma backtrack_sound lo extra (f : nat -> option A) a :
  backtrack lo extra f = Some a ->
  exists m, lo <= m <= lo + extra /\ f m = Some a.
Proof.
  induction extra as [|e IH]; simpl.
  - destruct (f (lo + 0)) eqn:E; [|discriminate].
    intros [= ->]. exists (lo + 0). split; [lia | assumption].
  - destruct (f (lo + S e)) eqn:E.
    + intros [= ->]. exists (lo + S e). split; [lia | assumption].
    + intros H. destruct (IH H) as (m & Hm & Hf). exists m. split; [lia | assumption].
Qed.

Lemma backtrack_complete lo extra (f : nat -> option A) m :
  lo <= m <= lo + extra -> f m <> None -> backtrack lo extra f <> None.
Proof.
  induction extra as [|e IH]; simpl; intros Hm Hf.
  - replace (lo + 0) with m by lia. destruct (f m); congruence.
  - destruct (f (lo + S e)) eqn:E; [discriminate|].
    apply IH; [|assumption].
    assert (m <> lo + S e) by (intros ->; congruence). lia.
Qed.

(** Whatever the matcher finds is a match of the declarative reading. *)
Lemma match_re_sound r : forall pos s g (k : cont A) a,
  match_re r pos s g k = Some a ->
  exists pos' s' g', matches r pos s g pos' s' g' /\ k pos' s' g' = Some a.
Proof.
  induction r as [| | l | cs lo hi | r1 IH1 r2 IH2 | r1 IH1 r2 IH2 | nm r IH];
    intros pos s g k a; simpl.
  - destruct pos; simpl; [|discriminate]. intros H.
    exists 0, s, g. split; [constructor | assumption].
  - destruct s as [|c [|c' s]]; try discriminate.
    + intros H. exists pos, [], g. split; [constructor; now left | assumption].
    + destruct (N.eqb_spec c NL); [|discriminate]. subst c. intros H.
      exists pos, [NL], g. split; [constructor; now right | assumption].
  - destruct (str_eqb (firstn (length l) s) l) eqn:E; [|discriminate].
    apply str_eqb_eq in E. intros H.
    exists (pos + length l), (skipn (length l) s), g. split; [|assumption].
    rewrite <- (firstn_skipn (length l) s) at 1. rewrite E. constructor.
  - set (n := match hi with Some h => Nat.min h _ | None => _ end).
    destruct (Nat.ltb_spec n lo) as [|Hlo]; [discriminate|].
    intros H. apply backtrack_sound in H as (m & Hm & Hk).
    assert (Hspan : m <= span (in_cset cs) s) by (destruct hi; subst n; lia).
    destruct (span_firstn _ _ Hspan) as [Hall Hlen].
    exists (pos + m), (skipn m s), g. split; [|assumption].
    rewrite <- (firstn_skipn m s) at 1. rewrite <- Hlen at 3.
    constructor; [assumption | lia |]. destruct hi; [subst n; lia | exact I].
  - intros H. apply IH1 in H as (pos1 & s1 & g1 & H1 & H).
    apply IH2 in H as (pos2 & s2 & g2 & H2 & H).
    exists pos2, s2, g2. split; [econstructor; eassumption | assumption].
  - destruct (match_re r1 pos s g k) eqn:E.
    + intros [= ->]. apply IH1 in E as (pos1 & s1 & g1 & H1 & H).
      exists pos1, s1, g1. split; [now apply m_alt_l | assumption].
    + intros H. apply IH2 in H as (pos1 & s1 & g1 & H1 & H).
      exists pos1, s1, g1. split; [now apply m_alt_r | assumption].
  - intros H. apply IH in H as (pos1 & s1 & g1 & H1 & H).
    eexists _, _, _. split; [apply m_group; eassumption | exact H].
Qed.

(** Any match of the declarative reading that the continuation accepts
    makes the matcher succeed. *)
Lemma match_re_complete r pos s g pos' s' g' :
  matches r pos s g pos' s' g' ->
  forall k : cont A, k pos' s' g' <> None -> match_re r pos s g k <> None.
Proof.
  induction 1; intros k Hk; simpl.
  - assumption.
  - destruct H as [-> | ->]; [assumption|]. now rewrite N.eqb_refl.
  - rewrite firstn_app_length, str_eqb_refl, skipn_app_length. assumption.
  - set (n := match hi with Some h => Nat.min h _ | None => _ end).
    pose proof (span_app_ge (in_cset cs) c s H) as Hspan.
    assert (Hn : length c <= n) by (destruct hi; subst n; lia).
    destruct (Nat.ltb_spec n lo); [lia|].
    apply backtrack_complete with (m := length c); [lia|].
    now rewrite skipn_app_length.
  - apply IHmatches1. now apply IHmatches2.
  - specialize (IHmatches k Hk). destruct (match_re r1 pos s g k); congruence.
  - destruct (match_re r1 pos s g k); [discriminate|]. now apply IHmatches.
  - now apply IHmatches.
Qed.
End MatcherFacts.

Lemma re_match_sound r s e g :
  re_match r s = Some (e, g) -> exists s', matches r 0 s [] e s' g.
Proof.
  unfold re_match. intros H.
  apply match_re_sound in H as (pos' & s' & g' & Hm & [= -> ->]).
  now exists s'.
Qed.

Lemma re_match_complete r s e s' g :
  matches r 0 s [] e s' g -> re_match r s <> None.
Proof.
  intros H. unfold re_match.
  now apply (match_re_complete H).
Qed.

(** Inversion of [matches], one lemma per pattern constructor. *)
Lemma matches_bol_inv pos s g pos' s' g' :
  matches r_bol pos s g pos' s' g' -> pos = 0 /\ pos' = 0 /\ s' = s /\ g' = g.
Proof. inversion 1; subst; auto. Qed.

Lemma matches_eol_inv pos s g pos' s' g' :
  matches r_eol pos s g pos' s' g' ->
  (s = [] \/ s = [NL]) /\ pos' = pos /\ s' = s /\ g' = g.
Proof. inversion 1; subst; auto. Qed.

Lemma matches_lit_inv l pos s g pos' s' g' :
  matches (r_lit l) pos s g pos' s' g' ->
  s = l ++ s' /\ pos' = pos + length l /\ g' = g.
Proof. inversion 1; subst; auto. Qed.

Lemma matches_repeat_inv cs lo hi pos s g pos' s' g' :
  matches (r_repeat cs lo hi) pos s g pos' s' g' ->
  exists c, s = c ++ s' /\ pos' = pos + length c /\ g' = g
            /\ forallb (in_cset cs) c = true /\ lo <= length c
            /\ match hi with Some h => length c <= h | None => True end.
Proof. inversion 1; subst. exists c. auto 10. Qed.

Lemma matches_cat_inv r1 r2 pos s g pos' s' g' :
  matches (r_cat r1 r2) pos s g pos' s' g' ->
  exists pos1 s1 g1,
    matches r1 pos s g pos1 s1 g1 /\ matches r2 pos1 s1 g1 pos' s' g'.
Proof. inversion 1; subst. eauto. Qed.

Lemma matches_alt_inv r1 r2 pos s g pos' s' g' :
  matches (r_alt r1 r2) pos s g pos' s' g' ->
  matches r1 pos s g pos' s' g' \/ matches r2 pos s g pos' s' g'.
Proof. inversion 1; subst; auto. Qed.

Lemma matches_group_inv nm r pos s g pos' s' g' :
  matches (r_group nm r) pos s g pos' s' g' ->
  exists c g1, s = c ++ s' /\ pos' = pos + length c
               /\ matches r pos (c ++ s') g pos' s' g1
               /\ g' = (nm, c) :: g1.
Proof.
  inversion 1; subst.
  match goal with Hm : matches r _ _ _ _ _ _ |- _ =>
    destruct (matches_consumes Hm) as (c & -> & ->) end.
  exists c, g1. repeat split; try assumption.
  replace (pos + length c - pos) with (length c) by lia.
  now rewrite firstn_app_length.
Qed.

Lemma matches_group_intro nm r pos c s g pos' g1 :
  matches r pos (c ++ s) g pos' s g1 ->
  matches (r_group nm r) pos (c ++ s) g pos' s ((nm, c) :: g1).
Proof.
  intros H. pose proof (m_group nm H) as H'.
  destruct (matches_consumes H) as (c' & E & ->).
  apply app_inv_tail in E. subst c'.
  replace (pos + length c - pos) with (length c) in H' by lia.
  now rewrite firstn_app_length in H'.
Qed.

Lemma matches_digits_inv n pos s g pos' s' g' :
  matches (digits n) pos s g pos' s' g' ->
  exists c, s = c ++ s' /\ pos' = pos + n /\ g' = g /\ run isdigit n c.
Proof.
  intros H. apply matches_repeat_inv in H as (c & -> & -> & -> & Hc & Hlo & Hhi).
  exists c. unfold run. repeat split; auto; lia.
Qed.

Lemma matches_digits_intro n c pos s g :
  run isdigit n c -> matches (digits n) pos (c ++ s) g (pos + n) s g.
Proof.
  intros [<- Hc]. apply m_repeat; auto.
Qed.

Lemma matches_spaces_inv pos s g pos' s' g' :
  matches spaces pos s g pos' s' g' ->
  exists c, s = c ++ s' /\ pos' = pos + length c /\ g' = g /\ run1 isspace c.
Proof.
  intros H. apply matches_repeat_inv in H as (c & -> & -> & -> & Hc & Hlo & _).
  exists c. unfold run1. repeat split; auto. destruct c; simpl in *; [lia | discriminate].
Qed.

Lemma matches_spaces_intro c pos s g :
  run1 isspace c -> matches spaces pos (c ++ s) g (pos + length c) s g.
Proof.
  intros [Hne Hc]. apply m_repeat; auto. destruct c; simpl; [congruence | lia].
Qed.

Lemma matches_anything_inv pos s g pos' s' g' :
  matches anything pos s g pos' s' g' ->
  exists c, s = c ++ s' /\ pos' = pos + length c /\ g' = g
            /\ forallb (fun x => negb (x =? NL)%N) c = true.
Proof.
  intros H. apply matches_repeat_inv in H as (c & -> & -> & -> & Hc & _ & _).
  exists c. auto.
Qed.

Lemma matches_anything_intro c pos s g :
  forallb (fun x => negb (x =? NL)%N) c = true ->
  matches anything pos (c ++ s) g (pos + length c) s g.
Proof. intros Hc. apply m_repeat; simpl; auto. lia. Qed.

Ltac inv_matches :=
  repeat match goal with
  | H : matches (r_cat _ _) _ _ _ _ _ _ |- _ =>
      let H1 := fresh "Hm" in
      apply matches_cat_inv in H as (? & ? & ? & H1 & H)
  | H : matches r_bol _ _ _ _ _ _ |- _ =>
      apply matches_bol_inv in H as (? & ? & ? & ?); subst
  | H : matches r_eol _ _ _ _ _ _ |- _ =>
      apply matches_eol_inv in H as (? & ? & ? & ?); subst
  | H : matches (txt _) _ _ _ _ _ _ |- _ =>
      apply matches_lit_inv in H as (? & ? & ?); subst
  | H : matches (r_lit _) _ _ _ _ _ _ |- _ =>
      apply matches_lit_inv in H as (? & ? & ?); subst
  | H : matches (digits _) _ _ _ _ _ _ |- _ =>
      apply matches_digits_inv in H as (? & ? & ? & ? & ?); subst
  | H : matches spaces _ _ _ _ _ _ |- _ =>
      apply matches_spaces_inv in H as (? & ? & ? & ? & ?); subst
  | H : matches anything _ _ _ _ _ _ |- _ =>
      apply matches_anything_inv in H as (? & ? & ? & ? & ?); subst
  | H : matches (r_group _ _) _ _ _ _ _ _ |- _ =>
      apply matches_group_inv in H as (? & ? & ? & ? & H & ?); subst
  | H : matches (r_alt _ _) _ _ _ _ _ _ |- _ =>
      apply matches_alt_inv in H as [H | H]
  end.

Lemma LINE_RE_matches_inv s e s' g :
  matches LINE_RE 0 s [] e s' g ->
  exists ts level,
    line_shape s ts level
    /\ group g "ts" = Some ts /\ group g "level" = Some level.
Proof.
  intros H. cbv [LINE_RE seq alts] in H.
  inv_matches.
  all: repeat match goal with
       | E : ?a ++ ?t = ?b ++ ?t |- _ => apply app_inv_tail in E; subst
       | E : ?c ++ ?t = ?Y ++ ?b1 ++ ?m ++ ?b2 ++ ?d ++ ?b3 ++ ?H ++ ?b4
                        ++ ?M ++ ?b5 ++ ?S ++ ?t |- _ =>
           assert (c = Y ++ b1 ++ m ++ b2 ++ d ++ b3 ++ H ++ b4 ++ M ++ b5 ++ S)
             by (apply (app_inv_tail t); rewrite E; now rewrite <- !app_assoc);
           clear E; subst c
       end.
  all: eexists _, _; split; [|split; reflexivity].
  all: eexists _, _, _, _; split; [reflexivity|].
  all: split;
    [eexists _, _, _, _, _, _; split; [reflexivity | auto 10]|].
  all: split; [assumption|].
  all: split; [unfold LEVELS; simpl; auto|].
  all: auto.
Qed.

Ltac build_matches :=
  unfold txt;
  repeat first
    [ apply m_bol
    | apply m_lit
    | apply matches_digits_intro; assumption
    | apply matches_spaces_intro; assumption
    | apply matches_anything_intro; assumption
    | apply m_eol; assumption
    | eapply m_cat ].

Lemma LINE_RE_matches_intro s ts level :
  line_shape s ts level -> exists e s' g, matches LINE_RE 0 s [] e s' g.
Proof.
  intros (w1 & w2 & msg & tail & -> & Hts & Hw1 & Hlevel & Hw2 & Hmsg & Htail).
  destruct Hts as (Y & m & d & H & M & S & -> & HY & Hm & Hd & HH & HM & HS).
  cbv [LINE_RE seq alts].
  destruct Hlevel as [<- | [<- | [<- | []]]].
  all: eexists _, _, _.
  all: eapply m_cat; [apply m_bol|].
  all: eapply m_cat;
    [apply matches_group_intro; rewrite <- !app_assoc; build_matches|].
  all: eapply m_cat; [apply matches_spaces_intro; assumption|].
  all: eapply m_cat; [apply m_lit|].
  all: eapply m_cat;
    [apply matches_group_intro;
     first [ apply m_alt_l; apply m_lit
           | apply m_alt_r, m_alt_l; apply m_lit
           | apply m_alt_r, m_alt_r; apply m_lit ]|].
  all: eapply m_cat; [apply m_lit|].
  all: eapply m_cat; [apply matches_spaces_intro; assumption|].
  all: eapply m_cat;
    [apply matches_group_intro; apply matches_anything_intro; assumption|].
  all: apply m_eol; assumption.
Qed.

Lemma run_length p n c : run p n c -> length c = n.
Proof. now intros [? _]. Qed.

Lemma ts_shape_length ts : ts_shape ts -> length ts = 19.
Proof.
  intros (Y & m & d & H & M & S & -> & HY & Hm & Hd & HH & HM & HS).
  rewrite !length_app.
  rewrite (run_length HY), (run_length Hm), (run_length Hd),
    (run_length HH), (run_length HM), (run_length HS).
  reflexivity.
Qed.

Lemma app_eq_length (A : Type) (a a' b b' : list A) :
  length a = length a' -> a ++ b = a' ++ b' -> a = a' /\ b = b'.
Proof.
  revert a'. induction a as [|x a IH]; intros [|x' a'] Hl E;
    simpl in *; try discriminate.
  - auto.
  - injection E as -> E. destruct (IH a') as [-> ->]; auto.
Qed.

Lemma prefix_run_unique (p : char -> bool) (w w' : str) x x' r r' :
  forallb p w = true -> forallb p w' = true -> p x = false -> p x' = false ->
  w ++ x :: r = w' ++ x' :: r' -> w = w' /\ x :: r = x' :: r'.
Proof.
  revert w'. induction w as [|c w IH]; intros [|c' w'] Hw Hw' Hx Hx' E;
    simpl in *.
  - auto.
  - injection E as -> _. apply andb_true_iff in Hw' as [Hc _]. congruence.
  - injection E as -> _. apply andb_true_iff in Hw as [Hc _]. congruence.
  - injection E as -> E.
    apply andb_true_iff in Hw as [_ Hw]. apply andb_true_iff in Hw' as [_ Hw'].
    destruct (IH w' Hw Hw' Hx Hx' E) as [-> ?]. auto.
Qed.

(** A line has at most one reading: its timestamp and level are determined. *)
Lemma line_shape_unique s ts level ts' level' :
  line_shape s ts level -> line_shape s ts' level' ->
  ts = ts' /\ level = level'.
Proof.
  intros (w1 & w2 & msg & tail & -> & Hts & [_ Hw1] & Hlevel & _)
         (w1' & w2' & msg' & tail' & E & Hts' & [_ Hw1'] & Hlevel' & _).
  apply app_eq_length in E as [-> E];
    [|now rewrite (ts_shape_length Hts), (ts_shape_length Hts')].
  split; [reflexivity|].
  apply (prefix_run_unique isspace) in E as [_ E]; try assumption;
    try reflexivity.
  unfold LEVELS in *. simpl in Hlevel, Hlevel'.
  destruct Hlevel as [<- | [<- | [<- | []]]];
    destruct Hlevel' as [<- | [<- | [<- | []]]];
    try reflexivity; discriminate E.
Qed.

(** [LINE_RE.match] succeeds exactly on the lines of the shape, and its
    groups are the timestamp and the level of the line. *)
Lemma LINE_RE_spec s ts level :
  line_shape s ts level <->
  exists e g, re_match LINE_RE s = Some (e, g)
              /\ group g "ts" = Some ts /\ group g "level" = Some level.
Proof.
  split.
  - intros Hs. destruct (LINE_RE_matches_intro Hs) as (e & s' & g & Hm).
    apply re_match_complete in Hm.
    destruct (re_match LINE_RE s) as [[e' g']|] eqn:E; [|congruence].
    exists e', g'. split; [reflexivity|].
    apply re_match_sound in E as (s'' & E).
    apply LINE_RE_matches_inv in E as (ts' & level' & Hs' & Hg1 & Hg2).
    destruct (line_shape_unique Hs Hs') as [-> ->]. auto.
  - intros (e & g & E & Hg1 & Hg2).
    apply re_match_sound in E as (s' & E).
    apply LINE_RE_matches_inv in E as (ts' & level' & Hs' & Hg1' & Hg2').
    congruence.
Qed.

Lemma LINE_RE_groups s e g :
  re_match LINE_RE s = Some (e, g) ->
  exists ts level, line_shape s ts level
                   /\ group g "ts" = Some ts /\ group g "level" = Some level.
Proof.
  intros E. apply re_match_sound in E as (s' & E).
  now apply LINE_RE_matches_inv in E.
Qed.

(** ** parse_line *)

Lemma int_raises s e : int s = Raise e -> e = ValueError.
Proof.
  unfold int. destruct (strip s); [now intros [= <-]|].
  destruct (int_digits _ _); [discriminate | now intros [= <-]].
Qed.

Lemma int_group_raises g nm d e : int_group g nm d = Raise e -> e = ValueError.
Proof.
  unfold int_group. destruct (group g nm); [apply int_raises | discriminate].
Qed.

(** [strptime] fails with [ValueError] only. *)
Lemma strptime_raises s f e : strptime s f = Raise e -> e = ValueError.
Proof.
  unfold strptime.
  destruct (pattern f); [|now intros [= <-]].
  destruct (re_match _ s) as [[found_end g]|]; [|now intros [= <-]].
  destruct (negb _); [now intros [= <-]|].
  unfold rbind.
  repeat match goal with
         | |- context [int_group ?g ?nm ?d] =>
             let E := fresh "E" in
             destruct (int_group g nm d) eqn:E;
             [|apply int_group_raises in E; congruence]
         end.
  destruct (_ && _); [discriminate | now intros [= <-]].
Qed.

(** [parse_line] returns a pair exactly for the lines of the shape whose
    timestamp text [strptime] accepts. *)
Lemma parse_line_match line ts level :
  parse_line line = Ok (Some (ts, level)) <->
  exists ts_text, line_shape (rstrip_nl line) ts_text level
                  /\ strptime ts_text TS_FORMAT = Ok ts.
Proof.
  unfold parse_line. split.
  - destruct (re_match LINE_RE (rstrip_nl line)) as [[e g]|] eqn:E;
      [|discriminate].
    apply LINE_RE_groups in E as (ts_text & level' & Hs & -> & ->).
    unfold rbind. destruct (strptime ts_text TS_FORMAT) eqn:Et; [|discriminate].
    intros [= -> ->]. eauto.
  - intros (ts_text & Hs & Et).
    apply LINE_RE_spec in Hs as (e & g & -> & -> & ->).
    now rewrite Et.
Qed.

(** It returns [None] exactly for the lines that do not have the shape. *)
Lemma parse_line_no_match line :
  parse_line line = Ok None <->
  ~ exists ts_text level, line_shape (rstrip_nl line) ts_text level.
Proof.
  unfold parse_line. split.
  - destruct (re_match LINE_RE (rstrip_nl line)) as [[e g]|] eqn:E.
    + apply LINE_RE_groups in E as (ts_text & level' & Hs & -> & ->).
      unfold rbind. destruct (strptime ts_text TS_FORMAT); discriminate.
    + intros _ (ts_text & level & Hs).
      apply LINE_RE_spec in Hs as (e & g & E' & _). congruence.
  - intros Hn.
    destruct (re_match LINE_RE (rstrip_nl line)) as [[e g]|] eqn:E;
      [|reflexivity].
    apply LINE_RE_groups in E as (ts_text & level' & Hs & _). exfalso. eauto.
Qed.

(** It raises exactly for the lines of the shape whose timestamp text
    [strptime] refuses, and what it raises is the [ValueError] of
    [strptime]. *)
Lemma parse_line_raises line e :
  parse_line line = Raise e <->
  e = ValueError
  /\ exists ts_text level, line_shape (rstrip_nl line) ts_text level
                           /\ strptime ts_text TS_FORMAT = Raise ValueError.
Proof.
  unfold parse_line. split.
  - destruct (re_match LINE_RE (rstrip_nl line)) as [[e' g]|] eqn:E;
      [|discriminate].
    apply LINE_RE_groups in E as (ts_text & level' & Hs & -> & ->).
    unfold rbind. destruct (strptime ts_text TS_FORMAT) eqn:Et; [discriminate|].
    intros [= ->]. pose proof (strptime_raises _ _ Et) as ->. eauto.
  - intros (-> & ts_text & level & Hs & Et).
    apply LINE_RE_spec in Hs as (e' & g & -> & -> & ->).
    now rewrite Et.
Qed.

(** The level of a parsed line is one of [LEVELS]. *)
Lemma parse_line_level line ts level :
  parse_line line = Ok (Some (ts, level)) -> In level LEVELS.
Proof.
  intros H. apply parse_line_match in H as (ts_text & Hs & _).
  destruct Hs as (w1 & w2 & msg & tail & _ & _ & _ & Hl & _). exact Hl.
Qed.

(** ** Lexicographic comparison is a total order when the comparison of
    the elements is *)

Section LexFacts.
Variable T : Type.
Variable cmp : T -> T -> comparison.
Hypothesis cmp_eq : forall x y, cmp x y = Eq <-> x = y.
Hypothesis cmp_antisym : forall x y, cmp y x = CompOpp (cmp x y).
Hypothesis cmp_trans :
  forall x y z, cmp x y = Lt -> cmp y z = Lt -> cmp x z = Lt.

Lemma lex_compare_eq a b : lex_compare cmp a b = Eq <-> a = b.
Proof.
  revert b. induction a as [|x a IH]; intros [|y b]; simpl;
    try (split; [discriminate | discriminate]); [tauto|].
  destruct (cmp x y) eqn:E.
  - apply cmp_eq in E. subst y. rewrite IH. split; congruence.
  - split; [discriminate|]. intros [= -> ->].
    assert (cmp y y = Eq) by now apply cmp_eq. congruence.
  - split; [discriminate|]. intros [= -> ->].
    assert (cmp y y = Eq) by now apply cmp_eq. congruence.
Qed.

Lemma lex_compare_antisym a b :
  lex_compare cmp b a = CompOpp (lex_compare cmp a b).
Proof.
  revert b. induction a as [|x a IH]; intros [|y b]; simpl; try reflexivity.
  rewrite (cmp_antisym x y). destruct (cmp x y); simpl; auto.
Qed.

Lemma lex_compare_trans a b c :
  lex_compare cmp a b = Lt -> lex_compare cmp b c = Lt ->
  lex_compare cmp a c = Lt.
Proof.
  revert b c. induction a as [|x a IH]; intros [|y b] [|z c]; simpl;
    try discriminate; try reflexivity.
  destruct (cmp x y) eqn:Exy; try discriminate.
  - apply cmp_eq in Exy. subst y.
    destruct (cmp x z); try discriminate; eauto.
  - destruct (cmp y z) eqn:Eyz; try discriminate.
    + apply cmp_eq in Eyz. subst z. now rewrite Exy.
    + now rewrite (cmp_trans Exy Eyz).
Qed.
End LexFacts.

Lemma Z_compare_trans x y z :
  (x ?= y)%Z = Lt -> (y ?= z)%Z = Lt -> (x ?= z)%Z = Lt.
Proof. rewrite !Z.compare_lt_iff. lia. Qed.

Lemma N_compare_trans x y z :
  (x ?= y)%N = Lt -> (y ?= z)%N = Lt -> (x ?= z)%N = Lt.
Proof. rewrite !N.compare_lt_iff. lia. Qed.

(** *** The order on datetimes *)

Lemma dt_fields_inj a b : dt_fields a = dt_fields b -> a = b.
Proof. destruct a, b. unfold dt_fields. simpl. now intros [= -> -> -> -> -> ->]. Qed.

Lemma dt_compare_eq a b : dt_compare a b = Eq <-> a = b.
Proof.
  unfold dt_compare. rewrite (lex_compare_eq _ Z.compare_eq_iff).
  split; [apply dt_fields_inj | now intros ->].
Qed.

Lemma dt_compare_antisym a b : dt_compare b a = CompOpp (dt_compare a b).
Proof.
  apply lex_compare_antisym. intros x y. apply Z.compare_antisym.
Qed.

Lemma dt_compare_trans a b c :
  dt_compare a b = Lt -> dt_compare b c = Lt -> dt_compare a c = Lt.
Proof.
  apply lex_compare_trans;
    [apply Z.compare_eq_iff | apply Z_compare_trans].
Qed.

Lemma dt_compare_refl a : dt_compare a a = Eq.
Proof. now apply dt_compare_eq. Qed.

Lemma dt_leb_refl a : dt_leb a a = true.
Proof. unfold dt_leb. now rewrite dt_compare_refl. Qed.

Lemma dt_leb_trans a b c :
  dt_leb a b = true -> dt_leb b c = true -> dt_leb a c = true.
Proof.
  unfold dt_leb.
  destruct (dt_compare a b) eqn:Eab; try discriminate; intros _.
  - apply dt_compare_eq in Eab. now subst b.
  - destruct (dt_compare b c) eqn:Ebc; try discriminate; intros _.
    + apply dt_compare_eq in Ebc. subst c. now rewrite Eab.
    + now rewrite (dt_compare_trans _ _ _ Eab Ebc).
Qed.

Lemma dt_ltb_leb a b : dt_ltb a b = true -> dt_leb a b = true.
Proof. unfold dt_ltb, dt_leb. now destruct (dt_compare a b). Qed.

Lemma dt_gtb_leb a b : dt_gtb a b = true -> dt_leb b a = true.
Proof.
  unfold dt_gtb, dt_leb. rewrite (dt_compare_antisym a b).
  now destruct (dt_compare a b).
Qed.

Lemma dt_not_ltb_leb a b : dt_ltb a b = false -> dt_leb b a = true.
Proof.
  unfold dt_ltb, dt_leb. rewrite (dt_compare_antisym a b).
  now destruct (dt_compare a b).
Qed.

Lemma dt_not_gtb_leb a b : dt_gtb a b = false -> dt_leb a b = true.
Proof. unfold dt_gtb, dt_leb. now destruct (dt_compare a b). Qed.

Lemma dt_leb_antisym a b : dt_leb a b = true -> dt_leb b a = true -> a = b.
Proof.
  unfold dt_leb. rewrite (dt_compare_antisym a b).
  destruct (dt_compare a b) eqn:E; simpl; try discriminate.
  intros _ _. now apply dt_compare_eq.
Qed.

(** ** The Summary: counts and time bounds *)

Unset Implicit Arguments.

Lemma widens_refl s : widens s s.
Proof.
  split; intros x Hx; exists x; (split; [assumption | apply dt_leb_refl]).
Qed.

Lemma widens_trans s1 s2 s3 : widens s1 s2 -> widens s2 s3 -> widens s1 s3.
Proof.
  intros [He1 Hl1] [He2 Hl2]. split.
  - intros e H. destruct (He1 e H) as (e' & H' & L').
    destruct (He2 e' H') as (e'' & H'' & L''). exists e''. split; [assumption|].
    eapply dt_leb_trans; eassumption.
  - intros l H. destruct (Hl1 l H) as (l' & H' & L').
    destruct (Hl2 l' H') as (l'' & H'' & L''). exists l''. split; [assumption|].
    eapply dt_leb_trans; eassumption.
Qed.

Lemma widens_same_bounds s s' :
  earliest s' = earliest s -> latest s' = latest s -> widens s s'.
Proof.
  intros He Hl. split; intros x Hx; exists x;
    (split; [congruence | apply dt_leb_refl]).
Qed.

(** [update_time_bounds] changes the two bounds only. *)
Lemma update_time_bounds_counts s ts :
  let s' := update_time_bounds s ts in
  files_processed s' = files_processed s /\ lines_seen s' = lines_seen s
  /\ lines_matched s' = lines_matched s /\ lines_skipped s' = lines_skipped s
  /\ info s' = info s /\ warning s' = warning s /\ error s' = error s.
Proof.
  unfold update_time_bounds.
  destruct (earliest s) as [e|]; [destruct (dt_ltb ts e)|];
    simpl; (destruct (latest s) as [l|]; [destruct (dt_gtb ts l)|]);
    simpl; auto 10.
Qed.

Lemma update_time_bounds_earliest s ts :
  earliest (update_time_bounds s ts) =
  match earliest s with
  | None => Some ts
  | Some e => if dt_ltb ts e then Some ts else Some e
  end.
Proof.
  unfold update_time_bounds.
  destruct (earliest s) as [e|] eqn:Ee; [destruct (dt_ltb ts e)|];
    simpl; (destruct (latest s) as [l|]; [destruct (dt_gtb ts l)|]);
    simpl; auto.
Qed.

Lemma update_time_bounds_latest s ts :
  latest (update_time_bounds s ts) =
  match latest s with
  | None => Some ts
  | Some l => if dt_gtb ts l then Some ts else Some l
  end.
Proof.
  unfold update_time_bounds.
  destruct (earliest s) as [e|]; [destruct (dt_ltb ts e)|];
    simpl; (destruct (latest s) as [l|] eqn:El; [destruct (dt_gtb ts l)|]);
    simpl; auto.
Qed.

(** A record only widens the bounds. *)
Lemma update_time_bounds_widens s ts : widens s (update_time_bounds s ts).
Proof.
  split.
  - intros e He. rewrite update_time_bounds_earliest, He.
    destruct (dt_ltb ts e) eqn:E.
    + exists ts. split; [reflexivity | now apply dt_ltb_leb].
    + exists e. split; [reflexivity | apply dt_leb_refl].
  - intros l Hl. rewrite update_time_bounds_latest, Hl.
    destruct (dt_gtb ts l) eqn:E.
    + exists ts. split; [reflexivity | now apply dt_gtb_leb].
    + exists l. split; [reflexivity | apply dt_leb_refl].
Qed.

(** After a record both bounds are present and ordered, provided they
    were both absent or both present and ordered before. *)
Lemma update_time_bounds_ordered s ts :
  (earliest s = None /\ latest s = None)
  \/ (exists e l, earliest s = Some e /\ latest s = Some l
                  /\ dt_leb e l = true) ->
  exists e l, earliest (update_time_bounds s ts) = Some e
              /\ latest (update_time_bounds s ts) = Some l
              /\ dt_leb e l = true.
Proof.
  rewrite update_time_bounds_earliest, update_time_bounds_latest.
  intros [[-> ->] | (e & l & -> & -> & Hel)].
  - exists ts, ts. auto using dt_leb_refl.
  - destruct (dt_ltb ts e) eqn:E1; destruct (dt_gtb ts l) eqn:E2;
      eexists _, _; (split; [reflexivity|]); (split; [reflexivity|]).
    + apply dt_leb_refl.
    + apply dt_leb_trans with e; [now apply dt_ltb_leb | assumption].
    + now apply dt_not_ltb_leb.
    + assumption.
Qed.

(** [bump_level] with one of [LEVELS] adds one to the sum of the level
    counters and changes nothing else. *)
Lemma bump_level_known s level :
  In level LEVELS ->
  let s' := bump_level s level in
  (info s' + warning s' + error s' = info s + warning s + error s + 1)%Z
  /\ files_processed s' = files_processed s /\ lines_seen s' = lines_seen s
  /\ lines_matched s' = lines_matched s /\ lines_skipped s' = lines_skipped s
  /\ earliest s' = earliest s /\ latest s' = latest s.
Proof.
  unfold LEVELS. simpl.
  intros [<- | [<- | [<- | []]]]; cbn; repeat split; lia.
Qed.

(** ** The scan *)

Lemma Summary_new_inv : scan_inv Summary_new.
Proof.
  split; [split; reflexivity | left; auto].
Qed.

Lemma scan_line_inv line s s' :
  scan_line line s = Ok s' -> scan_inv s -> scan_inv s'.
Proof.
  unfold scan_line, rbind.
  destruct (parse_line line) as [[[ts level]|]|] eqn:E; try discriminate;
    intros [= <-] [[Hc1 Hc2] Hb].
  - pose proof (parse_line_level _ E) as Hl.
    set (s1 := set_lines_matched _ _).
    destruct (bump_level_known s1 level Hl) as (Hsum & _ & Hseen & Hm & Hsk & He & Hla).
    set (s2 := bump_level s1 level) in *.
    destruct (update_time_bounds_counts s2 ts)
      as (_ & Useen & Um & Usk & Ui & Uw & Ue).
    split.
    + unfold counts_ok. rewrite Useen, Um, Usk, Ui, Uw, Ue, Hseen, Hm, Hsk, Hsum.
      subst s1. simpl. lia.
    + right. rewrite Um, Hm. subst s1. simpl. split.
      * destruct Hb as [(H0 & _) | (Hp & _)]; lia.
      * apply update_time_bounds_ordered. rewrite He, Hla. simpl.
        destruct Hb as [(_ & H1 & H2) | (_ & H)]; auto.
  - split.
    + unfold counts_ok. simpl. lia.
    + exact Hb.
Qed.

Lemma scan_line_widens line s s' : scan_line line s = Ok s' -> widens s s'.
Proof.
  unfold scan_line, rbind.
  destruct (parse_line line) as [[[ts level]|]|] eqn:E; try discriminate;
    intros [= <-].
  - pose proof (parse_line_level _ E) as Hl.
    set (s1 := set_lines_matched _ _).
    destruct (bump_level_known s1 level Hl) as (_ & _ & _ & _ & _ & He & Hla).
    eapply widens_trans; [|apply update_time_bounds_widens].
    apply widens_same_bounds; [rewrite He | rewrite Hla]; reflexivity.
  - now apply widens_same_bounds.
Qed.

Lemma scan_lines_app l1 l2 s :
  scan_lines (l1 ++ l2) s = rbind (scan_lines l1 s) (scan_lines l2).
Proof.
  revert s. induction l1 as [|x l1 IH]; intros s; simpl; [reflexivity|].
  destruct (scan_line x s); simpl; auto.
Qed.

Lemma scan_lines_inv lines : forall s s',
  scan_lines lines s = Ok s' -> scan_inv s -> scan_inv s'.
Proof.
  induction lines as [|x lines IH]; simpl; intros s s'.
  - now intros [= <-].
  - unfold rbind. destruct (scan_line x s) eqn:E; [|discriminate].
    intros H Hs. eapply IH; [eassumption|]. eapply scan_line_inv; eassumption.
Qed.

Lemma scan_lines_widens lines : forall s s',
  scan_lines lines s = Ok s' -> widens s s'.
Proof.
  induction lines as [|x lines IH]; simpl; intros s s'.
  - intros [= <-]. apply widens_refl.
  - unfold rbind. destruct (scan_line x s) eqn:E; [|discriminate].
    intros H. eapply widens_trans; [eapply scan_line_widens; eassumption|].
    now apply IH.
Qed.

(** *** Reasoning about computations of [M] *)

Lemma bind_Ok A B (m : M A) (f : A -> M B) tr b tr' :
  bind m f tr = (Ok b, tr') ->
  exists a tr1, m tr = (Ok a, tr1) /\ f a tr1 = (Ok b, tr').
Proof.
  unfold bind. destruct (m tr) as [[a|e] tr1]; [eauto | discriminate].
Qed.

(** The filesystem operations in terms of [stat]. *)
Lemma stat_raises fs : forall p e, stat fs p = Raise e -> e = OSError.
Proof.
  intros p. revert fs. induction p as [|c p IH]; intros fs e; [discriminate|].
  cbn [stat].
  destruct fs as [content | entries | | [| |] entries];
    try discriminate; try (now intros [= <-]);
    (destruct (find_entry c entries) as [x|]; [apply IH | discriminate]).
Qed.

Lemma path_exists_eq fs p tr :
  path_exists fs p tr
  = (match stat fs p with
     | Ok (Some _) => Ok true
     | Ok None => Ok false
     | Raise e => Raise e
     end, tr ++ [ev_exists p]).
Proof.
  unfold path_exists, bind, emit, lift, ret.
  now destruct (stat fs p) as [[n|]|e].
Qed.

Lemma is_dir_eq fs p tr :
  is_dir fs p tr
  = (match stat fs p with
     | Ok (Some n) => Ok (is_directory n)
     | Ok None => Ok false
     | Raise e => Raise e
     end, tr ++ [ev_is_dir p]).
Proof.
  unfold is_dir, bind, emit, lift, ret.
  now destruct (stat fs p) as [[n|]|e].
Qed.

Lemma is_file_eq fs p tr :
  is_file fs p tr
  = (match stat fs p with
     | Ok (Some (RegularFile _)) => Ok true
     | Ok _ => Ok false
     | Raise e => Raise e
     end, tr ++ [ev_is_file p]).
Proof.
  unfold is_file, bind, emit, lift, ret.
  now destruct (stat fs p) as [[[content | entries | | mode entries]|]|e].
Qed.

Lemma iterdir_eq fs p tr :
  iterdir fs p tr
  = (match stat fs p with
     | Ok (Some n) =>
         match listing n with
         | Some entries => Ok (children p entries)
         | None => Raise OSError
         end
     | Ok None => Raise OSError
     | Raise e => Raise e
     end, tr ++ [ev_iterdir p]).
Proof.
  unfold iterdir, bind, emit, lift, ret, raise.
  destruct (stat fs p) as [[n|]|e]; try reflexivity.
  now destruct (listing n).
Qed.

Lemma open_eq fs p tr :
  open fs p tr
  = (match stat fs p with
     | Ok (Some (RegularFile (Some lines))) => Ok lines
     | Ok _ => Raise OSError
     | Raise e => Raise e
     end, tr ++ [ev_open p]).
Proof.
  unfold open, bind, emit, lift, ret, raise.
  now destruct (stat fs p)
    as [[[[lines|] | entries | | mode entries]|]|e].
Qed.

Lemma scan_file_Ok fs p s tr s' tr' :
  scan_file fs p s tr = (Ok s', tr') ->
  exists lines,
    stat fs p = Ok (Some (RegularFile (Some lines)))
    /\ tr' = tr ++ [ev_open p]
    /\ scan_lines lines
         (set_files_processed s (files_processed s + 1)) = Ok s'.
Proof.
  unfold scan_file, bind, lift. rewrite open_eq.
  destruct (stat fs p)
    as [[[[lines|] | entries | | mode entries]|]|e]; try discriminate.
  intros [= H <-]. eauto.
Qed.

Lemma scan_file_inv fs p s tr s' tr' :
  scan_file fs p s tr = (Ok s', tr') -> scan_inv s -> scan_inv s'.
Proof.
  intros H Hs. apply scan_file_Ok in H as (lines & _ & _ & H).
  eapply scan_lines_inv; [eassumption|]. exact Hs.
Qed.

Lemma scan_file_widens fs p s tr s' tr' :
  scan_file fs p s tr = (Ok s', tr') -> widens s s'.
Proof.
  intros H. apply scan_file_Ok in H as (lines & _ & _ & H).
  apply scan_lines_widens in H.
  eapply widens_trans; [|exact H]. now apply widens_same_bounds.
Qed.

Lemma for_each_app A S (l1 l2 : list A) (body : A -> S -> M S) s tr :
  for_each (l1 ++ l2) body s tr =
  bind (for_each l1 body s) (for_each l2 body) tr.
Proof.
  revert s tr. induction l1 as [|x l1 IH]; intros s tr; simpl.
  - reflexivity.
  - unfold bind.
    destruct (body x s tr) as [[s1|e] tr1]; [|reflexivity].
    rewrite IH. reflexivity.
Qed.

Lemma for_each_scan_inv fs files : forall s tr s' tr',
  for_each files (scan_file fs) s tr = (Ok s', tr') ->
  scan_inv s -> scan_inv s'.
Proof.
  induction files as [|p files IH]; simpl; intros s tr s' tr'.
  - now intros [= <- _].
  - intros H Hs. apply bind_Ok in H as (s1 & tr1 & H1 & H).
    eapply IH; [eassumption|]. eapply scan_file_inv; eassumption.
Qed.

Lemma for_each_scan_widens fs files : forall s tr s' tr',
  for_each files (scan_file fs) s tr = (Ok s', tr') -> widens s s'.
Proof.
  induction files as [|p files IH]; simpl; intros s tr s' tr'.
  - intros [= <- _]. apply widens_refl.
  - intros H. apply bind_Ok in H as (s1 & tr1 & H1 & H).
    eapply widens_trans; [eapply scan_file_widens; eassumption|].
    eapply IH; eassumption.
Qed.

(** A scan that returns went through the two checks, listed the
    directory and ran the loop over the files from a fresh summary. *)
Lemma summarize_directory_Ok fs directory tr s tr' :
  summarize_directory fs directory tr = (Ok s, tr') ->
  exists files tr0,
    iter_log_files fs directory
      (tr ++ [ev_exists directory] ++ [ev_is_dir directory]) = (Ok files, tr0)
    /\ for_each files (scan_file fs) Summary_new tr0 = (Ok s, tr').
Proof.
  unfold summarize_directory. intros H.
  apply bind_Ok in H as (e & tr1 & H1 & H). rewrite path_exists_eq in H1.
  destruct e; cbn [negb] in H; [|now unfold raise in H].
  apply bind_Ok in H as (d & tr2 & H2 & H). rewrite is_dir_eq in H2.
  destruct d; cbn [negb] in H; [|now unfold raise in H].
  apply bind_Ok in H as (files & tr0 & H3 & H).
  injection H1 as _ <-. injection H2 as _ <-.
  rewrite <- app_assoc in H3. eauto.
Qed.

(** ** The claims about the Summary and the scan *)

(** C2: whenever [summarize_directory] returns, the Summary it returns has
    lines_seen = lines_matched + lines_skipped and
    lines_matched = info + warning + error, whatever the directory holds
    (no file at all or empty files included). *)
Theorem summarize_directory_counts fs directory tr s tr' :
  summarize_directory fs directory tr = (Ok s, tr') ->
  (lines_seen s = lines_matched s + lines_skipped s
   /\ lines_matched s = info s + warning s + error s)%Z.
Proof.
  intros H. apply summarize_directory_Ok in H as (files & tr0 & _ & H).
  apply for_each_scan_inv in H; [|apply Summary_new_inv].
  destruct H as [Hc _]. exact Hc.
Qed.

Lemma summarize_directory_counts_witness :
  exists s tr',
    summarize_directory demo_fs demo_dir [] = (Ok s, tr')
    /\ (lines_seen s = lines_matched s + lines_skipped s
        /\ lines_matched s = info s + warning s + error s)%Z.
Proof.
  eexists _, _. split.
  - vm_compute. reflexivity.
  - eapply (summarize_directory_counts demo_fs demo_dir []).
    vm_compute. reflexivity.
Defined.

(** C3: in the Summary a scan returns, either lines_matched is 0 and
    earliest and latest are both absent, or lines_matched is positive and
    earliest and latest are both present, earliest not after latest. So
    the two are both absent exactly when lines_matched is 0, neither is
    ever present without the other, and when both are present earliest
    is not after latest. Over the scan the bounds only widen: a record
    never moves earliest later or latest earlier, the summary after any
    first part of a file's lines has bounds within those after all of
    them, and the summary after any first part of the files has bounds
    within those of the summary returned. *)
Theorem summarize_directory_time_bounds fs directory tr s tr' :
  summarize_directory fs directory tr = (Ok s, tr') ->
  ((lines_matched s = 0%Z /\ earliest s = None /\ latest s = None)
   \/ ((0 < lines_matched s)%Z
       /\ exists e l, earliest s = Some e /\ latest s = Some l
                      /\ dt_leb e l = true))
  /\ ((earliest s = None /\ latest s = None) <-> lines_matched s = 0%Z)
  /\ (earliest s = None <-> latest s = None)
  /\ (forall e l, earliest s = Some e -> latest s = Some l ->
                  dt_leb e l = true)
  /\ (forall s0 ts, widens s0 (update_time_bounds s0 ts))
  /\ (forall lines1 lines2 s0 s2,
         scan_lines (lines1 ++ lines2) s0 = Ok s2 ->
         exists s1, scan_lines lines1 s0 = Ok s1 /\ widens s1 s2)
  /\ (exists files tr0,
         iter_log_files fs directory
           (tr ++ [ev_exists directory] ++ [ev_is_dir directory])
         = (Ok files, tr0)
         /\ forall files1 files2,
             files = files1 ++ files2 ->
             exists s1 tr1,
               for_each files1 (scan_file fs) Summary_new tr0 = (Ok s1, tr1)
               /\ widens s1 s).
Proof.
  intros H. apply summarize_directory_Ok in H as (files & tr0 & Hfiles & H).
  pose proof (for_each_scan_inv _ _ _ _ _ _ H Summary_new_inv) as [_ Hb].
  split; [exact Hb|].
  split; [|split; [|split; [|split; [|split]]]].
  - destruct Hb as [(H0 & He & Hl) | (Hp & e & l & He & Hl & _)].
    + tauto.
    + split; [intros [He' _]; congruence | lia].
  - destruct Hb as [(H0 & He & Hl) | (Hp & e & l & He & Hl & _)].
    + rewrite He, Hl. tauto.
    + rewrite He, Hl. split; discriminate.
  - intros e l He Hl.
    destruct Hb as [(_ & He' & _) | (_ & e' & l' & He' & Hl' & Hle)];
      congruence.
  - apply update_time_bounds_widens.
  - intros lines1 lines2 s0 s2. rewrite scan_lines_app. unfold rbind.
    destruct (scan_lines lines1 s0) as [s1|] eqn:E1; [|discriminate].
    intros E2. exists s1. split; [reflexivity|].
    now apply scan_lines_widens in E2.
  - exists files, tr0. split; [assumption|].
    intros files1 files2 ->. rewrite for_each_app in H.
    apply bind_Ok in H as (s1 & tr1 & H1 & H2).
    exists s1, tr1. split; [assumption|].
    now apply for_each_scan_widens in H2.
Qed.

Lemma summarize_directory_time_bounds_witness :
  exists s tr',
    summarize_directory demo_fs demo_dir [] = (Ok s, tr')
    /\ ((lines_matched s = 0%Z /\ earliest s = None /\ latest s = None)
        \/ ((0 < lines_matched s)%Z
            /\ exists e l, earliest s = Some e /\ latest s = Some l
                           /\ dt_leb e l = true))
    /\ (earliest s = None <-> latest s = None).
Proof.
  eexists _, _. split.
  - vm_compute. reflexivity.
  - assert (H : summarize_directory demo_fs demo_dir []
                = (Ok (mk_Summary 3 4 3 1 1 1 1
                         (Some (mk_datetime 2026 2 5 8 0 0))
                         (Some (mk_datetime 2026 2 7 23 59 59))),
                   [ev_exists demo_dir; ev_is_dir demo_dir;
                    ev_iterdir demo_dir;
                    ev_is_file (joinpath demo_dir (lit "b.log"));
                    ev_is_file (joinpath demo_dir (lit ".log"));
                    ev_is_file (joinpath demo_dir (lit "a.log"));
                    ev_is_file (joinpath demo_dir (lit "empty.log"));
                    ev_is_file (joinpath demo_dir (lit "notes.txt"));
                    ev_is_file (joinpath demo_dir (lit "d.log"));
                    ev_open (joinpath demo_dir (lit "a.log"));
                    ev_open (joinpath demo_dir (lit "b.log"));
                    ev_open (joinpath demo_dir (lit "empty.log"))]))
      by (vm_compute; reflexivity).
    destruct (summarize_directory_time_bounds _ _ _ _ _ H)
      as (H1 & _ & H3 & _).
    split; [exact H1 | exact H3].
Defined.

(** C10: [bump_level] with a string that is none of INFO, WARNING and
    ERROR changes no field of the Summary (and, returning a Summary in
    every case, raises nothing). *)
Theorem bump_level_unknown s level :
  level <> lit "INFO" -> level <> lit "WARNING" -> level <> lit "ERROR" ->
  bump_level s level = s.
Proof.
  intros H1 H2 H3. unfold bump_level.
  apply str_eqb_neq in H1, H2, H3. now rewrite H1, H2, H3.
Qed.

Lemma bump_level_unknown_witness :
  bump_level Summary_new (lit "DEBUG") = Summary_new
  /\ bump_level Summary_new (lit "info") = Summary_new.
Proof.
  split.
  - apply (bump_level_unknown Summary_new (lit "DEBUG")); discriminate.
  - apply (bump_level_unknown Summary_new (lit "info")); discriminate.
Defined.

(** ** The report *)

(** C9: [format_report] leaves the Summary it is given as it was, field by
    field, and its text depends on nothing but the resolved directory path
    and the fields of the Summary. *)
Theorem format_report_frame resolve directory summary
        resolve' directory' summary' :
  resolve directory = resolve' directory' ->
  files_processed summary = files_processed summary' ->
  lines_seen summary = lines_seen summary' ->
  lines_matched summary = lines_matched summary' ->
  lines_skipped summary = lines_skipped summary' ->
  info summary = info summary' ->
  warning summary = warning summary' ->
  error summary = error summary' ->
  earliest summary = earliest summary' ->
  latest summary = latest summary' ->
  snd (format_report resolve directory summary) = summary
  /\ fst (format_report resolve directory summary)
     = fst (format_report resolve' directory' summary').
Proof.
  intros Hd H1 H2 H3 H4 H5 H6 H7 H8 H9. split; [reflexivity|].
  unfold format_report. cbn [fst].
  now rewrite Hd, H1, H2, H3, H4, H5, H6, H7, H8, H9.
Qed.

Lemma format_report_frame_witness :
  snd (format_report (fun p => lit "" :: lit "srv" :: p) demo_dir Summary_new)
  = Summary_new
  /\ fst (format_report (fun p => lit "" :: lit "srv" :: p) demo_dir
            Summary_new)
     = fst (format_report (fun p => p) [lit ""; lit "srv"; lit "logs"]
              (mk_Summary 0 0 0 0 0 0 0 None None)).
Proof.
  apply (format_report_frame (fun p => lit "" :: lit "srv" :: p) demo_dir
           Summary_new (fun p => p) [lit ""; lit "srv"; lit "logs"]
           (mk_Summary 0 0 0 0 0 0 0 None None)); reflexivity.
Defined.

(** ** Impossible dates *)

(** C1: on a line that has the shape of a record but whose timestamp is
    not a date of the calendar, [parse_line] does not return [None]: the
    [ValueError] of [strptime] leaves it, for month 13 and for day 32
    alike, and it ends the scan of a directory that holds such a line. *)
Theorem parse_line_impossible_date :
  parse_line (lit "2026-13-01 00:00:00 [INFO] x") = Raise ValueError
  /\ parse_line (lit "2026-01-32 00:00:00 [ERROR] y" ++ nl) = Raise ValueError
  /\ fst (summarize_directory
            (Directory
               [(lit "a.log",
                 RegularFile (Some [lit "2026-13-01 00:00:00 [INFO] x"]))])
            [] [])
     = Raise ValueError.
Proof.
  repeat split; vm_compute; reflexivity.
Qed.

(** ** The enumerator and the checks of the root *)

(** [stat] on a child of a directory. *)
Lemma stat_joinpath : forall directory fs nm,
  stat fs (joinpath directory nm)
  = match stat fs directory with
    | Ok (Some n) => stat n [nm]
    | Ok None => Ok None
    | Raise e => Raise e
    end.
Proof.
  unfold joinpath.
  induction directory as [|c directory IH]; intros fs nm; [reflexivity|].
  cbn [app stat].
  destruct fs as [content | entries | | [| |] entries]; try reflexivity;
    (destruct (find_entry c entries) as [x|]; [apply IH | reflexivity]).
Qed.

Lemma stat_child fs directory entries nm :
  stat fs directory = Ok (Some (Directory entries)) ->
  stat fs (joinpath directory nm) = Ok (find_entry nm entries).
Proof.
  intros H. rewrite stat_joinpath, H. cbn [stat].
  now destruct (find_entry nm entries).
Qed.

Lemma stat_child_list_only fs directory entries nm :
  stat fs directory = Ok (Some (Protected ListOnly entries)) ->
  stat fs (joinpath directory nm) = Raise OSError.
Proof. intros H. now rewrite stat_joinpath, H. Qed.

(** The node can be listed and searched, or it can be listed only and is
    empty: what lets the enumerator go through. *)
Lemma listing_cases n entries :
  listing n = Some entries ->
  n = Directory entries \/ n = Protected ListOnly entries.
Proof.
  destruct n as [content | entries0 | | [| |] entries0]; try discriminate;
    intros [= ->]; auto.
Qed.

Lemma bind_of_Ok A B (m : M A) (f : A -> M B) tr a tr1 :
  m tr = (Ok a, tr1) -> bind m f tr = f a tr1.
Proof. unfold bind. now intros ->. Qed.

Lemma bind_of_Raise A B (m : M A) (f : A -> M B) tr e tr1 :
  m tr = (Raise e, tr1) -> bind m f tr = (Raise e, tr1).
Proof. unfold bind. now intros ->. Qed.

Lemma is_file_log fs p n tr :
  stat fs p = Ok n ->
  bind (is_file fs p)
       (fun f => ret (f && str_eqb (suffix p) (lit ".log"))) tr
  = (Ok (is_log_file fs p), tr ++ [ev_is_file p]).
Proof.
  intros Hn. unfold bind. rewrite is_file_eq, Hn. unfold ret, is_log_file.
  rewrite Hn. now destruct n as [[content | entries | | mode entries]|].
Qed.

Lemma filterM_is_file fs l : forall tr,
  (forall p, In p l -> exists n, stat fs p = Ok n) ->
  filterM (fun p => bind (is_file fs p)
                      (fun f => ret (f && str_eqb (suffix p) (lit ".log"))))
          l tr
  = (Ok (filter (is_log_file fs) l), tr ++ List.map ev_is_file l).
Proof.
  induction l as [|p l IH]; intros tr Hl; cbn [filterM filter List.map].
  - unfold ret. now rewrite app_nil_r.
  - destruct (Hl p (or_introl eq_refl)) as [n Hn].
    rewrite (bind_of_Ok _ _ _ _ _ _ _ (is_file_log _ _ _ tr Hn)).
    rewrite (bind_of_Ok _ _ _ _ _ _ _
               (IH _ (fun q Hq => Hl q (or_intror Hq)))).
    unfold ret. now rewrite <- app_assoc.
Qed.

(** The first child on which [stat] fails ends the enumeration. *)
Lemma filterM_is_file_raise fs l1 p l2 e tr :
  (forall q, In q l1 -> exists n, stat fs q = Ok n) ->
  stat fs p = Raise e ->
  filterM (fun p => bind (is_file fs p)
                      (fun f => ret (f && str_eqb (suffix p) (lit ".log"))))
          (l1 ++ p :: l2) tr
  = (Raise e, tr ++ List.map ev_is_file (l1 ++ [p])).
Proof.
  revert tr. induction l1 as [|q l1 IH]; intros tr Hl Hp;
    cbn [app filterM List.map].
  - apply bind_of_Raise. apply bind_of_Raise. now rewrite is_file_eq, Hp.
  - destruct (Hl q (or_introl eq_refl)) as [n Hn].
    rewrite (bind_of_Ok _ _ _ _ _ _ _ (is_file_log _ _ _ tr Hn)).
    rewrite (bind_of_Raise _ _ _ _ _ _ _
               (IH _ (fun r Hr => Hl r (or_intror Hr)) Hp)).
    now rewrite <- app_assoc.
Qed.

Lemma iterdir_dir fs directory entries tr :
  stat fs directory = Ok (Some (Directory entries)) ->
  iterdir fs directory tr
  = (Ok (children directory entries), tr ++ [ev_iterdir directory]).
Proof. intros H. now rewrite iterdir_eq, H. Qed.

Lemma children_stat fs directory entries :
  stat fs directory = Ok (Some (Directory entries)) ->
  forall p, In p (children directory entries) -> exists n, stat fs p = Ok n.
Proof.
  intros H p Hp. unfold children in Hp.
  apply in_map_iff in Hp as ([nm x] & <- & _). cbn [fst].
  rewrite (stat_child _ _ _ nm H). eauto.
Qed.

Lemma iter_log_files_dir fs directory entries tr :
  stat fs directory = Ok (Some (Directory entries)) ->
  iter_log_files fs directory tr
  = (Ok (sorted (filter (is_log_file fs) (children directory entries))),
     tr ++ ev_iterdir directory
        :: List.map ev_is_file (children directory entries)).
Proof.
  intros H. unfold iter_log_files.
  rewrite (bind_of_Ok _ _ _ _ _ _ _ (iterdir_dir _ _ _ tr H)).
  rewrite (bind_of_Ok _ _ _ _ _ _ _
             (filterM_is_file _ _ _ (children_stat _ _ _ H))).
  unfold ret. now rewrite <- app_assoc.
Qed.

(** A directory that can be listed but not searched: the enumerator goes
    through when it is empty, and fails on the first entry otherwise. *)
Lemma iter_log_files_list_only fs directory entries tr :
  stat fs directory = Ok (Some (Protected ListOnly entries)) ->
  iter_log_files fs directory tr
  = match entries with
    | [] => (Ok [], tr ++ [ev_iterdir directory])
    | e :: _ =>
        (Raise OSError,
         tr ++ [ev_iterdir directory;
                ev_is_file (joinpath directory (fst e))])
    end.
Proof.
  intros H. unfold iter_log_files.
  assert (Hi : iterdir fs directory tr
               = (Ok (children directory entries),
                  tr ++ [ev_iterdir directory]))
    by now rewrite iterdir_eq, H.
  rewrite (bind_of_Ok _ _ _ _ _ _ _ Hi).
  destruct entries as [|[nm x] entries].
  - reflexivity.
  - unfold children. cbn [List.map fst].
    pose proof (filterM_is_file_raise fs [] (joinpath directory nm)
                  (List.map (fun e => joinpath directory (fst e)) entries)
                  OSError (tr ++ [ev_iterdir directory])
                  (fun q (Hq : In q []) => match Hq with end)
                  (stat_child_list_only _ _ _ nm H)) as Hf.
    cbn [app List.map] in Hf.
    rewrite (bind_of_Raise _ _ _ _ _ _ _ Hf). now rewrite <- app_assoc.
Qed.

(** Anything else cannot be listed. *)
Lemma iter_log_files_not_listed fs directory tr :
  (forall n entries, stat fs directory = Ok (Some n) ->
                     listing n <> Some entries) ->
  iter_log_files fs directory tr = (Raise OSError, tr ++ [ev_iterdir directory]).
Proof.
  intros H. unfold iter_log_files. apply bind_of_Raise.
  rewrite iterdir_eq.
  destruct (stat fs directory) as [[n|]|e] eqn:E; try reflexivity.
  - destruct (listing n) as [entries|] eqn:El; [|reflexivity].
    now destruct (H n entries eq_refl).
  - now rewrite (stat_raises _ _ _ E).
Qed.

(** When the enumerator returns, the directory is one that can be listed
    and searched, or it is empty. *)
Lemma iter_log_files_Ok_dir fs directory tr files tr' :
  iter_log_files fs directory tr = (Ok files, tr') ->
  (exists entries, stat fs directory = Ok (Some (Directory entries)))
  \/ (stat fs directory = Ok (Some (Protected ListOnly [])) /\ files = []).
Proof.
  intros H.
  destruct (stat fs directory) as [[n|]|e] eqn:E.
  - destruct (listing n) as [entries|] eqn:El.
    + apply listing_cases in El as [-> | ->]; [eauto|].
      rewrite (iter_log_files_list_only _ _ _ _ E) in H.
      destruct entries; [|discriminate]. injection H as <- _. auto.
    + rewrite iter_log_files_not_listed in H; [discriminate|].
      intros n' entries E'. rewrite E in E'. injection E' as <-.
      now rewrite El.
  - rewrite iter_log_files_not_listed in H; [discriminate|].
    intros n' entries E'. rewrite E in E'. discriminate.
  - rewrite iter_log_files_not_listed in H; [discriminate|].
    intros n' entries E'. rewrite E in E'. discriminate.
Qed.

Lemma scan_line_raise line s e : scan_line line s = Raise e -> e = ValueError.
Proof.
  unfold scan_line, rbind.
  destruct (parse_line line) as [[[ts level]|]|e'] eqn:E; try discriminate.
  intros [= <-]. now apply parse_line_raises in E as [-> _].
Qed.

Lemma scan_lines_raise lines : forall s e,
  scan_lines lines s = Raise e -> e = ValueError.
Proof.
  induction lines as [|x lines IH]; simpl; intros s e; [discriminate|].
  unfold rbind. destruct (scan_line x s) eqn:E.
  - apply IH.
  - intros [= <-]. eapply scan_line_raise; eassumption.
Qed.

Lemma scan_file_raise fs p s tr e tr' :
  scan_file fs p s tr = (Raise e, tr') -> e = OSError \/ e = ValueError.
Proof.
  unfold scan_file, bind, lift. rewrite open_eq.
  destruct (stat fs p)
    as [[[[lines|] | entries | | mode entries]|]|e0] eqn:E;
    try (intros [= <- _]; now left).
  - intros [= H _]. right. eapply scan_lines_raise; eassumption.
  - intros [= <- _]. left. exact (stat_raises _ _ _ E).
Qed.

Lemma for_each_scan_raise fs files : forall s tr e tr',
  for_each files (scan_file fs) s tr = (Raise e, tr') ->
  e = OSError \/ e = ValueError.
Proof.
  induction files as [|p files IH]; simpl; intros s tr e tr'.
  - discriminate.
  - unfold bind. destruct (scan_file fs p s tr) as [[s1|e1] tr1] eqn:E.
    + apply IH.
    + intros [= <- _]. eapply scan_file_raise; eassumption.
Qed.

Lemma summarize_directory_missing fs directory tr :
  stat fs directory = Ok None ->
  summarize_directory fs directory tr
  = (Raise (FileNotFoundError
              (lit "Directory does not exist: " ++ path_str directory)),
     tr ++ [ev_exists directory]).
Proof.
  intros H. unfold summarize_directory.
  assert (H1 : path_exists fs directory tr
               = (Ok false, tr ++ [ev_exists directory]))
    by now rewrite path_exists_eq, H.
  now rewrite (bind_of_Ok _ _ _ _ _ _ _ H1).
Qed.

Lemma summarize_directory_not_dir fs directory tr n :
  stat fs directory = Ok (Some n) -> is_directory n = false ->
  summarize_directory fs directory tr
  = (Raise (NotADirectoryError
              (lit "Not a directory: " ++ path_str directory)),
     tr ++ [ev_exists directory; ev_is_dir directory]).
Proof.
  intros H Hn. unfold summarize_directory.
  assert (H1 : path_exists fs directory tr
               = (Ok true, tr ++ [ev_exists directory]))
    by now rewrite path_exists_eq, H.
  rewrite (bind_of_Ok _ _ _ _ _ _ _ H1). cbn [negb].
  assert (H2 : is_dir fs directory (tr ++ [ev_exists directory])
               = (Ok false, (tr ++ [ev_exists directory])
                            ++ [ev_is_dir directory]))
    by now rewrite is_dir_eq, H, Hn.
  rewrite (bind_of_Ok _ _ _ _ _ _ _ H2). cbn [negb].
  unfold raise. now rewrite <- app_assoc.
Qed.

(** When [stat] fails on the path, the first check already raises. *)
Lemma summarize_directory_stat_raises fs directory tr e :
  stat fs directory = Raise e ->
  summarize_directory fs directory tr
  = (Raise OSError, tr ++ [ev_exists directory]).
Proof.
  intros H. unfold summarize_directory. apply bind_of_Raise.
  rewrite path_exists_eq, H. now rewrite (stat_raises _ _ _ H).
Qed.

(** On a directory the two checks pass and the scan is the enumeration
    followed by the loop over the files. *)
Lemma summarize_directory_checks fs directory tr n :
  stat fs directory = Ok (Some n) -> is_directory n = true ->
  summarize_directory fs directory tr
  = bind (iter_log_files fs directory)
         (fun files => for_each files (scan_file fs) Summary_new)
         (tr ++ [ev_exists directory; ev_is_dir directory]).
Proof.
  intros H Hn. unfold summarize_directory.
  assert (H1 : path_exists fs directory tr
               = (Ok true, tr ++ [ev_exists directory]))
    by now rewrite path_exists_eq, H.
  rewrite (bind_of_Ok _ _ _ _ _ _ _ H1). cbn [negb].
  assert (H2 : is_dir fs directory (tr ++ [ev_exists directory])
               = (Ok true, (tr ++ [ev_exists directory])
                           ++ [ev_is_dir directory]))
    by now rewrite is_dir_eq, H, Hn.
  rewrite (bind_of_Ok _ _ _ _ _ _ _ H2). cbn [negb].
  now rewrite <- app_assoc.
Qed.

Lemma summarize_directory_dir fs directory tr entries :
  stat fs directory = Ok (Some (Directory entries)) ->
  summarize_directory fs directory tr
  = for_each (sorted (filter (is_log_file fs) (children directory entries)))
      (scan_file fs) Summary_new
      (tr ++ [ev_exists directory; ev_is_dir directory]
          ++ ev_iterdir directory
             :: List.map ev_is_file (children directory entries)).
Proof.
  intros H. rewrite (summarize_directory_checks _ _ _ _ H eq_refl).
  rewrite (bind_of_Ok _ _ _ _ _ _ _ (iter_log_files_dir _ _ _ _ H)).
  now rewrite <- !app_assoc.
Qed.

(** What a scan of a directory can raise. *)
Lemma summarize_directory_dir_raise fs directory tr n e :
  stat fs directory = Ok (Some n) -> is_directory n = true ->
  fst (summarize_directory fs directory tr) = Raise e ->
  e = OSError \/ e = ValueError.
Proof.
  intros H Hn. rewrite (summarize_directory_checks _ _ _ _ H Hn).
  unfold bind.
  destruct (iter_log_files fs directory _) as [[files|e0] tr0] eqn:Ei.
  - destruct (for_each _ _ _ _) as [[s|e'] tr'] eqn:E; [discriminate|].
    intros [= <-]. eapply for_each_scan_raise; eassumption.
  - intros [= <-]. left.
    destruct n as [content | entries | | [| |] entries]; try discriminate.
    + rewrite (iter_log_files_dir _ _ _ _ H) in Ei. discriminate.
    + rewrite (iter_log_files_list_only _ _ _ _ H) in Ei.
      destruct entries; [discriminate | now injection Ei as <-].
    + rewrite iter_log_files_not_listed in Ei; [now injection Ei as <-|].
      intros n' entries' E'. rewrite H in E'. now injection E' as <-.
    + rewrite iter_log_files_not_listed in Ei; [now injection Ei as <-|].
      intros n' entries' E'. rewrite H in E'. now injection E' as <-.
Qed.

(** C4: the scan fails with the directory-not-found error exactly when the
    path leads nowhere, and with the not-a-directory error exactly when it
    leads to something that is not a directory; in both cases the
    operations made on the filesystem are the checks alone (no listing, no
    file opened) and no Summary is returned. *)
Theorem summarize_directory_invalid_root fs directory tr :
  ((exists msg, fst (summarize_directory fs directory tr)
                = Raise (FileNotFoundError msg))
   <-> stat fs directory = Ok None)
  /\ ((exists msg, fst (summarize_directory fs directory tr)
                   = Raise (NotADirectoryError msg))
      <-> exists n, stat fs directory = Ok (Some n)
                    /\ is_directory n = false)
  /\ (stat fs directory = Ok None ->
      summarize_directory fs directory tr
      = (Raise (FileNotFoundError
                  (lit "Directory does not exist: " ++ path_str directory)),
         tr ++ [ev_exists directory]))
  /\ (forall n, stat fs directory = Ok (Some n) ->
                is_directory n = false ->
      summarize_directory fs directory tr
      = (Raise (NotADirectoryError
                  (lit "Not a directory: " ++ path_str directory)),
         tr ++ [ev_exists directory; ev_is_dir directory])).
Proof.
  split; [|split; [|split]].
  - split.
    + intros [msg H].
      destruct (stat fs directory) as [[n|]|e] eqn:E; [|reflexivity|].
      * exfalso. destruct (is_directory n) eqn:Hn.
        -- destruct (summarize_directory_dir_raise _ _ _ _ _ E Hn H);
             discriminate.
        -- rewrite (summarize_directory_not_dir _ _ _ _ E Hn) in H.
           discriminate.
      * rewrite (summarize_directory_stat_raises _ _ _ _ E) in H.
        discriminate.
    + intros H. rewrite (summarize_directory_missing _ _ _ H).
      eexists. reflexivity.
  - split.
    + intros [msg H].
      destruct (stat fs directory) as [[n|]|e] eqn:E.
      * exists n. split; [reflexivity|].
        destruct (is_directory n) eqn:Hn; [|reflexivity].
        destruct (summarize_directory_dir_raise _ _ _ _ _ E Hn H);
          discriminate.
      * rewrite (summarize_directory_missing _ _ _ E) in H. discriminate.
      * rewrite (summarize_directory_stat_raises _ _ _ _ E) in H.
        discriminate.
    + intros (n & H & Hn).
      rewrite (summarize_directory_not_dir _ _ _ _ H Hn).
      eexists. reflexivity.
  - apply summarize_directory_missing.
  - apply summarize_directory_not_dir.
Qed.

Lemma summarize_directory_invalid_root_witness :
  summarize_directory demo_fs [lit "missing"] []
  = (Raise (FileNotFoundError (lit "Directory does not exist: missing")),
     [ev_exists [lit "missing"]])
  /\ summarize_directory demo_fs [lit "file"] []
     = (Raise (NotADirectoryError (lit "Not a directory: file")),
        [ev_exists [lit "file"]; ev_is_dir [lit "file"]]).
Proof.
  split.
  - destruct (summarize_directory_invalid_root demo_fs [lit "missing"] [])
      as (_ & _ & H & _).
    apply H. reflexivity.
  - destruct (summarize_directory_invalid_root demo_fs [lit "file"] [])
      as (_ & _ & _ & H).
    apply (H (RegularFile (Some []))); reflexivity.
Defined.

(** ** The single-record scenario *)

(** C6: when the enumerator yields exactly one file and that file holds
    the one line [2026-02-06 13:45:01 [INFO] Something happened] (with or
    without its newline), the scan returns files_processed = 1,
    lines_seen = 1, lines_matched = 1, lines_skipped = 0, info = 1,
    warning = 0, error = 0 and earliest = latest = 2026-02-06 13:45:01. *)
Theorem summarize_single_record fs directory tr p line :
  fst (iter_log_files fs directory []) = Ok [p] ->
  stat fs p = Ok (Some (RegularFile (Some [line]))) ->
  line = single_line \/ line = single_line ++ nl ->
  fst (summarize_directory fs directory tr)
  = Ok (mk_Summary 1 1 1 0 1 0 0
          (Some (mk_datetime 2026 2 6 13 45 1))
          (Some (mk_datetime 2026 2 6 13 45 1))).
Proof.
  intros Hfiles Hp Hline.
  destruct (iter_log_files fs directory []) as [r tr0] eqn:Ei.
  cbn [fst] in Hfiles. subst r.
  pose proof (iter_log_files_Ok_dir _ _ _ _ _ Ei) as [[entries Hd] | [_ Hn]];
    [|discriminate].
  rewrite (iter_log_files_dir _ _ _ _ Hd) in Ei. injection Ei as Hfiles _.
  rewrite (summarize_directory_dir _ _ _ _ Hd), Hfiles.
  cbn [for_each]. unfold scan_file, bind, lift, ret. rewrite open_eq, Hp.
  destruct Hline as [-> | ->]; vm_compute; reflexivity.
Qed.

Lemma summarize_single_record_witness :
  fst (summarize_directory single_fs [lit "var"] [])
  = Ok (mk_Summary 1 1 1 0 1 0 0
          (Some (mk_datetime 2026 2 6 13 45 1))
          (Some (mk_datetime 2026 2 6 13 45 1))).
Proof.
  apply (summarize_single_record single_fs [lit "var"] []
           [lit "var"; lit "app.log"] (single_line ++ nl)).
  - vm_compute. reflexivity.
  - vm_compute. reflexivity.
  - right. reflexivity.
Defined.

(** ** The order of the lines does not matter *)

Lemma dt_min_cases a b : dt_min a b = a \/ dt_min a b = b.
Proof. unfold dt_min. destruct (dt_ltb a b); auto. Qed.

Lemma dt_min_l a b : dt_leb (dt_min a b) a = true.
Proof.
  unfold dt_min. destruct (dt_ltb a b) eqn:E;
    [apply dt_leb_refl | now apply dt_not_ltb_leb].
Qed.

Lemma dt_min_r a b : dt_leb (dt_min a b) b = true.
Proof.
  unfold dt_min. destruct (dt_ltb a b) eqn:E;
    [now apply dt_ltb_leb | apply dt_leb_refl].
Qed.

Lemma dt_min_glb a b c :
  dt_leb c a = true -> dt_leb c b = true -> dt_leb c (dt_min a b) = true.
Proof. intros. destruct (dt_min_cases a b) as [-> | ->]; assumption. Qed.

Lemma dt_min_comm a b : dt_min a b = dt_min b a.
Proof.
  apply dt_leb_antisym; apply dt_min_glb;
    auto using dt_min_l, dt_min_r.
Qed.

Lemma dt_min_swap a b c : dt_min a (dt_min b c) = dt_min b (dt_min a c).
Proof.
  apply dt_leb_antisym; repeat apply dt_min_glb;
    eauto using dt_min_l, dt_min_r, dt_leb_trans.
Qed.

Lemma dt_max_cases a b : dt_max a b = a \/ dt_max a b = b.
Proof. unfold dt_max. destruct (dt_gtb a b); auto. Qed.

Lemma dt_max_l a b : dt_leb a (dt_max a b) = true.
Proof.
  unfold dt_max. destruct (dt_gtb a b) eqn:E;
    [apply dt_leb_refl | now apply dt_not_gtb_leb].
Qed.

Lemma dt_max_r a b : dt_leb b (dt_max a b) = true.
Proof.
  unfold dt_max. destruct (dt_gtb a b) eqn:E;
    [now apply dt_gtb_leb | apply dt_leb_refl].
Qed.

Lemma dt_max_lub a b c :
  dt_leb a c = true -> dt_leb b c = true -> dt_leb (dt_max a b) c = true.
Proof. intros. destruct (dt_max_cases a b) as [-> | ->]; assumption. Qed.

Lemma dt_max_comm a b : dt_max a b = dt_max b a.
Proof.
  apply dt_leb_antisym; apply dt_max_lub;
    auto using dt_max_l, dt_max_r.
Qed.

Lemma dt_max_swap a b c : dt_max a (dt_max b c) = dt_max b (dt_max a c).
Proof.
  apply dt_leb_antisym; repeat apply dt_max_lub;
    eauto using dt_max_l, dt_max_r, dt_leb_trans.
Qed.

Lemma update_time_bounds_eq s ts :
  update_time_bounds s ts =
  mk_Summary (files_processed s) (lines_seen s) (lines_matched s)
    (lines_skipped s) (info s) (warning s) (error s)
    (match earliest s with
     | None => Some ts
     | Some x => Some (dt_min ts x)
     end)
    (match latest s with
     | None => Some ts
     | Some x => Some (dt_max ts x)
     end).
Proof.
  destruct s as [fp ls lm lsk i w e [ea|] [la|]];
    unfold update_time_bounds, dt_min, dt_max;
    cbn [earliest latest set_earliest set_latest files_processed lines_seen
         lines_matched lines_skipped info warning error];
    try destruct (dt_ltb ts ea);
    cbn [earliest latest set_earliest set_latest files_processed lines_seen
         lines_matched lines_skipped info warning error];
    try destruct (dt_gtb ts la); reflexivity.
Qed.

Lemma bump_level_eq s level :
  bump_level s level =
  let '(i, w, e) := level_bumps level in
  mk_Summary (files_processed s) (lines_seen s) (lines_matched s)
    (lines_skipped s) (info s + i) (warning s + w) (error s + e)
    (earliest s) (latest s).
Proof.
  destruct s as [fp ls lm lsk i w e ea la].
  unfold bump_level, level_bumps.
  destruct (str_eqb level (lit "INFO")); [|
    destruct (str_eqb level (lit "WARNING")); [|
      destruct (str_eqb level (lit "ERROR"))]];
    cbn; rewrite ?Z.add_0_r; reflexivity.
Qed.

Lemma scan_line_eq line s :
  scan_line line s =
  match parse_line line with
  | Ok (Some (ts, level)) => Ok (after_match ts level s)
  | Ok None => Ok (after_skip s)
  | Raise e => Raise e
  end.
Proof.
  unfold scan_line, rbind.
  destruct (parse_line line) as [[[ts level]|]|e]; try reflexivity.
  f_equal. rewrite update_time_bounds_eq, bump_level_eq.
  unfold after_match. destruct (level_bumps level) as [[i w] e].
  reflexivity.
Qed.

Lemma after_match_skip ts level s :
  after_match ts level (after_skip s) = after_skip (after_match ts level s).
Proof.
  unfold after_match, after_skip. destruct (level_bumps level) as [[i w] e].
  reflexivity.
Qed.

Lemma after_match_match t1 l1 t2 l2 s :
  after_match t1 l1 (after_match t2 l2 s)
  = after_match t2 l2 (after_match t1 l1 s).
Proof.
  unfold after_match.
  destruct (level_bumps l1) as [[i1 w1] e1].
  destruct (level_bumps l2) as [[i2 w2] e2]. cbn.
  f_equal; try lia.
  - destruct (earliest s); f_equal;
      [apply dt_min_swap | apply dt_min_comm].
  - destruct (latest s); f_equal;
      [apply dt_max_swap | apply dt_max_comm].
Qed.

(** Two lines can be scanned in either order. *)
Lemma scan_line_comm x y s :
  rbind (scan_line x s) (scan_line y) = rbind (scan_line y s) (scan_line x).
Proof.
  unfold rbind. rewrite (scan_line_eq x s), (scan_line_eq y s).
  destruct (parse_line x) as [[[tx lx]|]|ex] eqn:Ex;
    destruct (parse_line y) as [[[ty ly]|]|ey] eqn:Ey;
    rewrite ?scan_line_eq, ?Ex, ?Ey; try reflexivity.
  - now rewrite after_match_match.
  - now rewrite after_match_skip.
  - now rewrite after_match_skip.
  - apply parse_line_raises in Ex as [-> _].
    apply parse_line_raises in Ey as [-> _]. reflexivity.
Qed.

Lemma scan_lines_Permutation lines lines' :
  Permutation lines lines' ->
  forall s, scan_lines lines s = scan_lines lines' s.
Proof.
  induction 1 as [| x l l' _ IH | x y l | l l' l'' _ IH1 _ IH2]; intros s.
  - reflexivity.
  - simpl. unfold rbind. destruct (scan_line x s); [apply IH | reflexivity].
  - simpl. pose proof (scan_line_comm x y s) as C. unfold rbind in *.
    destruct (scan_line y s) as [sy|ey]; destruct (scan_line x s) as [sx|ex];
      try (now rewrite C); try (now rewrite <- C); try congruence.
  - now rewrite IH1.
Qed.

Lemma find_entry_same_lines nm entries entries' :
  Forall2 (fun e e' => fst e = fst e' /\ same_lines (snd e) (snd e'))
          entries entries' ->
  same_lines_opt (Ok (find_entry nm entries)) (Ok (find_entry nm entries')).
Proof.
  induction 1 as [| [n x] [n' x'] l l' [Hn Hx] _ IH]; simpl; [exact I|].
  simpl in Hn, Hx. subst n'. destruct (str_eqb n nm); [exact Hx | exact IH].
Qed.

Lemma stat_same_lines p : forall n n',
  same_lines n n' -> same_lines_opt (stat n p) (stat n' p).
Proof.
  induction p as [|c p IH]; intros n n' H; simpl; [exact H|].
  inversion H as [| | entries entries' HF | | mode entries entries' HF];
    subst; simpl; try exact I.
  - pose proof (find_entry_same_lines c _ _ HF) as Hc.
    destruct (find_entry c entries) as [x|], (find_entry c entries') as [x'|];
      simpl in Hc; try contradiction; [now apply IH | exact I].
  - pose proof (find_entry_same_lines c _ _ HF) as Hc.
    destruct mode; try reflexivity.
    destruct (find_entry c entries) as [x|], (find_entry c entries') as [x'|];
      simpl in Hc; try contradiction; [now apply IH | exact I].
Qed.

Lemma children_same_lines directory entries entries' :
  Forall2 (fun e e' => fst e = fst e' /\ same_lines (snd e) (snd e'))
          entries entries' ->
  children directory entries = children directory entries'.
Proof.
  unfold children. induction 1 as [| e e' l l' [Hn _] _ IH]; simpl;
    [reflexivity|]. now rewrite Hn, IH.
Qed.

(** What the operations see of two such filesystems on a path. *)
Lemma stat_same_lines_cases fs fs' p :
  same_lines fs fs' ->
  (exists n n', stat fs p = Ok (Some n) /\ stat fs' p = Ok (Some n')
                /\ same_lines n n')
  \/ (stat fs p = Ok None /\ stat fs' p = Ok None)
  \/ (exists e, stat fs p = Raise e /\ stat fs' p = Raise e).
Proof.
  intros H. pose proof (stat_same_lines p _ _ H) as Hp.
  destruct (stat fs p) as [[x|]|e], (stat fs' p) as [[x'|]|e'];
    simpl in Hp; try contradiction; [eauto 6 | auto | subst; eauto].
Qed.

Lemma path_exists_same_lines fs fs' p tr :
  same_lines fs fs' -> path_exists fs p tr = path_exists fs' p tr.
Proof.
  intros H. rewrite !path_exists_eq.
  now destruct (stat_same_lines_cases _ _ p H)
    as [(n & n' & -> & -> & Hn) | [[-> ->] | (e & -> & ->)]].
Qed.

Lemma is_dir_same_lines fs fs' p tr :
  same_lines fs fs' -> is_dir fs p tr = is_dir fs' p tr.
Proof.
  intros H. rewrite !is_dir_eq.
  destruct (stat_same_lines_cases _ _ p H)
    as [(n & n' & -> & -> & Hn) | [[-> ->] | (e & -> & ->)]];
    [|reflexivity..].
  now destruct Hn.
Qed.

Lemma is_file_same_lines fs fs' p tr :
  same_lines fs fs' -> is_file fs p tr = is_file fs' p tr.
Proof.
  intros H. rewrite !is_file_eq.
  destruct (stat_same_lines_cases _ _ p H)
    as [(n & n' & -> & -> & Hn) | [[-> ->] | (e & -> & ->)]];
    [|reflexivity..].
  now destruct Hn.
Qed.

Lemma iterdir_same_lines fs fs' p tr :
  same_lines fs fs' -> iterdir fs p tr = iterdir fs' p tr.
Proof.
  intros H. rewrite !iterdir_eq.
  destruct (stat_same_lines_cases _ _ p H)
    as [(n & n' & -> & -> & Hn) | [[-> ->] | (e & -> & ->)]];
    [|reflexivity..].
  destruct Hn as [lines lines' HP | | entries entries' HF
                 | | mode entries entries' HF]; try reflexivity.
  - cbn [listing]. now rewrite (children_same_lines p _ _ HF).
  - destruct mode; cbn [listing]; try reflexivity.
    now rewrite (children_same_lines p _ _ HF).
Qed.

Lemma scan_file_same_lines fs fs' p s tr :
  same_lines fs fs' -> scan_file fs p s tr = scan_file fs' p s tr.
Proof.
  intros H. unfold scan_file, bind, lift. rewrite !open_eq.
  destruct (stat_same_lines_cases _ _ p H)
    as [(n & n' & -> & -> & Hn) | [[-> ->] | (e & -> & ->)]];
    [|reflexivity..].
  destruct Hn as [lines lines' HP | | | |]; try reflexivity.
  now rewrite (scan_lines_Permutation _ _ HP).
Qed.

Lemma bind_ext A B (m m' : M A) (f f' : A -> M B) tr :
  m tr = m' tr -> (forall a tr1, f a tr1 = f' a tr1) ->
  bind m f tr = bind m' f' tr.
Proof.
  intros Hm Hf. unfold bind. rewrite Hm.
  destruct (m' tr) as [[a|e] tr1]; [apply Hf | reflexivity].
Qed.

Lemma filterM_ext A (p q : A -> M bool) l :
  (forall x tr, p x tr = q x tr) ->
  forall tr, filterM p l tr = filterM q l tr.
Proof.
  intros H. induction l as [|x l IH]; intros tr; cbn [filterM];
    [reflexivity|].
  apply bind_ext; [apply H|]. intros b tr1.
  apply bind_ext; [apply IH | reflexivity].
Qed.

Lemma for_each_ext A S (f g : A -> S -> M S) l :
  (forall x s tr, f x s tr = g x s tr) ->
  forall s tr, for_each l f s tr = for_each l g s tr.
Proof.
  intros H. induction l as [|x l IH]; intros s tr; simpl; [reflexivity|].
  unfold bind. rewrite H. destruct (g x s tr) as [[s'|e] tr']; auto.
Qed.

Lemma iter_log_files_same_lines fs fs' directory tr :
  same_lines fs fs' ->
  iter_log_files fs directory tr = iter_log_files fs' directory tr.
Proof.
  intros H. unfold iter_log_files.
  apply bind_ext; [now apply iterdir_same_lines|]. intros entries tr1.
  apply bind_ext; [|reflexivity].
  apply filterM_ext. intros p tr2.
  apply bind_ext; [now apply is_file_same_lines | reflexivity].
Qed.

Lemma summarize_directory_same_lines fs fs' directory tr :
  same_lines fs fs' ->
  summarize_directory fs directory tr = summarize_directory fs' directory tr.
Proof.
  intros H. unfold summarize_directory.
  apply bind_ext; [now apply path_exists_same_lines|]. intros e tr1.
  destruct (negb e); [reflexivity|].
  apply bind_ext; [now apply is_dir_same_lines|]. intros d tr2.
  destruct (negb d); [reflexivity|].
  apply bind_ext; [now apply iter_log_files_same_lines|]. intros files tr3.
  apply for_each_ext. intros p s tr0. now apply scan_file_same_lines.
Qed.

(** C7: putting the lines of a file in another order changes nothing in
    what the scan returns: the loop over the lines of a file gives the same
    Summary (all counts, earliest and latest) from any starting Summary,
    and so does the scan of a directory in which the lines of files were
    permuted. *)
Theorem summarize_directory_line_order fs fs' directory tr :
  same_lines fs fs' ->
  (forall lines lines' s,
      Permutation lines lines' -> scan_lines lines s = scan_lines lines' s)
  /\ summarize_directory fs directory tr
     = summarize_directory fs' directory tr.
Proof.
  intros H. split.
  - intros lines lines' s HP. now apply scan_lines_Permutation.
  - now apply summarize_directory_same_lines.
Qed.

Lemma demo_fs_shuffled_same_lines : same_lines demo_fs demo_fs_shuffled.
Proof.
  unfold demo_fs, demo_fs_shuffled.
  repeat first
    [ apply sl_dir
    | apply Forall2_cons
    | apply Forall2_nil
    | split; [reflexivity|]
    | apply sl_file; cbn [snd]
    | apply Permutation_refl ].
  apply perm_trans with
    (l' := [ lit "2026-02-06 13:45:01 [INFO] Something happened" ++ nl;
             lit "2026-02-05 08:00:00 [WARNING] disk";
             lit "not a record" ++ nl ]).
  - apply perm_skip. apply perm_swap.
  - apply perm_swap.
Defined.

Lemma summarize_directory_line_order_witness :
  scan_lines [lit "b"; lit "2026-02-05 08:00:00 [WARNING] disk"] Summary_new
  = scan_lines [lit "2026-02-05 08:00:00 [WARNING] disk"; lit "b"] Summary_new
  /\ summarize_directory demo_fs demo_dir []
     = summarize_directory demo_fs_shuffled demo_dir [].
Proof.
  destruct (summarize_directory_line_order demo_fs demo_fs_shuffled demo_dir
              [] demo_fs_shuffled_same_lines) as [H1 H2].
  split; [apply H1; apply perm_swap | exact H2].
Defined.

(** ** The enumerator: which files, in which order *)

Lemma str_compare_eq a b : str_compare a b = Eq <-> a = b.
Proof. apply lex_compare_eq. apply N.compare_eq_iff. Qed.

Lemma str_compare_antisym a b : str_compare b a = CompOpp (str_compare a b).
Proof. apply lex_compare_antisym. intros x y. apply N.compare_antisym. Qed.

Lemma str_compare_trans a b c :
  str_compare a b = Lt -> str_compare b c = Lt -> str_compare a c = Lt.
Proof.
  apply lex_compare_trans; [apply N.compare_eq_iff | apply N_compare_trans].
Qed.

Lemma path_compare_eq a b : path_compare a b = Eq <-> a = b.
Proof. apply lex_compare_eq. apply str_compare_eq. Qed.

Lemma path_compare_antisym a b :
  path_compare b a = CompOpp (path_compare a b).
Proof. apply lex_compare_antisym. apply str_compare_antisym. Qed.

Lemma path_compare_trans a b c :
  path_compare a b = Lt -> path_compare b c = Lt -> path_compare a c = Lt.
Proof.
  apply lex_compare_trans; [apply str_compare_eq | apply str_compare_trans].
Qed.

Lemma path_le_trans a b c : path_le a b -> path_le b c -> path_le a c.
Proof.
  unfold path_le. intros Hab Hbc.
  destruct (path_compare a b) eqn:Eab; try congruence.
  - apply path_compare_eq in Eab. now subst b.
  - destruct (path_compare b c) eqn:Ebc; try congruence.
    + apply path_compare_eq in Ebc. subst c. now rewrite Eab.
    + now rewrite (path_compare_trans _ _ _ Eab Ebc).
Qed.

Lemma path_ltb_le a b : path_ltb a b = true -> path_le a b.
Proof. unfold path_ltb, path_le. destruct (path_compare a b); congruence. Qed.

Lemma path_not_ltb_le a b : path_ltb a b = false -> path_le b a.
Proof.
  unfold path_ltb, path_le. rewrite (path_compare_antisym a b).
  destruct (path_compare a b); simpl; congruence.
Qed.

Lemma insert_Permutation x l : Permutation (insert x l) (x :: l).
Proof.
  induction l as [|y l IH]; simpl; [reflexivity|].
  destruct (path_ltb y x); [|reflexivity].
  rewrite IH. apply perm_swap.
Qed.

Lemma sorted_Permutation l : Permutation (sorted l) l.
Proof.
  induction l as [|x l IH]; simpl; [reflexivity|].
  rewrite insert_Permutation. now apply perm_skip.
Qed.

Lemma insert_HdRel x y l :
  path_le y x -> HdRel path_le y l -> HdRel path_le y (insert x l).
Proof.
  intros Hyx H. destruct l as [|z l]; simpl; [now constructor|].
  destruct (path_ltb z x); constructor; [now inversion H | assumption].
Qed.

Lemma insert_Sorted x l : Sorted path_le l -> Sorted path_le (insert x l).
Proof.
  induction 1 as [|y l Hs IH Hd]; simpl; [repeat constructor|].
  destruct (path_ltb y x) eqn:E.
  - constructor; [assumption|].
    apply insert_HdRel; [now apply path_ltb_le | assumption].
  - constructor; [now constructor|]. constructor. now apply path_not_ltb_le.
Qed.

Lemma sorted_Sorted l : Sorted path_le (sorted l).
Proof.
  induction l as [|x l IH]; simpl; [constructor | now apply insert_Sorted].
Qed.

Lemma sorted_StronglySorted l : StronglySorted path_le (sorted l).
Proof.
  apply Sorted_StronglySorted; [|apply sorted_Sorted].
  intros a b c. apply path_le_trans.
Qed.

(** *** The suffix *)

Lemma endswith_spec s suf :
  endswith s suf = true <-> exists pre, s = pre ++ suf.
Proof.
  unfold endswith. rewrite andb_true_iff, str_eqb_eq, Nat.leb_le. split.
  - intros [H _]. exists (firstn (length s - length suf) s).
    transitivity (firstn (length s - length suf) s
                  ++ skipn (length s - length suf) s);
      [symmetry; apply firstn_skipn | f_equal; exact H].
  - intros [pre ->]. rewrite length_app. split; [|lia].
    replace (length pre + length suf - length suf) with (length pre) by lia.
    apply skipn_app_length.
Qed.

Lemma rfind_app c a b :
  rfind c (a ++ b) =
  match rfind c b with
  | Some i => Some (length a + i)
  | None => rfind c a
  end.
Proof.
  induction a as [|x a IH]; simpl.
  - now destruct (rfind c b).
  - rewrite IH. now destruct (rfind c b).
Qed.

Lemma name_joinpath directory nm : name (joinpath directory nm) = nm.
Proof. unfold name, joinpath. apply last_last. Qed.

(** The suffix of a name is [.log] exactly when the name ends in [.log]
    and is longer than that. *)
Lemma suffix_log p :
  suffix p = lit ".log" <->
  endswith (name p) (lit ".log") = true /\ name p <> lit ".log".
Proof.
  unfold suffix. set (nm := name p). split.
  - destruct (rfind (N_of_ascii ".") nm) as [i|] eqn:E; [|discriminate].
    destruct ((0 <? i) && (i + 1 <? length nm)) eqn:C; [|discriminate].
    intros H. split.
    + apply endswith_spec. exists (firstn i nm).
      rewrite <- H. symmetry. apply firstn_skipn.
    + intros Hnm. rewrite Hnm in E. vm_compute in E. injection E as <-.
      discriminate C.
  - intros [He Hne]. apply endswith_spec in He as [pre Hpre].
    rewrite Hpre, rfind_app.
    change (rfind (N_of_ascii ".") (lit ".log")) with (Some 0).
    assert (Hpos : 0 < length pre).
    { destruct pre; simpl; [|lia]. now destruct Hne. }
    rewrite length_app. change (length (lit ".log")) with 4.
    replace (length pre + 0) with (length pre) by lia.
    destruct (Nat.ltb_spec 0 (length pre)); [|lia].
    destruct (Nat.ltb_spec (length pre + 1) (length pre + 4)); [|lia].
    simpl. apply skipn_app_length.
Qed.

Lemma is_log_file_spec fs directory nm :
  is_log_file fs (joinpath directory nm) = true <->
  (exists content,
      stat fs (joinpath directory nm) = Ok (Some (RegularFile content)))
  /\ endswith nm (lit ".log") = true /\ nm <> lit ".log".
Proof.
  unfold is_log_file. rewrite andb_true_iff, str_eqb_eq, suffix_log.
  rewrite name_joinpath. split.
  - intros [H1 H2]. split; [|exact H2].
    destruct (stat fs (joinpath directory nm)) as [[[c | | |]|]|];
      try discriminate. now exists c.
  - intros [[c ->] H2]. now split.
Qed.

(** C5: for an existing directory the enumerator returns the paths
    [directory / name] of the entries of the directory itself that are
    regular files and whose name ends in the case-sensitive [.log] and is
    longer than that (a file named exactly [.log] has no suffix and is
    not returned); it returns each of them as often as the directory
    lists it, in ascending order of path. *)
Theorem iter_log_files_spec fs directory entries tr :
  stat fs directory = Ok (Some (Directory entries)) ->
  exists files tr',
    iter_log_files fs directory tr = (Ok files, tr')
    /\ (forall p,
           In p files <->
           exists nm, p = joinpath directory nm
                      /\ In nm (List.map fst entries)
                      /\ (exists content,
                             stat fs p = Ok (Some (RegularFile content)))
                      /\ endswith nm (lit ".log") = true
                      /\ nm <> lit ".log")
    /\ Permutation files
         (filter (is_log_file fs) (children directory entries))
    /\ StronglySorted path_le files.
Proof.
  intros H. rewrite (iter_log_files_dir _ _ _ _ H).
  eexists _, _. split; [reflexivity|]. split; [|split].
  - intros p. split.
    + intros Hin. apply (Permutation_in _ (sorted_Permutation _)) in Hin.
      apply filter_In in Hin as [Hin Hlog].
      apply in_map_iff in Hin as (e & <- & He). exists (fst e).
      apply is_log_file_spec in Hlog as (Hc & He1 & He2).
      repeat split; auto. now apply in_map.
    + intros (nm & -> & Hin & Hc & He1 & He2).
      apply (Permutation_in _ (Permutation_sym (sorted_Permutation _))).
      apply filter_In. split.
      * apply in_map_iff in Hin as (e & <- & He).
        apply in_map_iff. now exists e.
      * apply is_log_file_spec. auto.
  - apply sorted_Permutation.
  - apply sorted_StronglySorted.
Qed.

Lemma iter_log_files_spec_witness :
  exists files tr',
    iter_log_files demo_fs demo_dir [] = (Ok files, tr')
    /\ files = [ joinpath demo_dir (lit "a.log");
                 joinpath demo_dir (lit "b.log");
                 joinpath demo_dir (lit "empty.log") ]
    /\ StronglySorted path_le files.
Proof.
  destruct (iter_log_files_spec demo_fs demo_dir
              [ (lit "b.log",
                 RegularFile
                   (Some [ lit "2026-02-06 13:45:01 [INFO] Something happened"
                             ++ nl;
                           lit "not a record" ++ nl;
                           lit "2026-02-05 08:00:00 [WARNING] disk" ]));
                (lit ".log", RegularFile (Some [lit "x"]));
                (lit "a.log",
                 RegularFile
                   (Some [ lit "2026-02-07 23:59:59 [ERROR] failed" ++ nl ]));
                (lit "empty.log", RegularFile (Some []));
                (lit "notes.txt", RegularFile (Some [lit "hello"]));
                (lit "d.log", Directory []) ]
              [] eq_refl)
    as (files & tr' & Hrun & _ & _ & Hsorted).
  exists files, tr'. split; [exact Hrun|]. split; [|exact Hsorted].
  vm_compute in Hrun. now injection Hrun as <- _.
Defined.

(** The claim of the specification fails on a directory that holds a
    regular file named [.log]: the file is a child of the directory and
    its name ends in [.log], and the enumerator does not return it. *)
Lemma iter_log_files_dot_log_counterexample :
  exists entries files tr',
    stat demo_fs demo_dir = Ok (Some (Directory entries))
    /\ iter_log_files demo_fs demo_dir [] = (Ok files, tr')
    /\ ~ lists_names_ending_in_log demo_fs demo_dir entries files.
Proof.
  eexists _, _, _. split; [reflexivity|]. split; [vm_compute; reflexivity|].
  intros Hclaim.
  destruct (Hclaim (joinpath demo_dir (lit ".log"))) as [_ Hin].
  assert (H : In (joinpath demo_dir (lit ".log"))
                [ [lit "logs"; lit "a.log"]; [lit "logs"; lit "b.log"];
                  [lit "logs"; lit "empty.log"] ]).
  { apply Hin. exists (lit ".log"). split; [reflexivity|].
    split; [simpl; auto|]. split; [|reflexivity].
    eexists. reflexivity. }
  simpl in H. destruct H as [H | [H | [H | []]]]; discriminate H.
Qed.

(** ** strptime on timestamps written with ASCII digits *)

Ltac each_digit H :=
  unfold ascii_digit in H; simpl in H;
  repeat (destruct H as [H | H]; [subst|]); try contradiction.

Lemma ascii_digit_isdigit c : ascii_digit c -> in_cset c_digit c = true.
Proof. intros H. each_digit H; reflexivity. Qed.

Lemma ascii_digit_not_space c : ascii_digit c -> isspace c = false.
Proof. intros H. each_digit H; reflexivity. Qed.

Section MatcherEquations.
Context {A : Type}.
Implicit Types (K : cont A).

Lemma opt_id (x : option A) :
  match x with Some a => Some a | None => None end = x.
Proof. now destruct x. Qed.

Lemma match_one cs c s pos g K :
  match_re (r_repeat cs 1 (Some 1)) pos (c :: s) g K
  = if in_cset cs c then K (pos + 1) s g else None.
Proof.
  simpl. destruct (in_cset cs c); simpl; [apply opt_id | reflexivity].
Qed.

Lemma match_lit1 x c s pos g K :
  match_re (r_lit [x]) pos (c :: s) g K
  = if (c =? x)%N then K (pos + 1) s g else None.
Proof. simpl. now destruct (c =? x)%N. Qed.

Lemma match_cat r1 r2 pos s g K :
  match_re (r_cat r1 r2) pos s g K
  = match_re r1 pos s g (fun pos1 s1 g1 => match_re r2 pos1 s1 g1 K).
Proof. reflexivity. Qed.

Lemma match_alt r1 r2 pos s g K :
  match_re (r_alt r1 r2) pos s g K
  = match match_re r1 pos s g K with
    | Some a => Some a
    | None => match_re r2 pos s g K
    end.
Proof. reflexivity. Qed.

Lemma match_group nm r pos s g K :
  match_re (r_group nm r) pos s g K
  = match_re r pos s g
      (fun pos1 s1 g1 => K pos1 s1 ((nm, firstn (pos1 - pos) s) :: g1)).
Proof. reflexivity. Qed.

Lemma match_spaces_one x c s pos g K :
  isspace x = true -> isspace c = false ->
  match_re spaces pos (x :: c :: s) g K = K (pos + 1) (c :: s) g.
Proof.
  intros Hx Hc. unfold spaces. simpl. rewrite Hx, Hc. simpl. apply opt_id.
Qed.

Ltac eval_re :=
  repeat first
    [ rewrite match_cat | rewrite match_alt | rewrite match_group
    | rewrite match_one | rewrite match_lit1 | progress cbv beta ].

Lemma match_re_Y pos y1 y2 y3 y4 s g K :
  ascii_digit y1 -> ascii_digit y2 -> ascii_digit y3 -> ascii_digit y4 ->
  match_re re_Y pos (y1 :: y2 :: y3 :: y4 :: s) g K
  = K (pos + 1 + 1 + 1 + 1) s
      (("Y", firstn (pos + 1 + 1 + 1 + 1 - pos) (y1 :: y2 :: y3 :: y4 :: s))
         :: g).
Proof.
  intros H1 H2 H3 H4. unfold re_Y, seq, digit. eval_re.
  now rewrite !ascii_digit_isdigit.
Qed.

Ltac eval_group HK :=
  eval_re; cbn;
  rewrite ?HK by (unfold ascii_digit; simpl; tauto);
  rewrite ?opt_id; reflexivity.

Lemma match_re_m pos m1 m2 s g K :
  ascii_digit m1 -> ascii_digit m2 -> stops_at_digit K ->
  match_re re_m pos (m1 :: m2 :: s) g K
  = if ((1 <=? num2 m1 m2) && (num2 m1 m2 <=? 12))%Z
    then K (pos + 1 + 1) s
           (("m", firstn (pos + 1 + 1 - pos) (m1 :: m2 :: s)) :: g)
    else None.
Proof.
  intros H1 H2 HK. unfold re_m, alts, seq, txt, rng, digit.
  each_digit H1; each_digit H2; eval_group HK.
Qed.

Lemma match_re_d pos d1 d2 s g K :
  ascii_digit d1 -> ascii_digit d2 -> stops_at_digit K ->
  match_re re_d pos (d1 :: d2 :: s) g K
  = if ((1 <=? num2 d1 d2) && (num2 d1 d2 <=? 31))%Z
    then K (pos + 1 + 1) s
           (("d", firstn (pos + 1 + 1 - pos) (d1 :: d2 :: s)) :: g)
    else None.
Proof.
  intros H1 H2 HK. unfold re_d, alts, seq, txt, rng, digit.
  each_digit H1; each_digit H2; eval_group HK.
Qed.

Lemma match_re_H pos h1 h2 s g K :
  ascii_digit h1 -> ascii_digit h2 -> stops_at_digit K ->
  match_re re_H pos (h1 :: h2 :: s) g K
  = if (num2 h1 h2 <=? 23)%Z
    then K (pos + 1 + 1) s
           (("H", firstn (pos + 1 + 1 - pos) (h1 :: h2 :: s)) :: g)
    else None.
Proof.
  intros H1 H2 HK. unfold re_H, alts, seq, txt, rng, digit.
  each_digit H1; each_digit H2; eval_group HK.
Qed.

Lemma match_re_M pos i1 i2 s g K :
  ascii_digit i1 -> ascii_digit i2 -> stops_at_digit K ->
  match_re re_M pos (i1 :: i2 :: s) g K
  = if (num2 i1 i2 <=? 59)%Z
    then K (pos + 1 + 1) s
           (("M", firstn (pos + 1 + 1 - pos) (i1 :: i2 :: s)) :: g)
    else None.
Proof.
  intros H1 H2 HK. unfold re_M, alts, seq, txt, rng, digit.
  each_digit H1; each_digit H2; eval_group HK.
Qed.

(** The seconds end the pattern: when the two digits are more than 61 the
    match stops after the first of them. *)
Lemma match_re_S pos s1 s2 g (K : cont A) :
  ascii_digit s1 -> ascii_digit s2 ->
  (forall pos' s' g', K pos' s' g' <> None) ->
  match_re re_S pos [s1; s2] g K
  = if (num2 s1 s2 <=? 61)%Z
    then K (pos + 1 + 1) []
           (("S", firstn (pos + 1 + 1 - pos) [s1; s2]) :: g)
    else K (pos + 1) [s2] (("S", firstn (pos + 1 - pos) [s1; s2]) :: g).
Proof.
  intros H1 H2 HK. unfold re_S, alts, seq, txt, rng, digit.
  each_digit H1; each_digit H2; eval_re; cbn;
    repeat match goal with
           | |- context [match K ?p ?s ?g with _ => _ end] =>
               let E := fresh in
               destruct (K p s g) eqn:E; [|now destruct (HK p s g)]
           end; reflexivity.
Qed.
End MatcherEquations.

Lemma stops_at_lit {A} x r (k : cont A) :
  (forall c, ascii_digit c -> (c =? x)%N = false) ->
  stops_at_digit (fun pos s g => match_re (r_cat (r_lit [x]) r) pos s g k).
Proof.
  intros Hx pos c s g Hc. rewrite match_cat, match_lit1. now rewrite Hx.
Qed.

Lemma stops_at_spaces {A} r (k : cont A) :
  stops_at_digit (fun pos s g => match_re (r_cat spaces r) pos s g k).
Proof.
  intros pos c s g Hc. rewrite match_cat. unfold spaces. simpl.
  now rewrite (ascii_digit_not_space c Hc).
Qed.

Lemma ascii_digit_not_dash c : ascii_digit c -> (c =? 45)%N = false.
Proof. intros H. each_digit H; reflexivity. Qed.

Lemma ascii_digit_not_colon c : ascii_digit c -> (c =? 58)%N = false.
Proof. intros H. each_digit H; reflexivity. Qed.

Lemma pattern_TS_FORMAT :
  pattern TS_FORMAT
  = Some [ re_Y; r_lit [45%N]; re_m; r_lit [45%N]; re_d; spaces;
           re_H; r_lit [58%N]; re_M; r_lit [58%N]; re_S ].
Proof. reflexivity. Qed.

Lemma re_match_ts_text y1 y2 y3 y4 m1 m2 d1 d2 h1 h2 i1 i2 s1 s2 :
  ascii_digit y1 -> ascii_digit y2 -> ascii_digit y3 -> ascii_digit y4 ->
  ascii_digit m1 -> ascii_digit m2 -> ascii_digit d1 -> ascii_digit d2 ->
  ascii_digit h1 -> ascii_digit h2 -> ascii_digit i1 -> ascii_digit i2 ->
  ascii_digit s1 -> ascii_digit s2 ->
  re_match
    (seq [ re_Y; r_lit [45%N]; re_m; r_lit [45%N]; re_d; spaces;
           re_H; r_lit [58%N]; re_M; r_lit [58%N]; re_S ])
    (ts_text y1 y2 y3 y4 m1 m2 d1 d2 h1 h2 i1 i2 s1 s2)
  = if ((1 <=? num2 m1 m2) && (num2 m1 m2 <=? 12))%Z
    then if ((1 <=? num2 d1 d2) && (num2 d1 d2 <=? 31))%Z
    then if (num2 h1 h2 <=? 23)%Z
    then if (num2 i1 i2 <=? 59)%Z
    then if (num2 s1 s2 <=? 61)%Z
    then Some (19, [ ("S", [s1; s2]); ("M", [i1; i2]); ("H", [h1; h2]);
                     ("d", [d1; d2]); ("m", [m1; m2]);
                     ("Y", [y1; y2; y3; y4]) ])
    else Some (18, [ ("S", [s1]); ("M", [i1; i2]); ("H", [h1; h2]);
                     ("d", [d1; d2]); ("m", [m1; m2]);
                     ("Y", [y1; y2; y3; y4]) ])
    else None else None else None else None.
Proof.
  intros Hy1 Hy2 Hy3 Hy4 Hm1 Hm2 Hd1 Hd2 Hh1 Hh2 Hi1 Hi2 Hs1 Hs2.
  unfold re_match, ts_text. cbn [seq].
  rewrite match_cat, match_re_Y by assumption. cbv beta.
  rewrite match_cat, match_lit1, N.eqb_refl. cbv beta.
  rewrite match_cat,
    (match_re_m _ _ _ _ _ _ Hm1 Hm2 (stops_at_lit _ _ _ ascii_digit_not_dash)).
  destruct ((1 <=? num2 m1 m2) && (num2 m1 m2 <=? 12))%Z; [|reflexivity].
  rewrite match_cat, match_lit1, N.eqb_refl. cbv beta.
  rewrite match_cat,
    (match_re_d _ _ _ _ _ _ Hd1 Hd2 (stops_at_spaces _ _)).
  destruct ((1 <=? num2 d1 d2) && (num2 d1 d2 <=? 31))%Z; [|reflexivity].
  rewrite match_cat,
    (match_spaces_one 32%N _ _ _ _ _ eq_refl (ascii_digit_not_space _ Hh1)).
  rewrite match_cat,
    (match_re_H _ _ _ _ _ _ Hh1 Hh2 (stops_at_lit _ _ _ ascii_digit_not_colon)).
  destruct (num2 h1 h2 <=? 23)%Z; [|reflexivity].
  rewrite match_cat, match_lit1, N.eqb_refl. cbv beta.
  rewrite match_cat,
    (match_re_M _ _ _ _ _ _ Hi1 Hi2 (stops_at_lit _ _ _ ascii_digit_not_colon)).
  destruct (num2 i1 i2 <=? 59)%Z; [|reflexivity].
  rewrite match_cat, match_lit1, N.eqb_refl. cbv beta.
  rewrite (match_re_S _ _ _ _ _ Hs1 Hs2) by discriminate.
  destruct (num2 s1 s2 <=? 61)%Z; reflexivity.
Qed.

Lemma digit_value_ascii c :
  ascii_digit c -> digit_value c = Some (c - 48)%N /\ Z.of_N (c - 48) = dval c.
Proof. intros H. each_digit H; split; reflexivity. Qed.

Lemma int_ascii2 a b :
  ascii_digit a -> ascii_digit b -> int [a; b] = Ok (num2 a b).
Proof.
  intros Ha Hb.
  destruct (digit_value_ascii a Ha) as [Ea Va].
  destruct (digit_value_ascii b Hb) as [Eb Vb].
  unfold int, strip. cbn [lstrip].
  rewrite (ascii_digit_not_space a Ha). cbn [rev app lstrip].
  rewrite (ascii_digit_not_space b Hb). cbn [rev app int_digits].
  rewrite Ea. cbn [int_digits]. rewrite Eb, Va, Vb.
  reflexivity.
Qed.

Lemma int_ascii4 a b c d :
  ascii_digit a -> ascii_digit b -> ascii_digit c -> ascii_digit d ->
  int [a; b; c; d] = Ok (num4 a b c d).
Proof.
  intros Ha Hb Hc Hd.
  destruct (digit_value_ascii a Ha) as [Ea Va].
  destruct (digit_value_ascii b Hb) as [Eb Vb].
  destruct (digit_value_ascii c Hc) as [Ec Vc].
  destruct (digit_value_ascii d Hd) as [Ed Vd].
  unfold int, strip. cbn [lstrip].
  rewrite (ascii_digit_not_space a Ha). cbn [rev app lstrip].
  rewrite (ascii_digit_not_space d Hd). cbn [rev app int_digits].
  rewrite Ea. cbn [int_digits]. rewrite Eb. cbn [int_digits].
  rewrite Ec. cbn [int_digits]. rewrite Ed, Va, Vb, Vc, Vd.
  unfold num4. f_equal. lia.
Qed.

Lemma days_in_month_le y m : (days_in_month y m <= 31)%Z.
Proof.
  unfold days_in_month.
  destruct (m =? 2)%Z; [destruct (is_leap y); lia|].
  destruct ((m =? 4) || (m =? 6) || (m =? 9) || (m =? 11))%Z; lia.
Qed.

Lemma check_date_fields_true y m d :
  check_date_fields y m d = true <->
  (1 <= y <= 9999 /\ 1 <= m <= 12 /\ 1 <= d <= days_in_month y m)%Z.
Proof.
  unfold check_date_fields. rewrite !andb_true_iff, !Z.leb_le. tauto.
Qed.

Lemma check_time_fields_true h mi s :
  check_time_fields h mi s = true <->
  (0 <= h <= 23 /\ 0 <= mi <= 59 /\ 0 <= s <= 59)%Z.
Proof.
  unfold check_time_fields. rewrite !andb_true_iff, !Z.leb_le. tauto.
Qed.

(** On a timestamp written with ASCII digits, [strptime] returns the
    datetime of the fields when they make a date and a time of day, and
    raises otherwise. *)
Lemma strptime_ts_text y1 y2 y3 y4 m1 m2 d1 d2 h1 h2 i1 i2 s1 s2 :
  ascii_digit y1 -> ascii_digit y2 -> ascii_digit y3 -> ascii_digit y4 ->
  ascii_digit m1 -> ascii_digit m2 -> ascii_digit d1 -> ascii_digit d2 ->
  ascii_digit h1 -> ascii_digit h2 -> ascii_digit i1 -> ascii_digit i2 ->
  ascii_digit s1 -> ascii_digit s2 ->
  strptime (ts_text y1 y2 y3 y4 m1 m2 d1 d2 h1 h2 i1 i2 s1 s2) TS_FORMAT
  = if check_date_fields (num4 y1 y2 y3 y4) (num2 m1 m2) (num2 d1 d2)
       && check_time_fields (num2 h1 h2) (num2 i1 i2) (num2 s1 s2)
    then Ok (mk_datetime (num4 y1 y2 y3 y4) (num2 m1 m2) (num2 d1 d2)
               (num2 h1 h2) (num2 i1 i2) (num2 s1 s2))
    else Raise ValueError.
Proof.
  intros Hy1 Hy2 Hy3 Hy4 Hm1 Hm2 Hd1 Hd2 Hh1 Hh2 Hi1 Hi2 Hs1 Hs2.
  unfold strptime. rewrite pattern_TS_FORMAT.
  rewrite re_match_ts_text by assumption.
  assert (Hfalse : forall r : result datetime,
             check_date_fields (num4 y1 y2 y3 y4) (num2 m1 m2) (num2 d1 d2)
             && check_time_fields (num2 h1 h2) (num2 i1 i2) (num2 s1 s2)
             <> true ->
             Raise ValueError
             = if check_date_fields (num4 y1 y2 y3 y4) (num2 m1 m2)
                    (num2 d1 d2)
                  && check_time_fields (num2 h1 h2) (num2 i1 i2) (num2 s1 s2)
               then r else Raise ValueError).
  { intros r H. destruct (_ && _); congruence. }
  pose proof (days_in_month_le (num4 y1 y2 y3 y4) (num2 m1 m2)) as Hdim.
  destruct ((1 <=? num2 m1 m2) && (num2 m1 m2 <=? 12))%Z eqn:Em.
  2:{ apply Hfalse. rewrite andb_true_iff, check_date_fields_true.
      apply andb_false_iff in Em. rewrite Z.leb_gt, Z.leb_gt in Em. lia. }
  destruct ((1 <=? num2 d1 d2) && (num2 d1 d2 <=? 31))%Z eqn:Ed.
  2:{ apply Hfalse. rewrite andb_true_iff, check_date_fields_true.
      apply andb_false_iff in Ed. rewrite Z.leb_gt, Z.leb_gt in Ed. lia. }
  destruct (num2 h1 h2 <=? 23)%Z eqn:Eh.
  2:{ apply Hfalse. rewrite andb_true_iff, check_time_fields_true.
      apply Z.leb_gt in Eh. lia. }
  destruct (num2 i1 i2 <=? 59)%Z eqn:Ei.
  2:{ apply Hfalse. rewrite andb_true_iff, check_time_fields_true.
      apply Z.leb_gt in Ei. lia. }
  destruct (num2 s1 s2 <=? 61)%Z eqn:Es.
  2:{ apply Hfalse. rewrite andb_true_iff, check_time_fields_true.
      apply Z.leb_gt in Es. lia. }
  unfold ts_text. cbn [length Nat.eqb negb].
  unfold int_group, group. cbn [find fst snd String.eqb Ascii.eqb Bool.eqb].
  rewrite int_ascii4, !int_ascii2 by assumption.
  reflexivity.
Qed.

Lemma ascii_digit_is_digit c : ascii_digit c -> isdigit c = true.
Proof. exact (ascii_digit_isdigit c). Qed.

Lemma ts_text_shape y1 y2 y3 y4 m1 m2 d1 d2 h1 h2 i1 i2 s1 s2 :
  ascii_digit y1 -> ascii_digit y2 -> ascii_digit y3 -> ascii_digit y4 ->
  ascii_digit m1 -> ascii_digit m2 -> ascii_digit d1 -> ascii_digit d2 ->
  ascii_digit h1 -> ascii_digit h2 -> ascii_digit i1 -> ascii_digit i2 ->
  ascii_digit s1 -> ascii_digit s2 ->
  ts_shape (ts_text y1 y2 y3 y4 m1 m2 d1 d2 h1 h2 i1 i2 s1 s2).
Proof.
  intros Hy1 Hy2 Hy3 Hy4 Hm1 Hm2 Hd1 Hd2 Hh1 Hh2 Hi1 Hi2 Hs1 Hs2.
  exists [y1; y2; y3; y4], [m1; m2], [d1; d2], [h1; h2], [i1; i2], [s1; s2].
  split; [reflexivity|].
  unfold run. cbn [length forallb].
  rewrite !ascii_digit_is_digit by assumption. auto 10.
Qed.

(** *** strftime gives what strptime takes *)

Lemma is_ascii_digit_true c : is_ascii_digit c = true -> ascii_digit c.
Proof.
  unfold is_ascii_digit, ascii_digit. rewrite existsb_exists.
  intros (x & Hx & E). apply N.eqb_eq in E. now subst x.
Qed.

Lemma in_zrange n : forall start k,
  (start <= k < start + Z.of_nat n)%Z -> In k (zrange n start).
Proof.
  induction n as [|n IH]; intros start k Hk; [lia|].
  cbn [zrange]. destruct (Z.eq_dec start k) as [->|Hne]; [now left|].
  right. apply IH. lia.
Qed.

Lemma zfill2_all : forallb zfill2_ok (zrange (Z.to_nat 100) 0) = true.
Proof. vm_compute. reflexivity. Qed.

Lemma zfill4_all : forallb zfill4_ok (zrange (Z.to_nat 10000) 0) = true.
Proof. vm_compute. reflexivity. Qed.

Lemma zfill2_spec n :
  (0 <= n <= 99)%Z ->
  exists a b, zfill 2 n = [a; b] /\ ascii_digit a /\ ascii_digit b
              /\ num2 a b = n.
Proof.
  intros Hn. pose proof zfill2_all as H. rewrite forallb_forall in H.
  assert (Hin : In n (zrange (Z.to_nat 100) 0)) by (apply in_zrange; lia).
  apply H in Hin. unfold zfill2_ok in Hin.
  destruct (zfill 2 n) as [|a [|b [|c l]]]; try discriminate Hin.
  rewrite !andb_true_iff, Z.eqb_eq in Hin.
  destruct Hin as [[Ha Hb] Hv].
  exists a, b. auto using is_ascii_digit_true.
Qed.

Lemma zfill4_spec n :
  (0 <= n <= 9999)%Z ->
  exists a b c d, zfill 4 n = [a; b; c; d]
                  /\ ascii_digit a /\ ascii_digit b /\ ascii_digit c
                  /\ ascii_digit d /\ num4 a b c d = n.
Proof.
  intros Hn. pose proof zfill4_all as H. rewrite forallb_forall in H.
  assert (Hin : In n (zrange (Z.to_nat 10000) 0)) by (apply in_zrange; lia).
  apply H in Hin. unfold zfill4_ok in Hin.
  destruct (zfill 4 n) as [|a [|b [|c [|d [|e l]]]]]; try discriminate Hin.
  rewrite !andb_true_iff, Z.eqb_eq in Hin.
  destruct Hin as [[[[Ha Hb] Hc] Hd] Hv].
  exists a, b, c, d. auto 10 using is_ascii_digit_true.
Qed.

(** The text of a valid datetime with the year on four digits is a
    timestamp in ASCII digits whose fields are those of the datetime. *)
Lemma padded_ts_text t :
  valid_datetime t = true ->
  exists y1 y2 y3 y4 m1 m2 d1 d2 h1 h2 i1 i2 s1 s2,
    padded_ts t = ts_text y1 y2 y3 y4 m1 m2 d1 d2 h1 h2 i1 i2 s1 s2
    /\ (ascii_digit y1 /\ ascii_digit y2 /\ ascii_digit y3 /\ ascii_digit y4)
    /\ (ascii_digit m1 /\ ascii_digit m2) /\ (ascii_digit d1 /\ ascii_digit d2)
    /\ (ascii_digit h1 /\ ascii_digit h2) /\ (ascii_digit i1 /\ ascii_digit i2)
    /\ (ascii_digit s1 /\ ascii_digit s2)
    /\ t = mk_datetime (num4 y1 y2 y3 y4) (num2 m1 m2) (num2 d1 d2)
             (num2 h1 h2) (num2 i1 i2) (num2 s1 s2).
Proof.
  destruct t as [y m d h mi s]. unfold valid_datetime. cbn [year month day hour minute second].
  rewrite andb_true_iff, check_date_fields_true, check_time_fields_true.
  intros [(Hy & Hm & Hd) (Hh & Hmi & Hs)].
  pose proof (days_in_month_le y m) as Hdim.
  destruct (zfill4_spec y) as (y1 & y2 & y3 & y4 & Ey & ? & ? & ? & ? & Vy);
    [lia|].
  destruct (zfill2_spec m) as (m1 & m2 & Em & ? & ? & Vm); [lia|].
  destruct (zfill2_spec d) as (d1 & d2 & Ed & ? & ? & Vd); [lia|].
  destruct (zfill2_spec h) as (h1 & h2 & Eh & ? & ? & Vh); [lia|].
  destruct (zfill2_spec mi) as (i1 & i2 & Ei & ? & ? & Vi); [lia|].
  destruct (zfill2_spec s) as (s1 & s2 & Es & ? & ? & Vs); [lia|].
  exists y1, y2, y3, y4, m1, m2, d1, d2, h1, h2, i1, i2, s1, s2.
  unfold padded_ts. cbn [year month day hour minute second].
  rewrite Ey, Em, Ed, Eh, Ei, Es, Vy, Vm, Vd, Vh, Vi, Vs.
  repeat split; assumption.
Qed.

(** [strptime] reads that text back. *)
Lemma strptime_padded_ts t :
  valid_datetime t = true ->
  ts_shape (padded_ts t) /\ strptime (padded_ts t) TS_FORMAT = Ok t.
Proof.
  intros Hv.
  destruct (padded_ts_text t Hv)
    as (y1 & y2 & y3 & y4 & m1 & m2 & d1 & d2 & h1 & h2 & i1 & i2 & s1 & s2
        & E & (? & ? & ? & ?) & (? & ?) & (? & ?) & (? & ?) & (? & ?)
        & (? & ?) & Et).
  rewrite E. split; [now apply ts_text_shape|].
  rewrite strptime_ts_text by assumption.
  rewrite Et in Hv. unfold valid_datetime in Hv.
  cbn [year month day hour minute second] in Hv. rewrite Hv. now rewrite Et.
Qed.

(** *** What strftime writes, and whether strptime reads it back *)

(** From the year 1000 on the year takes four digits without padding. *)
Lemma year_width_4_all :
  forallb (fun k => Nat.eqb (length (str_of_int k)) 4)
          (zrange (Z.to_nat 9000) 1000) = true.
Proof. vm_compute. reflexivity. Qed.

(** Below 1000 it takes fewer. *)
Lemma year_width_short_all :
  forallb (fun k => Nat.ltb (length (str_of_int k)) 4)
          (zrange (Z.to_nat 999) 1) = true.
Proof. vm_compute. reflexivity. Qed.

Lemma strftime_ts_padded t :
  (1000 <= year t <= 9999)%Z -> strftime_ts t = padded_ts t.
Proof.
  intros Hy. unfold strftime_ts, padded_ts. f_equal.
  pose proof year_width_4_all as H. rewrite forallb_forall in H.
  assert (Hin : In (year t) (zrange (Z.to_nat 9000) 1000))
    by (apply in_zrange; lia).
  apply H, Nat.eqb_eq in Hin. unfold zfill. now rewrite Hin.
Qed.

Lemma span_app_stop (p : char -> bool) d c rest :
  p c = false -> span p (d ++ c :: rest) <= length d.
Proof.
  intros Hc. induction d as [|x d IH]; cbn [app span length].
  - rewrite Hc. lia.
  - destruct (p x); lia.
Qed.

(** The pattern of the year fails on a text that does not start with
    four digits. *)
Lemma match_re_Y_short A pos s g (K : cont A) :
  span isdigit s < 4 -> match_re re_Y pos s g K = None.
Proof.
  unfold re_Y, seq, digit. rewrite match_group.
  destruct s as [|a s]; [reflexivity|].
  rewrite match_cat, match_one. cbn [in_cset span].
  destruct (isdigit a); [cbv beta | reflexivity].
  destruct s as [|b s]; [reflexivity|].
  rewrite match_cat, match_one. cbn [in_cset span].
  destruct (isdigit b); [cbv beta | reflexivity].
  destruct s as [|c s]; [reflexivity|].
  rewrite match_cat, match_one. cbn [in_cset span].
  destruct (isdigit c); [cbv beta | reflexivity].
  destruct s as [|d s]; [reflexivity|].
  rewrite match_one. cbn [in_cset span].
  destruct (isdigit d); [lia | reflexivity].
Qed.

Lemma strptime_short_year s :
  span isdigit s < 4 -> strptime s TS_FORMAT = Raise ValueError.
Proof.
  intros H. unfold strptime. rewrite pattern_TS_FORMAT.
  unfold re_match. cbn [seq]. rewrite match_cat.
  now rewrite match_re_Y_short.
Qed.

(** [strptime] reads back what [strftime] wrote for a valid datetime
    from the year 1000 on, and refuses what it wrote for an earlier one. *)
Lemma strptime_strftime t :
  valid_datetime t = true ->
  strptime (strftime_ts t) TS_FORMAT
  = if (1000 <=? year t)%Z then Ok t else Raise ValueError.
Proof.
  intros Hv.
  assert (Hy : (1 <= year t <= 9999)%Z).
  { destruct t as [y m d h mi sec]. unfold valid_datetime in Hv.
    cbn [year month day hour minute second] in Hv |- *.
    rewrite andb_true_iff, check_date_fields_true in Hv. lia. }
  destruct (Z.leb_spec 1000 (year t)) as [Hge|Hlt].
  - rewrite strftime_ts_padded by lia. now apply strptime_padded_ts.
  - apply strptime_short_year. unfold strftime_ts.
    pose proof year_width_short_all as H. rewrite forallb_forall in H.
    assert (Hin : In (year t) (zrange (Z.to_nat 999) 1))
      by (apply in_zrange; lia).
    apply H, Nat.ltb_lt in Hin.
    eapply Nat.le_lt_trans; [|exact Hin].
    change (lit "-" ++ ?x) with (45%N :: x).
    now apply span_app_stop.
Qed.

(** ** The grammar of a record *)

Lemma rstrip_nl_no_trailing_newline s : forall x, rstrip_nl s <> x ++ [NL].
Proof.
  induction s as [|c s IH]; intros x; simpl.
  - now destruct x.
  - destruct (rstrip_nl s) as [|y t] eqn:E.
    + destruct (N.eqb_spec c NL) as [->|Hc]; [now destruct x|].
      destruct x as [|x0 [|x1 x]]; simpl; try discriminate.
      intros [= ->]. now apply Hc.
    + destruct x as [|x0 x]; simpl.
      * discriminate.
      * intros [= _ H]. now apply (IH x).
Qed.

(** C8: [parse_line] returns a timestamp and a level exactly for the lines
    that, once their trailing newlines are dropped, read: a timestamp of
    the shape dddd-dd-dd dd:dd:dd that [strptime] accepts, whitespace, the
    bracketed level, which is one of INFO, WARNING and ERROR as written,
    whitespace again, and a message without a newline. The message may
    be empty, but at least one whitespace character has to follow the
    closing bracket: with that, a line that ends after the whitespace is
    matched, for every timestamp text [strptime] accepts and so for the
    text, with the year on four digits, of every valid datetime. *)
Theorem parse_line_grammar line t level :
  (parse_line line = Ok (Some (t, level)) <->
   exists ts w1 w2 msg,
     rstrip_nl line
     = ts ++ w1 ++ lit "[" ++ level ++ lit "]" ++ w2 ++ msg
     /\ ts_shape ts /\ strptime ts TS_FORMAT = Ok t
     /\ run1 isspace w1 /\ In level LEVELS
     /\ run1 isspace w2 /\ no_newline msg)
  /\ (forall ts w1 w2,
         rstrip_nl line = ts ++ w1 ++ lit "[" ++ level ++ lit "]" ++ w2 ->
         ts_shape ts -> strptime ts TS_FORMAT = Ok t ->
         run1 isspace w1 -> In level LEVELS -> run1 isspace w2 ->
         parse_line line = Ok (Some (t, level)))
  /\ (forall w1 w2,
         valid_datetime t = true ->
         rstrip_nl line
         = padded_ts t ++ w1 ++ lit "[" ++ level ++ lit "]" ++ w2 ->
         run1 isspace w1 -> In level LEVELS -> run1 isspace w2 ->
         parse_line line = Ok (Some (t, level))).
Proof.
  assert (Hiff :
    parse_line line = Ok (Some (t, level)) <->
    exists ts w1 w2 msg,
      rstrip_nl line
      = ts ++ w1 ++ lit "[" ++ level ++ lit "]" ++ w2 ++ msg
      /\ ts_shape ts /\ strptime ts TS_FORMAT = Ok t
      /\ run1 isspace w1 /\ In level LEVELS
      /\ run1 isspace w2 /\ no_newline msg).
  { rewrite parse_line_match. split.
    - intros (ts & (w1 & w2 & msg & tail & E & Hts & Hw1 & Hl & Hw2 & Hmsg
                    & [-> | ->]) & Ht).
      + rewrite app_nil_r in E. exists ts, w1, w2, msg. auto 10.
      + exfalso.
        apply (rstrip_nl_no_trailing_newline line
                 (ts ++ w1 ++ lit "[" ++ level ++ lit "]" ++ w2 ++ msg)).
        rewrite E. now rewrite <- !app_assoc.
    - intros (ts & w1 & w2 & msg & E & Hts & Ht & Hw1 & Hl & Hw2 & Hmsg).
      exists ts. split; [|assumption].
      exists w1, w2, msg, []. rewrite app_nil_r. auto 10. }
  assert (Hempty : forall ts w1 w2,
             rstrip_nl line = ts ++ w1 ++ lit "[" ++ level ++ lit "]" ++ w2 ->
             ts_shape ts -> strptime ts TS_FORMAT = Ok t ->
             run1 isspace w1 -> In level LEVELS -> run1 isspace w2 ->
             parse_line line = Ok (Some (t, level))).
  { intros ts w1 w2 E Hts Ht Hw1 Hl Hw2. apply Hiff.
    exists ts, w1, w2, []. rewrite app_nil_r. unfold no_newline. auto 10. }
  split; [exact Hiff|]. split; [exact Hempty|].
  intros w1 w2 Hv E Hw1 Hl Hw2.
  destruct (strptime_padded_ts t Hv) as [Hts Ht].
  now apply (Hempty (padded_ts t) w1 w2).
Qed.

Lemma parse_line_grammar_witness :
  parse_line (bare_line ++ lit " " ++ nl)
  = Ok (Some (mk_datetime 2026 2 6 13 45 1, lit "INFO"))
  /\ parse_line (padded_ts (mk_datetime 2024 2 29 23 59 59)
                 ++ lit "  " ++ lit "[" ++ lit "ERROR" ++ lit "]" ++ [9%N])
     = Ok (Some (mk_datetime 2024 2 29 23 59 59, lit "ERROR")).
Proof.
  split.
  - destruct (parse_line_grammar (bare_line ++ lit " " ++ nl)
                (mk_datetime 2026 2 6 13 45 1) (lit "INFO")) as (_ & H & _).
    apply (H (lit "2026-02-06 13:45:01") (lit " ") (lit " ")).
    + vm_compute. reflexivity.
    + exists (lit "2026"), (lit "02"), (lit "06"), (lit "13"), (lit "45"),
        (lit "01").
      repeat split; vm_compute; reflexivity.
    + vm_compute. reflexivity.
    + split; [discriminate | reflexivity].
    + simpl. auto.
    + split; [discriminate | reflexivity].
  - destruct (parse_line_grammar
                (padded_ts (mk_datetime 2024 2 29 23 59 59)
                 ++ lit "  " ++ lit "[" ++ lit "ERROR" ++ lit "]" ++ [9%N])
                (mk_datetime 2024 2 29 23 59 59) (lit "ERROR")) as (_ & _ & H).
    apply (H (lit "  ") [9%N]).
    + vm_compute. reflexivity.
    + vm_compute. reflexivity.
    + split; [discriminate | reflexivity].
    + simpl. auto.
    + split; [discriminate | reflexivity].
Defined.

(** The line of the specification's scenario is not matched: nothing
    follows its closing bracket. *)
Lemma parse_line_bare_level_counterexample :
  bare_line = lit "2026-02-06 13:45:01" ++ lit " " ++ lit "[" ++ lit "INFO"
              ++ lit "]" ++ []
  /\ strptime (lit "2026-02-06 13:45:01") TS_FORMAT
     = Ok (mk_datetime 2026 2 6 13 45 1)
  /\ parse_line bare_line = Ok None
  /\ parse_line (bare_line ++ nl) = Ok None.
Proof.
  repeat split; vm_compute; reflexivity.
Qed.


(** ** Impossible dates, in general *)

(** Whatever the line, when its timestamp is written with ASCII digits
    and its fields do not make a date and a time of day, [parse_line]
    raises [ValueError]. *)
Lemma parse_line_invalid_fields
      y1 y2 y3 y4 m1 m2 d1 d2 h1 h2 i1 i2 s1 s2 w1 w2 level msg line :
  ascii_digit y1 -> ascii_digit y2 -> ascii_digit y3 -> ascii_digit y4 ->
  ascii_digit m1 -> ascii_digit m2 -> ascii_digit d1 -> ascii_digit d2 ->
  ascii_digit h1 -> ascii_digit h2 -> ascii_digit i1 -> ascii_digit i2 ->
  ascii_digit s1 -> ascii_digit s2 ->
  check_date_fields (num4 y1 y2 y3 y4) (num2 m1 m2) (num2 d1 d2)
  && check_time_fields (num2 h1 h2) (num2 i1 i2) (num2 s1 s2) = false ->
  rstrip_nl line
  = ts_text y1 y2 y3 y4 m1 m2 d1 d2 h1 h2 i1 i2 s1 s2
    ++ w1 ++ lit "[" ++ level ++ lit "]" ++ w2 ++ msg ->
  run1 isspace w1 -> In level LEVELS -> run1 isspace w2 -> no_newline msg ->
  parse_line line = Raise ValueError.
Proof.
  intros Hy1 Hy2 Hy3 Hy4 Hm1 Hm2 Hd1 Hd2 Hh1 Hh2 Hi1 Hi2 Hs1 Hs2
         Hbad E Hw1 Hl Hw2 Hmsg.
  apply parse_line_raises. split; [reflexivity|].
  exists (ts_text y1 y2 y3 y4 m1 m2 d1 d2 h1 h2 i1 i2 s1 s2), level. split.
  - exists w1, w2, msg, []. rewrite app_nil_r.
    split; [exact E|]. split; [now apply ts_text_shape|]. auto 10.
  - rewrite strptime_ts_text by assumption. now rewrite Hbad.
Qed.


(** ** parse_line: trailing newlines, the other outcomes, the result *)

Lemma rstrip_nl_app_newline s : rstrip_nl (s ++ [NL]) = rstrip_nl s.
Proof.
  induction s as [|c s IH]; [reflexivity|].
  cbn [app rstrip_nl]. now rewrite IH.
Qed.

Lemma rstrip_nl_app_newlines s n : rstrip_nl (s ++ repeat NL n) = rstrip_nl s.
Proof.
  induction n as [|n IH]; cbn [repeat]; [now rewrite app_nil_r|].
  rewrite repeat_cons, app_assoc, rstrip_nl_app_newline. exact IH.
Qed.

(** X1: [parse_line] reads a line the same way however many newline
    characters end it. *)
Theorem parse_line_trailing_newlines line n :
  parse_line (line ++ repeat NL n) = parse_line line.
Proof. unfold parse_line. now rewrite rstrip_nl_app_newlines. Qed.

(** X2: the two other outcomes of [parse_line]. It returns [None]
    exactly for the lines that do not have the shape of a record, and it
    raises exactly for the lines that have the shape and whose timestamp
    [strptime] refuses; what it raises is then [ValueError], never
    anything else. *)
Theorem parse_line_none_or_raise line :
  (parse_line line = Ok None <->
   ~ exists ts level, line_shape (rstrip_nl line) ts level)
  /\ (forall e,
         parse_line line = Raise e <->
         e = ValueError
         /\ exists ts level,
             line_shape (rstrip_nl line) ts level
             /\ strptime ts TS_FORMAT = Raise ValueError).
Proof.
  split; [apply parse_line_no_match | intros e; apply parse_line_raises].
Qed.

Lemma parse_line_none_or_raise_witness :
  exists ts level,
    line_shape (rstrip_nl (lit "2026-02-30 10:00:00 [ERROR] x" ++ nl))
               ts level
    /\ strptime ts TS_FORMAT = Raise ValueError.
Proof.
  refine (proj2 (proj1 (proj2 (parse_line_none_or_raise
                                 (lit "2026-02-30 10:00:00 [ERROR] x" ++ nl))
                          ValueError) _)).
  vm_compute. reflexivity.
Defined.

Lemma strptime_valid s f t : strptime s f = Ok t -> valid_datetime t = true.
Proof.
  unfold strptime.
  destruct (pattern f); [|discriminate].
  destruct (re_match _ s) as [[found_end g]|]; [|discriminate].
  destruct (negb _); [discriminate|].
  unfold rbind.
  repeat match goal with
         | |- context [int_group ?g ?nm ?d] =>
             destruct (int_group g nm d); [|discriminate]
         end.
  destruct (_ && _) eqn:E; [|discriminate].
  intros [= <-]. exact E.
Qed.

(** X3: what [parse_line] returns for a matched line is a datetime of
    the calendar (its fields pass the checks of the [datetime]
    constructor) and one of the three levels. *)
Theorem parse_line_result_valid line ts level :
  parse_line line = Ok (Some (ts, level)) ->
  valid_datetime ts = true /\ In level LEVELS.
Proof.
  intros H. split; [|exact (parse_line_level _ H)].
  apply parse_line_match in H as (ts_text & _ & H).
  exact (strptime_valid _ _ _ H).
Qed.

Lemma parse_line_result_valid_witness :
  valid_datetime (mk_datetime 2026 2 6 13 45 1) = true
  /\ In (lit "INFO") LEVELS.
Proof.
  apply (parse_line_result_valid (single_line ++ nl)).
  vm_compute. reflexivity.
Defined.

(** ** The loop over the lines *)

Lemma scan_lines_cons line lines s :
  scan_lines (line :: lines) s =
  match parse_line line with
  | Ok (Some (ts, level)) => scan_lines lines (after_match ts level s)
  | Ok None => scan_lines lines (after_skip s)
  | Raise e => Raise e
  end.
Proof.
  cbn [scan_lines]. unfold rbind. rewrite scan_line_eq.
  now destruct (parse_line line) as [[[ts level]|]|e].
Qed.

Lemma count_cons A (f : A -> bool) x l :
  count f (x :: l) = (b2z (f x) + count f l)%Z.
Proof. unfold count, b2z. cbn [filter]. destruct (f x); cbn [length]; lia. Qed.

Lemma count_nil A (f : A -> bool) : count f [] = 0%Z.
Proof. reflexivity. Qed.

Lemma count_app A (f : A -> bool) l1 l2 :
  count f (l1 ++ l2) = (count f l1 + count f l2)%Z.
Proof. unfold count. rewrite filter_app, length_app. lia. Qed.

Lemma level_bumps_eq level :
  level_bumps level
  = (b2z (str_eqb level (lit "INFO")), b2z (str_eqb level (lit "WARNING")),
     b2z (str_eqb level (lit "ERROR"))).
Proof.
  unfold level_bumps.
  destruct (str_eqb level (lit "INFO")) eqn:E1.
  { apply str_eqb_eq in E1. subst level. reflexivity. }
  destruct (str_eqb level (lit "WARNING")) eqn:E2.
  { apply str_eqb_eq in E2. subst level. reflexivity. }
  destruct (str_eqb level (lit "ERROR")); reflexivity.
Qed.

Lemma sort_matched line ts level :
  parse_line line = Ok (Some (ts, level)) ->
  is_matched line = true /\ is_skipped line = false
  /\ forall l, has_level l line = str_eqb level l.
Proof.
  intros E. unfold is_matched, is_skipped, has_level. rewrite E. auto.
Qed.

Lemma sort_skipped line :
  parse_line line = Ok None ->
  is_matched line = false /\ is_skipped line = true
  /\ forall l, has_level l line = false.
Proof.
  intros E. unfold is_matched, is_skipped, has_level. rewrite E. auto.
Qed.

Lemma scan_lines_counts lines : forall s0 s,
  scan_lines lines s0 = Ok s ->
  (files_processed s = files_processed s0
   /\ lines_seen s = lines_seen s0 + Z.of_nat (length lines)
   /\ lines_matched s = lines_matched s0 + count is_matched lines
   /\ lines_skipped s = lines_skipped s0 + count is_skipped lines
   /\ info s = info s0 + count (has_level (lit "INFO")) lines
   /\ warning s = warning s0 + count (has_level (lit "WARNING")) lines
   /\ error s = error s0 + count (has_level (lit "ERROR")) lines)%Z.
Proof.
  induction lines as [|line lines IH]; intros s0 s.
  - intros [= <-]. rewrite !count_nil. cbn [length]. repeat split; lia.
  - rewrite scan_lines_cons, !count_cons.
    destruct (parse_line line) as [[[ts level]|]|e] eqn:E; [| |discriminate];
      intros H; apply IH in H;
      destruct H as (H1 & H2 & H3 & H4 & H5 & H6 & H7);
      rewrite H1, H2, H3, H4, H5, H6, H7.
    + destruct (sort_matched _ _ _ E) as (-> & -> & Hl). rewrite !Hl.
      unfold after_match. rewrite level_bumps_eq.
      cbn [files_processed lines_seen lines_matched lines_skipped info
           warning error].
      change (b2z true) with 1%Z. change (b2z false) with 0%Z.
      cbn [length]. rewrite Nat2Z.inj_succ. repeat split; lia.
    + destruct (sort_skipped _ E) as (-> & -> & Hl). rewrite !Hl.
      cbn [after_skip files_processed lines_seen lines_matched lines_skipped
           info warning error].
      change (b2z true) with 1%Z. change (b2z false) with 0%Z.
      cbn [length]. rewrite Nat2Z.inj_succ. repeat split; lia.
Qed.

Lemma timestamps_cons line lines :
  timestamps (line :: lines) =
  match parse_line line with
  | Ok (Some (ts, _)) => ts :: timestamps lines
  | _ => timestamps lines
  end.
Proof.
  unfold timestamps. cbn [flat_map].
  now destruct (parse_line line) as [[[ts level]|]|e].
Qed.

Lemma timestamps_app l1 l2 :
  timestamps (l1 ++ l2) = timestamps l1 ++ timestamps l2.
Proof. unfold timestamps. apply flat_map_app. Qed.

Lemma is_min_step e x ts T :
  is_min e (dt_min ts x :: T) -> is_min e (x :: ts :: T).
Proof.
  intros [Hin Hle]. split.
  - destruct Hin as [<- | Hin]; [|now right; right].
    destruct (dt_min_cases ts x) as [-> | ->]; [right; now left | now left].
  - assert (H0 : dt_leb e (dt_min ts x) = true) by (apply Hle; now left).
    intros t [<- | [<- | Ht]].
    + apply dt_leb_trans with (dt_min ts x); [assumption | apply dt_min_r].
    + apply dt_leb_trans with (dt_min ts x); [assumption | apply dt_min_l].
    + apply Hle. now right.
Qed.

Lemma is_max_step e x ts T :
  is_max e (dt_max ts x :: T) -> is_max e (x :: ts :: T).
Proof.
  intros [Hin Hle]. split.
  - destruct Hin as [<- | Hin]; [|now right; right].
    destruct (dt_max_cases ts x) as [-> | ->]; [right; now left | now left].
  - assert (H0 : dt_leb (dt_max ts x) e = true) by (apply Hle; now left).
    intros t [<- | [<- | Ht]].
    + apply dt_leb_trans with (dt_max ts x); [apply dt_max_r | assumption].
    + apply dt_leb_trans with (dt_max ts x); [apply dt_max_l | assumption].
    + apply Hle. now right.
Qed.

Lemma scan_lines_bounds lines : forall s0 s,
  scan_lines lines s0 = Ok s ->
  extreme_is is_min (earliest s) (opt_list (earliest s0) ++ timestamps lines)
  /\ extreme_is is_max (latest s) (opt_list (latest s0) ++ timestamps lines).
Proof.
  induction lines as [|line lines IH]; intros s0 s.
  - intros [= <-]. cbn [timestamps flat_map]. rewrite !app_nil_r.
    split.
    + destruct (earliest s0) as [x|]; cbn; [|reflexivity].
      exists x. split; [reflexivity|]. split; [now left|].
      intros t [<- | []]. apply dt_leb_refl.
    + destruct (latest s0) as [x|]; cbn; [|reflexivity].
      exists x. split; [reflexivity|]. split; [now left|].
      intros t [<- | []]. apply dt_leb_refl.
  - rewrite scan_lines_cons, timestamps_cons.
    destruct (parse_line line) as [[[ts level]|]|e]; [| |discriminate];
      intros H; apply IH in H; destruct H as [He Hl].
    + unfold after_match in He, Hl. destruct (level_bumps level) as [[i w] e].
      cbn [earliest latest] in He, Hl. split.
      * destruct (earliest s0) as [x|]; cbn [opt_list app] in *;
          [|exact He].
        destruct He as (m & Hm & Hmin). exists m. split; [assumption|].
        now apply is_min_step.
      * destruct (latest s0) as [x|]; cbn [opt_list app] in *;
          [|exact Hl].
        destruct Hl as (m & Hm & Hmax). exists m. split; [assumption|].
        now apply is_max_step.
    + cbn [after_skip earliest latest] in He, Hl. now split.
Qed.

(** ** The loop over the files *)

Lemma set_files_processed_same s :
  set_files_processed s (files_processed s) = s.
Proof. now destruct s. Qed.

Lemma set_files_processed_twice s v w :
  set_files_processed (set_files_processed s v) w = set_files_processed s w.
Proof. reflexivity. Qed.

Lemma scan_lines_set_files_processed lines : forall s v,
  scan_lines lines (set_files_processed s v)
  = match scan_lines lines s with
    | Ok s' => Ok (set_files_processed s' v)
    | Raise e => Raise e
    end.
Proof.
  induction lines as [|line lines IH]; intros s v; [reflexivity|].
  rewrite !scan_lines_cons.
  destruct (parse_line line) as [[[ts level]|]|e]; [| |reflexivity].
  - rewrite <- IH. f_equal. unfold after_match.
    now destruct (level_bumps level) as [[i w] e].
  - rewrite <- IH. reflexivity.
Qed.

Lemma scan_lines_Ok_iff lines : forall s0,
  (exists s, scan_lines lines s0 = Ok s) <->
  (forall line, In line lines -> exists r, parse_line line = Ok r).
Proof.
  induction lines as [|line lines IH]; intros s0.
  - split; [intros _ line [] | intros _; now exists s0].
  - rewrite scan_lines_cons. split.
    + intros [s H] l [<- | Hl].
      * destruct (parse_line line) as [r|e]; [now exists r | discriminate].
      * destruct (parse_line line) as [[[ts level]|]|e]; [| |discriminate];
          (eapply IH; [eexists; eassumption | assumption]).
    + intros H. destruct (H line (or_introl eq_refl)) as [r ->].
      destruct r as [[ts level]|]; apply IH; intros l Hl; apply H; now right.
Qed.

Lemma scan_file_readable fs p s tr lines :
  stat fs p = Ok (Some (RegularFile (Some lines))) ->
  scan_file fs p s tr
  = (match scan_lines lines s with
     | Ok s' => Ok (set_files_processed s' (files_processed s + 1))
     | Raise e => Raise e
     end, tr ++ [ev_open p]).
Proof.
  intros H. unfold scan_file, bind, lift. rewrite open_eq, H.
  now rewrite scan_lines_set_files_processed.
Qed.

Lemma scan_file_unreadable fs p s tr :
  ~ readable fs p -> scan_file fs p s tr = (Raise OSError, tr ++ [ev_open p]).
Proof.
  intros H. unfold scan_file, bind, lift. rewrite open_eq.
  destruct (stat fs p) as [[[[lines|] | | |]|]|e] eqn:E; try reflexivity.
  - destruct H. now exists lines.
  - now rewrite (stat_raises _ _ _ E).
Qed.

Lemma all_lines_cons fs p files lines :
  stat fs p = Ok (Some (RegularFile (Some lines))) ->
  all_lines fs (p :: files) = lines ++ all_lines fs files.
Proof. intros H. unfold all_lines, lines_of. cbn [flat_map]. now rewrite H. Qed.

(** A loop over the files that returns has opened every file, in order,
    and has done to the summary what scanning all their lines in one go
    does, [files_processed] apart. *)
Lemma for_each_scan_Ok fs files : forall s0 tr s tr',
  for_each files (scan_file fs) s0 tr = (Ok s, tr') ->
  Forall (readable fs) files
  /\ scan_lines (all_lines fs files) s0
     = Ok (set_files_processed s (files_processed s0))
  /\ files_processed s = (files_processed s0 + Z.of_nat (length files))%Z
  /\ tr' = tr ++ List.map ev_open files.
Proof.
  induction files as [|p files IH]; intros s0 tr s tr'.
  - cbn [for_each]. unfold ret. intros [= <- <-].
    rewrite set_files_processed_same, app_nil_r. cbn. repeat split; auto; lia.
  - cbn [for_each]. unfold bind.
    destruct (stat fs p) as [[[[lines|] | | |]|]|e] eqn:Hp;
      try (rewrite scan_file_unreadable
             by (intros [l Hl]; congruence); discriminate).
    rewrite (scan_file_readable _ _ _ _ _ Hp).
    destruct (scan_lines lines s0) as [sa|e] eqn:Ea; [|discriminate].
    intros H. apply IH in H as (Hr & Hs & Hf & Ht).
    cbn [files_processed set_files_processed] in Hs, Hf.
    rewrite scan_lines_set_files_processed in Hs.
    destruct (scan_lines (all_lines fs files) sa) as [sb|e] eqn:Eb;
      [|discriminate].
    assert (Hs' := f_equal
              (fun r => match r with
                        | Ok x => set_files_processed x (files_processed s0)
                        | Raise _ => s
                        end) Hs).
    cbn beta iota in Hs'. rewrite !set_files_processed_twice in Hs'.
    destruct (scan_lines_counts _ _ _ Ea) as (Fa & _).
    destruct (scan_lines_counts _ _ _ Eb) as (Fb & _).
    assert (Hsb : set_files_processed sb (files_processed s0) = sb)
      by (rewrite <- Fa, <- Fb; apply set_files_processed_same).
    rewrite Hsb in Hs'.
    repeat split.
    + constructor; [now exists lines | assumption].
    + rewrite (all_lines_cons _ _ _ _ Hp), scan_lines_app, Ea. cbn [rbind].
      rewrite Eb. now rewrite Hs'.
    + rewrite Hf. cbn [length]. lia.
    + rewrite Ht, <- app_assoc. reflexivity.
Qed.

Lemma for_each_scan_complete fs files : forall s0 tr s1,
  Forall (readable fs) files ->
  scan_lines (all_lines fs files) s0 = Ok s1 ->
  for_each files (scan_file fs) s0 tr
  = (Ok (set_files_processed s1
           (files_processed s0 + Z.of_nat (length files))),
     tr ++ List.map ev_open files).
Proof.
  induction files as [|p files IH]; intros s0 tr s1 Hr Hs.
  - cbn in Hs. injection Hs as <-. cbn [for_each length List.map]. unfold ret.
    now rewrite Z.add_0_r, set_files_processed_same, app_nil_r.
  - inversion Hr as [|p' files' [lines Hp] Hr']; subst.
    rewrite (all_lines_cons _ _ _ _ Hp), scan_lines_app in Hs.
    destruct (scan_lines lines s0) as [sa|e] eqn:Ea; [|discriminate].
    cbn [rbind] in Hs.
    cbn [for_each]. unfold bind.
    rewrite (scan_file_readable _ _ _ _ _ Hp), Ea.
    rewrite (IH _ _ (set_files_processed s1 (files_processed s0 + 1)) Hr').
    + cbn [files_processed set_files_processed length List.map].
      rewrite <- app_assoc. cbn [app]. f_equal.
      rewrite set_files_processed_twice. f_equal. f_equal. lia.
    + rewrite scan_lines_set_files_processed. now rewrite Hs.
Qed.

(** ** The scan as a whole *)

Lemma listed_cases fs directory entries :
  listed fs directory entries ->
  stat fs directory = Ok (Some (Directory entries))
  \/ (stat fs directory = Ok (Some (Protected ListOnly [])) /\ entries = []).
Proof.
  intros (n & E & El & Hc).
  apply listing_cases in El as [-> | ->]; [now left|]. right.
  destruct entries as [|[nm x] entries]; [now split|]. exfalso.
  destruct (Hc (joinpath directory nm)) as [y Hy]; [now left|].
  now rewrite (stat_child_list_only _ _ _ nm E) in Hy.
Qed.

Lemma listed_dir fs directory entries :
  stat fs directory = Ok (Some (Directory entries)) ->
  listed fs directory entries.
Proof.
  intros E. exists (Directory entries). split; [assumption|].
  split; [reflexivity|]. now apply children_stat.
Qed.

Lemma iter_log_files_listed fs directory entries tr :
  listed fs directory entries ->
  iter_log_files fs directory tr
  = (Ok (sorted (filter (is_log_file fs) (children directory entries))),
     tr ++ ev_iterdir directory
        :: List.map ev_is_file (children directory entries)).
Proof.
  intros H. apply listed_cases in H as [E | [E ->]].
  - now apply iter_log_files_dir.
  - now rewrite (iter_log_files_list_only _ _ _ _ E).
Qed.

Lemma iter_log_files_Ok_listed fs directory tr files tr' :
  iter_log_files fs directory tr = (Ok files, tr') ->
  exists entries,
    listed fs directory entries
    /\ files = sorted (filter (is_log_file fs) (children directory entries)).
Proof.
  intros H.
  pose proof (iter_log_files_Ok_dir _ _ _ _ _ H) as [[entries E] | [E ->]].
  - exists entries. split; [now apply listed_dir|].
    rewrite (iter_log_files_dir _ _ _ _ E) in H. now injection H as <- _.
  - exists []. split; [|reflexivity].
    exists (Protected ListOnly []). split; [assumption|].
    split; [reflexivity | intros p []].
Qed.


Lemma iter_log_files_Ok fs directory files :
  fst (iter_log_files fs directory []) = Ok files ->
  exists entries,
    listed fs directory entries
    /\ files = sorted (filter (is_log_file fs) (children directory entries)).
Proof.
  destruct (iter_log_files fs directory []) as [r tr'] eqn:E.
  cbn [fst]. intros ->. eapply iter_log_files_Ok_listed; eassumption.
Qed.

Lemma summarize_directory_listed fs directory tr entries :
  listed fs directory entries ->
  summarize_directory fs directory tr
  = for_each (sorted (filter (is_log_file fs) (children directory entries)))
      (scan_file fs) Summary_new
      (tr ++ [ev_exists directory; ev_is_dir directory]
          ++ ev_iterdir directory
             :: List.map ev_is_file (children directory entries)).
Proof.
  intros H. pose proof H as (n & E & El & _).
  assert (Hn : is_directory n = true)
    by (apply listing_cases in El as [-> | ->]; reflexivity).
  rewrite (summarize_directory_checks _ _ _ _ E Hn).
  rewrite (bind_of_Ok _ _ _ _ _ _ _ (iter_log_files_listed _ _ _ _ H)).
  now rewrite <- !app_assoc.
Qed.

Lemma summarize_directory_returns fs directory tr s tr' :
  summarize_directory fs directory tr = (Ok s, tr') <->
  exists entries files s1,
    listed fs directory entries
    /\ fst (iter_log_files fs directory []) = Ok files
    /\ Forall (readable fs) files
    /\ scan_lines (all_lines fs files) Summary_new = Ok s1
    /\ s = set_files_processed s1 (Z.of_nat (length files))
    /\ tr' = tr ++ scan_trace directory entries files.
Proof.
  split.
  - intros H. pose proof H as H0.
    apply summarize_directory_Ok in H0 as (files0 & tr0 & Hi & _).
    apply iter_log_files_Ok_listed in Hi as (entries & Hl & _).
    rewrite (summarize_directory_listed _ _ _ _ Hl) in H.
    apply for_each_scan_Ok in H as (Hr & Hs & Hf & Ht).
    cbn [files_processed Summary_new] in Hs, Hf.
    eexists entries, _, _. split; [assumption|].
    split; [now rewrite (iter_log_files_listed _ _ _ _ Hl)|].
    split; [exact Hr|]. split; [exact Hs|]. split.
    + rewrite Z.add_0_l in Hf.
      rewrite set_files_processed_twice, <- Hf.
      symmetry. apply set_files_processed_same.
    + rewrite Ht. unfold scan_trace. now rewrite <- !app_assoc.
  - intros (entries & files & s1 & E & Hfiles & Hr & Hs & -> & ->).
    rewrite (iter_log_files_listed _ _ _ _ E) in Hfiles.
    injection Hfiles as <-.
    rewrite (summarize_directory_listed _ _ _ _ E).
    rewrite (for_each_scan_complete _ _ _ _ _ Hr Hs).
    cbn [files_processed Summary_new]. unfold scan_trace.
    now rewrite <- !app_assoc.
Qed.


Lemma in_all_lines fs files line :
  In line (all_lines fs files) <->
  exists p, In p files /\ In line (lines_of fs p).
Proof. unfold all_lines. apply in_flat_map. Qed.


(** X4: the number of files processed is the number of files the
    enumerator returned. *)
Theorem summarize_directory_files_processed fs directory tr s tr' :
  summarize_directory fs directory tr = (Ok s, tr') ->
  exists files,
    fst (iter_log_files fs directory []) = Ok files
    /\ files_processed s = Z.of_nat (length files).
Proof.
  intros H. apply summarize_directory_returns in H
    as (entries & files & s1 & _ & Hf & _ & _ & -> & _).
  exists files. split; [assumption | reflexivity].
Qed.

Lemma summarize_directory_files_processed_witness :
  exists s tr',
    summarize_directory demo_fs demo_dir [] = (Ok s, tr')
    /\ exists files,
        fst (iter_log_files demo_fs demo_dir []) = Ok files
        /\ files_processed s = Z.of_nat (length files).
Proof.
  eexists _, _. split.
  - vm_compute. reflexivity.
  - eapply (summarize_directory_files_processed demo_fs demo_dir []).
    vm_compute. reflexivity.
Defined.

(** X5: the counters of the Summary count the lines of the enumerated
    files as [parse_line] sorts them. *)
Theorem summarize_directory_tally fs directory tr s tr' :
  summarize_directory fs directory tr = (Ok s, tr') ->
  exists files,
    fst (iter_log_files fs directory []) = Ok files
    /\ lines_seen s = Z.of_nat (length (all_lines fs files))
    /\ lines_matched s = count is_matched (all_lines fs files)
    /\ lines_skipped s = count is_skipped (all_lines fs files)
    /\ info s = count (has_level (lit "INFO")) (all_lines fs files)
    /\ warning s = count (has_level (lit "WARNING")) (all_lines fs files)
    /\ error s = count (has_level (lit "ERROR")) (all_lines fs files).
Proof.
  intros H. apply summarize_directory_returns in H
    as (entries & files & s1 & _ & Hf & _ & Hs & -> & _).
  exists files. split; [assumption|].
  apply scan_lines_counts in Hs as (_ & H2 & H3 & H4 & H5 & H6 & H7).
  cbn [lines_seen lines_matched lines_skipped info warning error
       set_files_processed Summary_new] in *.
  rewrite H2, H3, H4, H5, H6, H7. repeat split; lia.
Qed.

Lemma summarize_directory_tally_witness :
  exists s tr',
    summarize_directory demo_fs demo_dir [] = (Ok s, tr')
    /\ exists files,
        fst (iter_log_files demo_fs demo_dir []) = Ok files
        /\ lines_seen s = Z.of_nat (length (all_lines demo_fs files))
        /\ lines_matched s = count is_matched (all_lines demo_fs files)
        /\ lines_skipped s = count is_skipped (all_lines demo_fs files)
        /\ info s = count (has_level (lit "INFO")) (all_lines demo_fs files)
        /\ warning s
           = count (has_level (lit "WARNING")) (all_lines demo_fs files)
        /\ error s
           = count (has_level (lit "ERROR")) (all_lines demo_fs files).
Proof.
  eexists _, _. split.
  - vm_compute. reflexivity.
  - eapply (summarize_directory_tally demo_fs demo_dir []).
    vm_compute. reflexivity.
Defined.

(** X6: earliest and latest are the least and the greatest of the
    timestamps of the matched lines, and absent when no line matched. *)
Theorem summarize_directory_extremes fs directory tr s tr' :
  summarize_directory fs directory tr = (Ok s, tr') ->
  exists files,
    fst (iter_log_files fs directory []) = Ok files
    /\ extreme_is is_min (earliest s) (timestamps (all_lines fs files))
    /\ extreme_is is_max (latest s) (timestamps (all_lines fs files)).
Proof.
  intros H. apply summarize_directory_returns in H
    as (entries & files & s1 & _ & Hf & _ & Hs & -> & _).
  exists files. split; [assumption|].
  apply scan_lines_bounds in Hs. exact Hs.
Qed.

Lemma summarize_directory_extremes_witness :
  exists s tr',
    summarize_directory demo_fs demo_dir [] = (Ok s, tr')
    /\ exists files,
        fst (iter_log_files demo_fs demo_dir []) = Ok files
        /\ extreme_is is_min (earliest s)
                      (timestamps (all_lines demo_fs files))
        /\ extreme_is is_max (latest s)
                      (timestamps (all_lines demo_fs files)).
Proof.
  eexists _, _. split.
  - vm_compute. reflexivity.
  - eapply (summarize_directory_extremes demo_fs demo_dir []).
    vm_compute. reflexivity.
Defined.

(** X7: the scan returns exactly when the directory can be enumerated,
    every enumerated file can be opened and [parse_line] raises on none
    of their lines. *)
Theorem summarize_directory_returns_iff fs directory tr :
  (exists s tr', summarize_directory fs directory tr = (Ok s, tr')) <->
  (exists files,
      fst (iter_log_files fs directory []) = Ok files
      /\ Forall (readable fs) files
      /\ forall line, In line (all_lines fs files) ->
                      exists r, parse_line line = Ok r).
Proof.
  split.
  - intros (s & tr' & H). apply summarize_directory_returns in H
      as (entries & files & s1 & _ & Hf & Hr & Hs & _).
    exists files. split; [assumption|]. split; [assumption|].
    apply (scan_lines_Ok_iff _ Summary_new). now exists s1.
  - intros (files & Hf & Hr & Hl).
    destruct (iter_log_files_Ok _ _ _ Hf) as (entries & E & _).
    apply (scan_lines_Ok_iff _ Summary_new) in Hl as [s1 Hs].
    eexists _, _. apply summarize_directory_returns.
    exists entries, files, s1. auto 10.
Qed.

Lemma summarize_directory_returns_iff_witness :
  exists files,
    fst (iter_log_files demo_fs demo_dir []) = Ok files
    /\ Forall (readable demo_fs) files
    /\ forall line, In line (all_lines demo_fs files) ->
                    exists r, parse_line line = Ok r.
Proof.
  apply (proj1 (summarize_directory_returns_iff demo_fs demo_dir [])).
  eexists _, _. vm_compute. reflexivity.
Defined.

(** X8: the filesystem operations of a scan that returns, in order: the
    two checks of the directory, its listing, one [is_file] per entry in
    the order of the listing, then one opening per log file in the order
    of the enumerator; nothing else. *)
Theorem summarize_directory_trace fs directory tr s tr' :
  summarize_directory fs directory tr = (Ok s, tr') ->
  exists n entries files,
    stat fs directory = Ok (Some n) /\ listing n = Some entries
    /\ fst (iter_log_files fs directory []) = Ok files
    /\ tr' = tr ++ [ev_exists directory; ev_is_dir directory;
                    ev_iterdir directory]
                ++ List.map ev_is_file (children directory entries)
                ++ List.map ev_open files.
Proof.
  intros H. apply summarize_directory_returns in H
    as (entries & files & s1 & (n & E & El & _) & Hf & _ & _ & _ & ->).
  now exists n, entries, files.
Qed.

Lemma summarize_directory_trace_witness :
  exists s tr',
    summarize_directory demo_fs demo_dir [] = (Ok s, tr')
    /\ exists n entries files,
        stat demo_fs demo_dir = Ok (Some n) /\ listing n = Some entries
        /\ fst (iter_log_files demo_fs demo_dir []) = Ok files
        /\ tr' = [] ++ [ev_exists demo_dir; ev_is_dir demo_dir;
                        ev_iterdir demo_dir]
                    ++ List.map ev_is_file (children demo_dir entries)
                    ++ List.map ev_open files.
Proof.
  eexists _, _. split.
  - vm_compute. reflexivity.
  - eapply (summarize_directory_trace demo_fs demo_dir []).
    vm_compute. reflexivity.
Defined.



(** X10: the Summary depends on the lines of the enumerated files as a
    multiset, and on the number of files, only. *)
Theorem summarize_directory_lines_multiset
        fs directory tr s tr' fs' directory' tr0 s' tr0' files files' :
  summarize_directory fs directory tr = (Ok s, tr') ->
  summarize_directory fs' directory' tr0 = (Ok s', tr0') ->
  fst (iter_log_files fs directory []) = Ok files ->
  fst (iter_log_files fs' directory' []) = Ok files' ->
  length files = length files' ->
  Permutation (all_lines fs files) (all_lines fs' files') ->
  s = s'.
Proof.
  intros H H' Hf Hf' Hlen HP.
  apply summarize_directory_returns in H
    as (entries & fl & s1 & _ & Hf1 & _ & Hs & -> & _).
  apply summarize_directory_returns in H'
    as (entries' & fl' & s1' & _ & Hf1' & _ & Hs' & -> & _).
  assert (fl = files) by congruence. assert (fl' = files') by congruence.
  subst fl fl'. rewrite (scan_lines_Permutation _ _ HP) in Hs.
  rewrite Hlen. congruence.
Qed.

Lemma summarize_directory_lines_multiset_witness :
  exists s s',
    fst (summarize_directory demo_fs demo_dir []) = Ok s
    /\ fst (summarize_directory demo_fs_regrouped demo_dir []) = Ok s'
    /\ s = s'.
Proof.
  eexists _, _. split; [vm_compute; reflexivity|].
  split; [vm_compute; reflexivity|].
  eapply (summarize_directory_lines_multiset
            demo_fs demo_dir [] _ _ demo_fs_regrouped demo_dir [] _ _).
  - vm_compute. reflexivity.
  - vm_compute. reflexivity.
  - vm_compute. reflexivity.
  - vm_compute. reflexivity.
  - reflexivity.
  - vm_compute.
    match goal with |- Permutation ?a _ => exact (Permutation_rev a) end.
Defined.

(** X11: with no log file in the directory the scan returns the fresh
    Summary. *)
Theorem summarize_directory_no_log_file fs directory tr :
  fst (iter_log_files fs directory []) = Ok [] ->
  fst (summarize_directory fs directory tr) = Ok Summary_new.
Proof.
  intros Hf. destruct (iter_log_files_Ok _ _ _ Hf) as (entries & E & _).
  assert (H : summarize_directory fs directory tr
              = (Ok Summary_new, tr ++ scan_trace directory entries [])).
  { apply summarize_directory_returns. exists entries, [], Summary_new.
    repeat split; auto. }
  now rewrite H.
Qed.

Lemma summarize_directory_no_log_file_witness :
  fst (summarize_directory demo_fs [lit "empty"] []) = Ok Summary_new.
Proof.
  apply summarize_directory_no_log_file. vm_compute. reflexivity.
Defined.

(** ** The enumerator and the order of the listing *)

Lemma path_le_antisym a b : path_le a b -> path_le b a -> a = b.
Proof.
  unfold path_le. rewrite (path_compare_antisym a b).
  destruct (path_compare a b) eqn:E; cbn; try congruence.
  intros _ _. now apply path_compare_eq.
Qed.

Lemma path_le_refl a : path_le a a.
Proof.
  unfold path_le. assert (path_compare a a = Eq) by now apply path_compare_eq.
  congruence.
Qed.

Lemma StronglySorted_head_le a l x :
  StronglySorted path_le (a :: l) -> In x (a :: l) -> path_le a x.
Proof.
  intros H [<- | Hx]; [apply path_le_refl|].
  apply StronglySorted_inv in H as [_ H].
  rewrite Forall_forall in H. now apply H.
Qed.

Lemma sorted_unique l1 : forall l2,
  StronglySorted path_le l1 -> StronglySorted path_le l2 ->
  Permutation l1 l2 -> l1 = l2.
Proof.
  induction l1 as [|a l1 IH]; intros l2 H1 H2 HP.
  - apply Permutation_nil in HP. now subst.
  - destruct l2 as [|b l2];
      [apply Permutation_sym, Permutation_nil in HP; discriminate|].
    assert (a = b).
    { apply path_le_antisym.
      - apply (StronglySorted_head_le _ _ _ H1).
        apply (Permutation_in _ (Permutation_sym HP)). now left.
      - apply (StronglySorted_head_le _ _ _ H2).
        apply (Permutation_in _ HP). now left. }
    subst b. f_equal. apply IH.
    + now apply StronglySorted_inv in H1.
    + now apply StronglySorted_inv in H2.
    + now apply Permutation_cons_inv in HP.
Qed.

Lemma filter_Permutation A (f : A -> bool) l l' :
  Permutation l l' -> Permutation (filter f l) (filter f l').
Proof.
  induction 1 as [| x l l' _ IH | x y l | l l' l'' _ IH1 _ IH2]; cbn.
  - constructor.
  - destruct (f x); [now constructor | assumption].
  - destruct (f x), (f y); try reflexivity. apply perm_swap.
  - now transitivity (filter f l').
Qed.

Lemma sorted_filter_Permutation f g l l' :
  Permutation l l' -> (forall p, In p l -> f p = g p) ->
  sorted (filter f l) = sorted (filter g l').
Proof.
  intros HP Hfg. rewrite (filter_ext_in _ _ _ Hfg).
  apply sorted_unique; try apply sorted_StronglySorted.
  rewrite !sorted_Permutation. now apply filter_Permutation.
Qed.

Lemma log_files_listing_order fs fs' directory entries entries' :
  Permutation (List.map fst entries) (List.map fst entries') ->
  (forall nm, In nm (List.map fst entries) ->
              stat fs (joinpath directory nm)
              = stat fs' (joinpath directory nm)) ->
  sorted (filter (is_log_file fs) (children directory entries))
  = sorted (filter (is_log_file fs') (children directory entries')).
Proof.
  intros HP Hstat. apply sorted_filter_Permutation.
  - unfold children. rewrite <- !(map_map fst (joinpath directory)).
    now apply Permutation_map.
  - intros p Hp. unfold children in Hp.
    rewrite <- (map_map fst (joinpath directory)) in Hp.
    apply in_map_iff in Hp as (nm & <- & Hnm).
    unfold is_log_file. now rewrite (Hstat nm Hnm).
Qed.

(** X12: what the enumerator returns does not depend on the order in
    which the system lists the directory. *)
Theorem iter_log_files_listing_order
        fs fs' directory entries entries' tr tr' :
  stat fs directory = Ok (Some (Directory entries)) ->
  stat fs' directory = Ok (Some (Directory entries')) ->
  Permutation (List.map fst entries) (List.map fst entries') ->
  (forall nm, In nm (List.map fst entries) ->
              stat fs (joinpath directory nm)
              = stat fs' (joinpath directory nm)) ->
  fst (iter_log_files fs directory tr) = fst (iter_log_files fs' directory tr').
Proof.
  intros E E' HP Hstat.
  rewrite (iter_log_files_dir _ _ _ _ E), (iter_log_files_dir _ _ _ _ E').
  cbn [fst]. f_equal. now apply log_files_listing_order.
Qed.

Lemma iter_log_files_listing_order_witness :
  fst (iter_log_files demo_fs demo_dir [])
  = fst (iter_log_files demo_fs_relisted demo_dir []).
Proof.
  eapply (iter_log_files_listing_order demo_fs demo_fs_relisted demo_dir).
  - vm_compute. reflexivity.
  - vm_compute. reflexivity.
  - vm_compute.
    match goal with |- Permutation ?a _ => exact (Permutation_rev a) end.
  - intros nm Hin. cbv in Hin.
    repeat (destruct Hin as [<- | Hin]; [vm_compute; reflexivity|]).
    destruct Hin.
Defined.

Lemma scan_file_stat fs fs' p s tr tr' :
  stat fs p = stat fs' p ->
  fst (scan_file fs p s tr) = fst (scan_file fs' p s tr').
Proof.
  intros H. unfold scan_file, bind, lift. rewrite !open_eq, <- H.
  now destruct (stat fs p) as [[[[lines|] | | |]|]|e].
Qed.

Lemma for_each_scan_stat fs fs' files : forall s tr tr',
  (forall p, In p files -> stat fs p = stat fs' p) ->
  fst (for_each files (scan_file fs) s tr)
  = fst (for_each files (scan_file fs') s tr').
Proof.
  induction files as [|p files IH]; intros s tr tr' H; [reflexivity|].
  cbn [for_each]. unfold bind.
  pose proof (scan_file_stat fs fs' p s tr tr' (H p (or_introl eq_refl))) as E.
  destruct (scan_file fs p s tr) as [[s1|e1] tr1],
           (scan_file fs' p s tr') as [[s2|e2] tr2];
    cbn [fst] in E; try discriminate.
  - injection E as <-. apply IH. intros q Hq. apply H. now right.
  - exact E.
Qed.

(** X13: what the scan returns does not depend on the order in which the
    system lists the directory. *)
Theorem summarize_directory_listing_order
        fs fs' directory entries entries' tr tr' :
  stat fs directory = Ok (Some (Directory entries)) ->
  stat fs' directory = Ok (Some (Directory entries')) ->
  Permutation (List.map fst entries) (List.map fst entries') ->
  (forall nm, In nm (List.map fst entries) ->
              stat fs (joinpath directory nm)
              = stat fs' (joinpath directory nm)) ->
  fst (summarize_directory fs directory tr)
  = fst (summarize_directory fs' directory tr').
Proof.
  intros E E' HP Hstat.
  rewrite (summarize_directory_dir _ _ _ _ E),
    (summarize_directory_dir _ _ _ _ E'),
    <- (log_files_listing_order _ _ _ _ _ HP Hstat).
  apply for_each_scan_stat. intros p Hp.
  apply (Permutation_in _ (sorted_Permutation _)) in Hp.
  apply filter_In in Hp as [Hp _]. unfold children in Hp.
  apply in_map_iff in Hp as (e & <- & He). apply Hstat. now apply in_map.
Qed.

Lemma summarize_directory_listing_order_witness :
  fst (summarize_directory demo_fs demo_dir [])
  = fst (summarize_directory demo_fs_relisted demo_dir []).
Proof.
  eapply (summarize_directory_listing_order demo_fs demo_fs_relisted demo_dir).
  - vm_compute. reflexivity.
  - vm_compute. reflexivity.
  - vm_compute.
    match goal with |- Permutation ?a _ => exact (Permutation_rev a) end.
  - intros nm Hin. cbv in Hin.
    repeat (destruct Hin as [<- | Hin]; [vm_compute; reflexivity|]).
    destruct Hin.
Defined.

(** ** Lines whose timestamp is written in ASCII digits *)

(** X14: on a line of the grammar whose timestamp is written with ASCII
    digits, [parse_line] returns the datetime of the fields when they make
    a date and a time of day, and raises [ValueError] when they do not. *)
Theorem parse_line_ascii_timestamp
        y1 y2 y3 y4 m1 m2 d1 d2 h1 h2 i1 i2 s1 s2 w1 w2 level msg line :
  ascii_digit y1 -> ascii_digit y2 -> ascii_digit y3 -> ascii_digit y4 ->
  ascii_digit m1 -> ascii_digit m2 -> ascii_digit d1 -> ascii_digit d2 ->
  ascii_digit h1 -> ascii_digit h2 -> ascii_digit i1 -> ascii_digit i2 ->
  ascii_digit s1 -> ascii_digit s2 ->
  rstrip_nl line
  = ts_text y1 y2 y3 y4 m1 m2 d1 d2 h1 h2 i1 i2 s1 s2
    ++ w1 ++ lit "[" ++ level ++ lit "]" ++ w2 ++ msg ->
  run1 isspace w1 -> In level LEVELS -> run1 isspace w2 -> no_newline msg ->
  parse_line line
  = if check_date_fields (num4 y1 y2 y3 y4) (num2 m1 m2) (num2 d1 d2)
       && check_time_fields (num2 h1 h2) (num2 i1 i2) (num2 s1 s2)
    then Ok (Some (mk_datetime (num4 y1 y2 y3 y4) (num2 m1 m2) (num2 d1 d2)
                     (num2 h1 h2) (num2 i1 i2) (num2 s1 s2), level))
    else Raise ValueError.
Proof.
  intros Hy1 Hy2 Hy3 Hy4 Hm1 Hm2 Hd1 Hd2 Hh1 Hh2 Hi1 Hi2 Hs1 Hs2
         E Hw1 Hl Hw2 Hmsg.
  assert (Hshape : line_shape (rstrip_nl line)
                     (ts_text y1 y2 y3 y4 m1 m2 d1 d2 h1 h2 i1 i2 s1 s2)
                     level).
  { exists w1, w2, msg, []. rewrite app_nil_r.
    split; [exact E|]. split; [now apply ts_text_shape|]. auto 10. }
  pose proof (strptime_ts_text y1 y2 y3 y4 m1 m2 d1 d2 h1 h2 i1 i2 s1 s2
                Hy1 Hy2 Hy3 Hy4 Hm1 Hm2 Hd1 Hd2 Hh1 Hh2 Hi1 Hi2 Hs1 Hs2)
    as Hp.
  destruct (_ && _).
  - apply parse_line_match. eauto.
  - apply parse_line_raises. split; [reflexivity|]. eauto.
Qed.

Lemma parse_line_ascii_timestamp_witness :
  parse_line (lit "2024-02-29 23:59:59" ++ lit " " ++ lit "[" ++ lit "INFO"
              ++ lit "]" ++ lit " " ++ lit "leap day" ++ nl)
  = Ok (Some (mk_datetime 2024 2 29 23 59 59, lit "INFO"))
  /\ parse_line (lit "2026-02-29 23:59:59" ++ lit " " ++ lit "[" ++ lit "INFO"
                 ++ lit "]" ++ lit " " ++ lit "no leap day" ++ nl)
     = Raise ValueError.
Proof.
  split.
  - apply (parse_line_ascii_timestamp
             50%N 48%N 50%N 52%N 48%N 50%N 50%N 57%N
             50%N 51%N 53%N 57%N 53%N 57%N
             (lit " ") (lit " ") (lit "INFO") (lit "leap day"));
      try (unfold ascii_digit; simpl; tauto);
      try (vm_compute; reflexivity);
      try (split; [discriminate | reflexivity]).
  - apply (parse_line_ascii_timestamp
             50%N 48%N 50%N 54%N 48%N 50%N 50%N 57%N
             50%N 51%N 53%N 57%N 53%N 57%N
             (lit " ") (lit " ") (lit "INFO") (lit "no leap day"));
      try (unfold ascii_digit; simpl; tauto);
      try (vm_compute; reflexivity);
      try (split; [discriminate | reflexivity]).
Defined.

(** ** The report of a scan *)

Lemma timestamps_valid lines t :
  In t (timestamps lines) -> valid_datetime t = true.
Proof.
  unfold timestamps. rewrite in_flat_map. intros (line & _ & H).
  destruct (parse_line line) as [[[ts level]|]|e] eqn:E; try contradiction.
  destruct H as [<- | []].
  apply parse_line_match in E as (ts_text & _ & E).
  exact (strptime_valid _ _ _ E).
Qed.

Lemma ends_with_step (x r t : str) :
  (exists h, r = h ++ t) -> exists h, x ++ r = h ++ t.
Proof. intros [h ->]. exists (x ++ h). now rewrite app_assoc. Qed.

Lemma format_report_tail resolve directory s :
  exists head,
    fst (format_report resolve directory s)
    = head ++ report_tail
                (match earliest s with
                 | Some t => strftime_ts t
                 | None => lit "N/A"
                 end)
                (match latest s with
                 | Some t => strftime_ts t
                 | None => lit "N/A"
                 end).
Proof.
  unfold format_report. cbn [fst].
  do 35 apply ends_with_step. exists []. reflexivity.
Qed.

(** X15: the report of a scan ends with N/A for both bounds when no line
    matched, and otherwise with what [strftime] writes for earliest and
    for latest, two datetimes of the calendar, the first not after the
    second. [strptime] reads the text of a bound back as that bound when
    its year is 1000 or later, and refuses it when its year is below
    1000, the year being written without padding. *)
Theorem format_report_of_scan fs directory tr s tr' resolve :
  summarize_directory fs directory tr = (Ok s, tr') ->
  (lines_matched s = 0%Z
   /\ exists head,
       fst (format_report resolve directory s)
       = head ++ report_tail (lit "N/A") (lit "N/A"))
  \/ ((0 < lines_matched s)%Z
      /\ exists head e l,
          fst (format_report resolve directory s)
          = head ++ report_tail (strftime_ts e) (strftime_ts l)
          /\ earliest s = Some e /\ latest s = Some l
          /\ valid_datetime e = true /\ valid_datetime l = true
          /\ dt_leb e l = true
          /\ strptime (strftime_ts e) TS_FORMAT
             = (if (1000 <=? year e)%Z then Ok e else Raise ValueError)
          /\ strptime (strftime_ts l) TS_FORMAT
             = (if (1000 <=? year l)%Z then Ok l else Raise ValueError)).
Proof.
  intros H. destruct (format_report_tail resolve directory s) as [head Hh].
  pose proof H as H0.
  apply summarize_directory_Ok in H0 as (files0 & tr0 & _ & H0).
  apply for_each_scan_inv in H0 as [_ Hb]; [|apply Summary_new_inv].
  apply summarize_directory_returns in H
    as (entries & files & s1 & _ & _ & _ & Hs & Es & _).
  apply scan_lines_bounds in Hs as [Hmin Hmax].
  cbn [opt_list earliest latest Summary_new app] in Hmin, Hmax.
  assert (Ee : earliest s1 = earliest s) by now rewrite Es.
  assert (El : latest s1 = latest s) by now rewrite Es.
  rewrite Ee in Hmin. rewrite El in Hmax.
  destruct Hb as [(H0 & He & Hl) | (Hp & e & l & He & Hl & Hle)].
  - left. split; [assumption|]. exists head. now rewrite He, Hl in Hh.
  - right. split; [assumption|]. exists head, e, l.
    rewrite He, Hl in Hh. split; [assumption|].
    split; [assumption|]. split; [assumption|].
    rewrite He in Hmin. rewrite Hl in Hmax.
    destruct (timestamps (all_lines fs files)) as [|t0 T] eqn:ET;
      [discriminate Hmin|].
    destruct Hmin as (e' & [= <-] & Hin & _).
    destruct Hmax as (l' & [= <-] & Hin' & _).
    rewrite <- ET in Hin, Hin'.
    apply timestamps_valid in Hin, Hin'.
    split; [assumption|]. split; [assumption|]. split; [assumption|].
    split; now apply strptime_strftime.
Qed.

Lemma format_report_of_scan_witness :
  exists s tr',
    summarize_directory early_fs demo_dir [] = (Ok s, tr')
    /\ ((lines_matched s = 0%Z
         /\ exists head,
             fst (format_report (fun p => p) demo_dir s)
             = head ++ report_tail (lit "N/A") (lit "N/A"))
        \/ ((0 < lines_matched s)%Z
            /\ exists head e l,
                fst (format_report (fun p => p) demo_dir s)
                = head ++ report_tail (strftime_ts e) (strftime_ts l)
                /\ earliest s = Some e /\ latest s = Some l
                /\ valid_datetime e = true /\ valid_datetime l = true
                /\ dt_leb e l = true
                /\ strptime (strftime_ts e) TS_FORMAT
                   = (if (1000 <=? year e)%Z then Ok e
                      else Raise ValueError)
                /\ strptime (strftime_ts l) TS_FORMAT
                   = (if (1000 <=? year l)%Z then Ok l
                      else Raise ValueError))).
Proof.
  eexists _, _. split.
  - vm_compute. reflexivity.
  - eapply (format_report_of_scan early_fs demo_dir []).
    vm_compute. reflexivity.
Defined.

Lemma no_newline_app a b : no_newline a -> no_newline b -> no_newline (a ++ b).
Proof.
  unfold no_newline. intros Ha Hb. rewrite forallb_app.
  apply andb_true_iff. now split.
Qed.

Lemma newlines_app a b : newlines (a ++ b) = (newlines a + newlines b)%Z.
Proof. apply count_app. Qed.

Lemma no_newline_newlines s : no_newline s -> newlines s = 0%Z.
Proof.
  unfold no_newline, newlines, count.
  induction s as [|c s IH]; [reflexivity|].
  cbn [forallb filter]. intros H.
  apply andb_true_iff in H as [Hc Hs]. apply negb_true_iff in Hc.
  rewrite Hc. exact (IH Hs).
Qed.

Lemma uint_chars_no_newline d : no_newline (uint_chars d).
Proof. induction d; [reflexivity | exact IHd ..]. Qed.

Lemma str_of_int_no_newline z : no_newline (str_of_int z).
Proof.
  unfold str_of_int. destruct (Z.to_int z) as [d|d].
  - apply uint_chars_no_newline.
  - apply (no_newline_app (lit "-") (uint_chars d)); [reflexivity|].
    apply uint_chars_no_newline.
Qed.

Lemma zfill_no_newline width z : no_newline (zfill width z).
Proof.
  unfold zfill. apply no_newline_app; [|apply str_of_int_no_newline].
  induction (width - length (str_of_int z)) as [|n IH]; [reflexivity|exact IH].
Qed.

Lemma strftime_ts_no_newline t : no_newline (strftime_ts t).
Proof.
  unfold strftime_ts.
  repeat (apply no_newline_app;
          [first [apply str_of_int_no_newline | apply zfill_no_newline
                 | reflexivity]|]).
  apply zfill_no_newline.
Qed.

(** X16: the report is seventeen lines of text: it holds seventeen
    newline characters, the last of which ends it, whatever the Summary,
    when the text of the resolved path holds none. *)
Theorem format_report_lines resolve directory s :
  no_newline (path_str (resolve directory)) ->
  newlines (fst (format_report resolve directory s)) = 17%Z
  /\ exists body, fst (format_report resolve directory s) = body ++ nl.
Proof.
  intros Hp. split.
  - unfold format_report. cbn [fst].
    assert (He : no_newline (match earliest s with
                             | Some t => strftime_ts t
                             | None => lit "N/A"
                             end))
      by (destruct (earliest s); [apply strftime_ts_no_newline|reflexivity]).
    assert (Hl : no_newline (match latest s with
                             | Some t => strftime_ts t
                             | None => lit "N/A"
                             end))
      by (destruct (latest s); [apply strftime_ts_no_newline|reflexivity]).
    rewrite !newlines_app.
    rewrite (no_newline_newlines _ Hp), (no_newline_newlines _ He),
      (no_newline_newlines _ Hl),
      !(no_newline_newlines _ (str_of_int_no_newline _)).
    reflexivity.
  - destruct (format_report_tail resolve directory s) as [head ->].
    unfold report_tail. rewrite !app_assoc. eexists. reflexivity.
Qed.

Lemma format_report_lines_witness :
  newlines (fst (format_report (fun p => p) demo_dir Summary_new))
  = 17%Z
  /\ exists body,
      fst (format_report (fun p => p) demo_dir Summary_new) = body ++ nl.
Proof.
  apply (format_report_lines (fun p => p) demo_dir Summary_new).
  vm_compute. reflexivity.
Defined.

(** ** The command line *)

Lemma print_eq encodes text c :
  print encodes text c
  = if encodes text
    then if encodes nl
         then (Ok tt, mk_console (stdout c ++ text ++ nl) (stderr c))
         else (Raise UnicodeEncodeError,
               mk_console (stdout c ++ text) (stderr c))
    else (Raise UnicodeEncodeError, c).
Proof.
  unfold print, write_stdout. destruct (encodes text); [|reflexivity].
  cbn [stdout stderr]. destruct (encodes nl); [|reflexivity].
  now rewrite <- app_assoc.
Qed.

Lemma main_Ok encodes fs resolve directory c tr s tr' :
  summarize_directory fs directory tr = (Ok s, tr') ->
  main encodes fs resolve directory c tr
  = if encodes (fst (format_report resolve directory s))
    then if encodes nl
         then (Ok 0%Z,
               mk_console
                 (stdout c ++ fst (format_report resolve directory s) ++ nl)
                 (stderr c),
               tr')
         else (Raise UnicodeEncodeError,
               mk_console
                 (stdout c ++ fst (format_report resolve directory s))
                 (stderr c),
               tr')
    else (Raise UnicodeEncodeError, c, tr').
Proof.
  intros H. unfold main. rewrite H.
  destruct (format_report resolve directory s) as [text s'] eqn:E.
  cbn [fst]. rewrite print_eq.
  destruct (encodes text); [|reflexivity]. now destruct (encodes nl).
Qed.

Lemma main_Raise encodes fs resolve directory c tr e tr' :
  summarize_directory fs directory tr = (Raise e, tr') ->
  main encodes fs resolve directory c tr
  = match e with
    | FileNotFoundError msg | NotADirectoryError msg =>
        (Ok 2%Z, print_err (lit "Error: " ++ msg) c, tr')
    | _ => (Raise e, c, tr')
    end.
Proof. intros H. unfold main. rewrite H. now destruct e. Qed.

(** What a scan raises is one of four exceptions. *)
Lemma summarize_directory_raise_cases fs directory tr e tr' :
  summarize_directory fs directory tr = (Raise e, tr') ->
  e = FileNotFoundError
        (lit "Directory does not exist: " ++ path_str directory)
  \/ e = NotADirectoryError (lit "Not a directory: " ++ path_str directory)
  \/ e = OSError \/ e = ValueError.
Proof.
  intros H.
  assert (H' : fst (summarize_directory fs directory tr) = Raise e)
    by now rewrite H.
  destruct (stat fs directory) as [[n|]|e0] eqn:E.
  - destruct (is_directory n) eqn:Hn.
    + destruct (summarize_directory_dir_raise _ _ _ _ _ E Hn H'); auto.
    + rewrite (summarize_directory_not_dir _ _ _ _ E Hn) in H.
      injection H as <- _. auto.
  - rewrite (summarize_directory_missing _ _ _ E) in H.
    injection H as <- _. auto.
  - rewrite (summarize_directory_stat_raises _ _ _ _ E) in H.
    injection H as <- _. auto.
Qed.

(** The report is written in ASCII, the path apart. *)
Lemma charwise_ascii encodes text :
  charwise encodes -> is_ascii text = true -> encodes text = true.
Proof.
  intros (H0 & Happ & Hc). unfold is_ascii.
  induction text as [|c text IH]; [intros _; exact H0|].
  cbn [forallb]. rewrite andb_true_iff, N.ltb_lt. intros [H1 H2].
  change (c :: text) with ([c] ++ text).
  now rewrite Happ, (Hc c H1), (IH H2).
Qed.

Lemma is_ascii_app a b : is_ascii (a ++ b) = is_ascii a && is_ascii b.
Proof. apply forallb_app. Qed.

Lemma uint_chars_ascii d : is_ascii (uint_chars d) = true.
Proof. induction d; [reflexivity | exact IHd ..]. Qed.

Lemma str_of_int_ascii z : is_ascii (str_of_int z) = true.
Proof.
  unfold str_of_int. destruct (Z.to_int z) as [d|d].
  - apply uint_chars_ascii.
  - change (N_of_ascii "-" :: uint_chars d) with (lit "-" ++ uint_chars d).
    now rewrite is_ascii_app, uint_chars_ascii.
Qed.

Lemma zfill_ascii width z : is_ascii (zfill width z) = true.
Proof.
  unfold zfill. rewrite is_ascii_app, str_of_int_ascii, andb_true_r.
  induction (width - length (str_of_int z)) as [|n IH]; [reflexivity|exact IH].
Qed.

Lemma strftime_ts_ascii t : is_ascii (strftime_ts t) = true.
Proof.
  unfold strftime_ts.
  now rewrite !is_ascii_app, str_of_int_ascii, !zfill_ascii.
Qed.

Lemma format_report_encodes encodes resolve directory s :
  charwise encodes ->
  encodes (fst (format_report resolve directory s))
  = encodes (path_str (resolve directory)).
Proof.
  intros Hc. pose proof Hc as (H0 & Happ & _).
  assert (Ha : forall a b, is_ascii a = true ->
                           encodes (a ++ b) = encodes b)
    by (intros a b Hab; now rewrite Happ, (charwise_ascii _ _ Hc Hab)).
  assert (He : is_ascii (match earliest s with
                         | Some t => strftime_ts t
                         | None => lit "N/A"
                         end) = true)
    by (destruct (earliest s); [apply strftime_ts_ascii | reflexivity]).
  assert (Hl : is_ascii (match latest s with
                         | Some t => strftime_ts t
                         | None => lit "N/A"
                         end) = true)
    by (destruct (latest s); [apply strftime_ts_ascii | reflexivity]).
  unfold format_report. cbn [fst].
  rewrite !(Ha nl) by reflexivity.
  rewrite (Ha (lit "==================== Log Summary ===================="))
    by reflexivity.
  rewrite (Ha nl) by reflexivity.
  rewrite (Ha (lit "Directory:          ")) by reflexivity.
  rewrite Happ.
  match goal with
  | |- _ && encodes ?rest = _ =>
      assert (Hr : encodes rest = true)
  end.
  { apply (charwise_ascii _ _ Hc).
    now rewrite !is_ascii_app, !str_of_int_ascii, He, Hl. }
  now rewrite Hr, andb_true_r.
Qed.

Lemma utf8_strict_charwise : charwise utf8_strict.
Proof.
  split; [reflexivity|]. split.
  - intros a b. apply forallb_app.
  - intros c Hc. unfold utf8_strict. cbn [forallb].
    rewrite andb_true_r. apply negb_true_iff, andb_false_iff. left.
    apply N.leb_gt. lia.
Qed.

(** X17: on a standard output whose encoding works character by
    character and covers ASCII, [main] returns 0 exactly when the scan
    returns and the text of the resolved path can be encoded; it has
    then written the report and a newline to the standard output and
    nothing to the standard error. *)
Theorem main_success encodes fs resolve directory c tr :
  charwise encodes ->
  (fst (fst (main encodes fs resolve directory c tr)) = Ok 0%Z <->
   (exists s tr', summarize_directory fs directory tr = (Ok s, tr'))
   /\ encodes (path_str (resolve directory)) = true)
  /\ forall s tr',
      summarize_directory fs directory tr = (Ok s, tr') ->
      encodes (path_str (resolve directory)) = true ->
      main encodes fs resolve directory c tr
      = (Ok 0%Z,
         mk_console
           (stdout c ++ fst (format_report resolve directory s) ++ nl)
           (stderr c),
         tr').
Proof.
  intros Hc.
  assert (Hnl : encodes nl = true) by now apply (charwise_ascii _ _ Hc).
  split.
  - destruct (summarize_directory fs directory tr) as [[s|e] tr'] eqn:H.
    + rewrite (main_Ok _ _ _ _ _ _ _ _ H), Hnl,
        (format_report_encodes _ _ _ _ Hc).
      destruct (encodes (path_str (resolve directory))).
      * split; eauto.
      * split; [discriminate | now intros [_ [=]]].
    + rewrite (main_Raise _ _ _ _ _ _ _ _ H). split.
      * destruct e; discriminate.
      * intros [(s & tr0 & [=]) _].
  - intros s tr' H He.
    now rewrite (main_Ok _ _ _ _ _ _ _ _ H), Hnl,
      (format_report_encodes _ _ _ _ Hc), He.
Qed.

Lemma main_success_witness :
  exists s tr',
    summarize_directory demo_fs demo_dir [] = (Ok s, tr')
    /\ main utf8_strict demo_fs (fun p => p) demo_dir (mk_console [] []) []
       = (Ok 0%Z,
          mk_console
            ([] ++ fst (format_report (fun p => p) demo_dir s) ++ nl) [],
          tr').
Proof.
  eexists _, _. split.
  - vm_compute. reflexivity.
  - apply (proj2 (main_success utf8_strict demo_fs (fun p => p) demo_dir
                    (mk_console [] []) [] utf8_strict_charwise)).
    + vm_compute. reflexivity.
    + reflexivity.
Defined.



(** X19: what leaves [main], on a standard output whose encoding works
    character by character and covers ASCII: the [OSError] and the
    [ValueError] of the scan (a directory or a file closed to the
    process, a line with an impossible date), and the
    [UnicodeEncodeError] of [print] when the scan has returned and the
    text of the resolved path cannot be encoded. In each case [main] has
    written nothing by then. Its exit status, when it returns, is 0 or
    2. *)
Theorem main_escapes encodes fs resolve directory c tr :
  charwise encodes ->
  (forall e,
      fst (fst (main encodes fs resolve directory c tr)) = Raise e <->
      ((e = OSError \/ e = ValueError)
       /\ fst (summarize_directory fs directory tr) = Raise e)
      \/ (e = UnicodeEncodeError
          /\ (exists s tr', summarize_directory fs directory tr = (Ok s, tr'))
          /\ encodes (path_str (resolve directory)) = false))
  /\ (forall e,
         fst (fst (main encodes fs resolve directory c tr)) = Raise e ->
         snd (fst (main encodes fs resolve directory c tr)) = c)
  /\ (forall z,
         fst (fst (main encodes fs resolve directory c tr)) = Ok z ->
         z = 0%Z \/ z = 2%Z).
Proof.
  intros Hc.
  assert (Hnl : encodes nl = true) by now apply (charwise_ascii _ _ Hc).
  destruct (summarize_directory fs directory tr) as [[s|e0] tr'] eqn:H.
  - rewrite (main_Ok _ _ _ _ _ _ _ _ H), Hnl,
      (format_report_encodes _ _ _ _ Hc).
    destruct (encodes (path_str (resolve directory))); cbn [fst snd].
    + split; [|split].
      * intros e. split; [discriminate|].
        intros [[_ [=]] | (_ & _ & [=])].
      * discriminate.
      * intros z [= <-]. now left.
    + split; [|split].
      * intros e. split.
        -- intros [= <-]. right. eauto.
        -- intros [[_ [=]] | (-> & _ & _)]. reflexivity.
      * reflexivity.
      * discriminate.
  - rewrite (main_Raise _ _ _ _ _ _ _ _ H).
    destruct (summarize_directory_raise_cases _ _ _ _ _ H)
      as [-> | [-> | [-> | ->]]]; cbn [fst snd].
    + split; [|split].
      * intros e. split; [discriminate|].
        intros [[[-> | ->] [=]] | (_ & (s & tr0 & [=]) & _)].
      * discriminate.
      * intros z [= <-]. now right.
    + split; [|split].
      * intros e. split; [discriminate|].
        intros [[[-> | ->] [=]] | (_ & (s & tr0 & [=]) & _)].
      * discriminate.
      * intros z [= <-]. now right.
    + split; [|split].
      * intros e. split; [intros [= <-]; auto|].
        intros [[_ [= <-]] | (_ & (s & tr0 & [=]) & _)]. reflexivity.
      * reflexivity.
      * discriminate.
    + split; [|split].
      * intros e. split; [intros [= <-]; auto|].
        intros [[_ [= <-]] | (_ & (s & tr0 & [=]) & _)]. reflexivity.
      * reflexivity.
      * discriminate.
Qed.

Lemma main_escapes_witness :
  fst (fst (main utf8_strict faulty_fs (fun p => p) demo_dir
              (mk_console [] []) []))
  = Raise ValueError
  /\ fst (fst (main utf8_strict guarded_fs (fun p => p) [lit "outbox"]
                 (mk_console [] []) []))
     = Raise OSError
  /\ fst (fst (main utf8_strict demo_fs (fun _ => [[0xDCFF%N]]) demo_dir
                 (mk_console [] []) []))
     = Raise UnicodeEncodeError.
Proof.
  split; [|split].
  - destruct (main_escapes utf8_strict faulty_fs (fun p => p) demo_dir
                (mk_console [] []) [] utf8_strict_charwise) as (H & _).
    apply H. left. split; [now right | vm_compute; reflexivity].
  - destruct (main_escapes utf8_strict guarded_fs (fun p => p)
                [lit "outbox"] (mk_console [] []) [] utf8_strict_charwise)
      as (H & _).
    apply H. left. split; [now left | vm_compute; reflexivity].
  - destruct (main_escapes utf8_strict demo_fs (fun _ => [[0xDCFF%N]])
                demo_dir (mk_console [] []) [] utf8_strict_charwise)
      as (H & _).
    apply H. right. split; [reflexivity|]. split; [|reflexivity].
    eexists _, _. vm_compute. reflexivity.
Defined.
